(** * here-to-there: from the active application to a destination

    A shallow embedding of [src/utils.ts], [src/detectors.ts],
    [src/actors.ts] and the pure part of [src/activeToTarget.tsx]: the
    script registry, the result normalizer, the cloud path mapper, the
    resolution orchestrator, the actors and the lists of sources and
    destinations, followed by the properties the specification states
    about them and by further properties of the code.

    JavaScript strings are sequences of UTF-16 code units, exceptions are
    explicit completions, [process.env] is a finite map, the file system
    and the Raycast API are oracles passed to the code that calls them, and
    the calls a user can observe are recorded in order. *)

From Stdlib Require Import NArith ZArith String Ascii Lia.
From stdpp Require Import base list gmap strings.

Local Open Scope N_scope.

(** ** List scans shared by the string and URL functions *)

Fixpoint dropWhile {A} (f : A -> bool) (l : list A) : list A :=
  match l with
  | [] => []
  | x :: r => if f x then dropWhile f r else l
  end.

(** The longest prefix satisfying [f], and what follows it. *)
Fixpoint span {A} (f : A -> bool) (l : list A) : list A * list A :=
  match l with
  | [] => ([], [])
  | x :: r =>
      if f x then let '(a, b) := span f r in (x :: a, b) else ([], l)
  end.

(** ** JavaScript strings, exceptions and the string built-ins the code calls *)
Module JS.

(** A string value: its UTF-16 code units. *)
Definition jsstring := list N.

(** A source-text literal (the literals of the repository are ASCII). *)
Definition lit (s : string) : jsstring :=
  map N_of_ascii (list_ascii_of_string s).

(** What a [throw] carries. *)
Inductive Exception :=
| Error (message : jsstring)
| TypeError (message : jsstring)
| URIError
| SystemError (code : jsstring).

(** The outcome of evaluating an expression or awaiting a promise. *)
Inductive Completion (A : Type) :=
| Normal (v : A)
| Throw (e : Exception).
Arguments Normal {A} v.
Arguments Throw {A} e.

#[global] Instance Completion_ret : MRet Completion := @Normal.

#[global] Instance Completion_bind : MBind Completion :=
  fun A B (k : A -> Completion B) (m : Completion A) =>
    match m with
    | Normal v => k v
    | Throw e => Throw e
    end.

(** [try { body } catch { handler }] *)
Definition tryCatch {A} (body : Completion A) (handler : Exception -> Completion A)
  : Completion A :=
  match body with
  | Normal v => Normal v
  | Throw e => handler e
  end.

(** [!s] is false exactly for the non-empty strings. *)
Definition truthy (s : jsstring) : bool :=
  match s with
  | [] => false
  | _ :: _ => true
  end.

Definition streq (a b : jsstring) : bool := bool_decide (a = b).

(** ECMAScript WhiteSpace and LineTerminator code points, all of them one
    code unit long: what [String.prototype.trim] strips. *)
Definition isWhiteSpace (c : N) : bool :=
  (c =? 9) || (c =? 10) || (c =? 11) || (c =? 12) || (c =? 13) || (c =? 32)
  || (c =? 160) || (c =? 5760) || ((8192 <=? c) && (c <=? 8202))
  || (c =? 8232) || (c =? 8233) || (c =? 8239) || (c =? 8287)
  || (c =? 12288) || (c =? 65279).

Definition trimStart (s : jsstring) : jsstring := dropWhile isWhiteSpace s.

Definition trimEnd (s : jsstring) : jsstring := rev (dropWhile isWhiteSpace (rev s)).

Definition trim (s : jsstring) : jsstring := trimEnd (trimStart s).

(** [toLowerCase] on the ASCII letters. The case mappings of the other
    characters never produce a letter of ["documents"] nor of the scheme
    markers, so every comparison the code makes on a lowered string is
    decided by the ASCII letters alone. *)
Definition toLowerCaseUnit (c : N) : N :=
  if (65 <=? c) && (c <=? 90) then c + 32 else c.

Definition toLowerCase (s : jsstring) : jsstring := map toLowerCaseUnit s.

(** [s.startsWith(p)] *)
Fixpoint startsWith (s p : jsstring) {struct p} : bool :=
  match p, s with
  | [], _ => true
  | _ :: _, [] => false
  | a :: p', b :: s' => (a =? b) && startsWith s' p'
  end.

(** [s.includes(p)] *)
Fixpoint includes (s p : jsstring) : bool :=
  startsWith s p ||
  match s with
  | [] => false
  | _ :: s' => includes s' p
  end.

(** [array.includes(value)] on an array of strings. *)
Definition arrayIncludes (array : list jsstring) (value : jsstring) : bool :=
  existsb (fun element => streq element value) array.

(** [s.split(sep)] for a separator of one code unit. *)
Fixpoint split (sep : N) (s : jsstring) : list jsstring :=
  match s with
  | [] => [[]]
  | c :: r =>
      if c =? sep then [] :: split sep r
      else match split sep r with
           | [] => [[c]]
           | w :: ws => (c :: w) :: ws
           end
  end.

(** [s.replace(/\+/g, " ")] *)
Definition replacePlus (s : jsstring) : jsstring :=
  map (fun c => if c =? 43 then 32 else c) s.

Definition isDigit (c : N) : bool := (48 <=? c) && (c <=? 57).

Definition hexValue (c : N) : option N :=
  if isDigit c then Some (c - 48)
  else if (65 <=? c) && (c <=? 70) then Some (c - 55)
  else if (97 <=? c) && (c <=? 102) then Some (c - 87)
  else None.

(** *** decodeURIComponent (ECMAScript Decode with an empty preserved set) *)

(** First pass: every [%] must open a two-digit hexadecimal escape. *)
Inductive UriToken :=
| Unit (c : N)
| Octet (b : N).

Fixpoint uriTokens (s : jsstring) : option (list UriToken) :=
  match s with
  | [] => Some []
  | c :: r =>
      if c =? 37 then
        match r with
        | h :: l :: r' =>
            match hexValue h, hexValue l, uriTokens r' with
            | Some a, Some b, Some ts => Some (Octet (16 * a + b) :: ts)
            | _, _, _ => None
            end
        | _ => None
        end
      else
        match uriTokens r with
        | Some ts => Some (Unit c :: ts)
        | None => None
        end
  end.

Definition isContinuation (b : N) : bool := (128 <=? b) && (b <=? 191).

(** The UTF-16 code units of a code point. *)
Definition utf16 (cp : N) : jsstring :=
  if cp <? 65536 then [cp]
  else [55296 + (cp - 65536) / 1024; 56320 + (cp - 65536) mod 1024].

(** Second pass: an escaped octet of 0x80 and above must start a
    well-formed UTF-8 sequence made of escapes only (no overlong form, no
    surrogate, nothing above U+10FFFF). *)
Fixpoint decodeOctets (ts : list UriToken) : option jsstring :=
  match ts with
  | [] => Some []
  | Unit c :: r => cons c <$> decodeOctets r
  | Octet b :: r =>
      if b <? 128 then cons b <$> decodeOctets r
      else if (194 <=? b) && (b <=? 223) then
        match r with
        | Octet b2 :: r2 =>
            if isContinuation b2
            then app (utf16 ((b - 192) * 64 + (b2 - 128))) <$> decodeOctets r2
            else None
        | _ => None
        end
      else if (224 <=? b) && (b <=? 239) then
        match r with
        | Octet b2 :: Octet b3 :: r3 =>
            if isContinuation b2 && isContinuation b3
               && negb ((b =? 224) && (b2 <? 160))
               && negb ((b =? 237) && (160 <=? b2))
            then app (utf16 ((b - 224) * 4096 + (b2 - 128) * 64 + (b3 - 128)))
                   <$> decodeOctets r3
            else None
        | _ => None
        end
      else if (240 <=? b) && (b <=? 244) then
        match r with
        | Octet b2 :: Octet b3 :: Octet b4 :: r4 =>
            if isContinuation b2 && isContinuation b3 && isContinuation b4
               && negb ((b =? 240) && (b2 <? 144))
               && negb ((b =? 244) && (144 <=? b2))
            then app (utf16 ((b - 240) * 262144 + (b2 - 128) * 4096
                             + (b3 - 128) * 64 + (b4 - 128)))
                   <$> decodeOctets r4
            else None
        | _ => None
        end
      else None
  end.

Definition decodeURIComponent (s : jsstring) : Completion jsstring :=
  match uriTokens s with
  | Some ts =>
      match decodeOctets ts with
      | Some r => Normal r
      | None => Throw URIError
      end
  | None => Throw URIError
  end.

End JS.
Export JS.


(** ** The URL parser behind [new URL(input)] (WHATWG URL, no base URL)

    Only what the code reads is kept: the scheme, the host and the path.
    Credentials, port, query and fragment are scanned, since they decide
    where host and path end and whether parsing fails, and then dropped. *)
Module Url.

(** The standard's host parser (percent-decoding, IDNA processing, IPv4 and
    IPv6 literals, opaque hosts): from the host text to the serialized host,
    or failure. The flag tells whether the host is opaque (that of a
    non-special URL). Everything below is stated for an arbitrary one. *)
Class HostParser := parseHost : bool -> jsstring -> option jsstring.

Inductive UrlPath :=
| Opaque (s : jsstring)
| Segments (l : list jsstring).

Record URL := {
  scheme : jsstring;
  host : option jsstring;
  path : UrlPath;
}.

(** The [hostname] getter: the serialized host, empty for a null host. *)
Definition hostname (u : URL) : jsstring := default [] (host u).

(** The [pathname] getter: the URL path serializer. *)
Definition pathname (u : URL) : jsstring :=
  match path u with
  | Opaque s => s
  | Segments l => flat_map (fun seg => 47 :: seg) l
  end.

Definition isHighSurrogate (c : N) : bool := (55296 <=? c) && (c <=? 56319).
Definition isLowSurrogate (c : N) : bool := (56320 <=? c) && (c <=? 57343).

(** Conversion of the argument to a scalar value string: surrogate pairs
    are combined, lone surrogates become U+FFFD. *)
Fixpoint scalarValues (s : jsstring) : list N :=
  match s with
  | [] => []
  | c :: r =>
      if isHighSurrogate c then
        match r with
        | d :: r' =>
            if isLowSurrogate d
            then (65536 + (c - 55296) * 1024 + (d - 56320)) :: scalarValues r'
            else 65533 :: scalarValues r
        | [] => [65533]
        end
      else if isLowSurrogate c then 65533 :: scalarValues r
      else c :: scalarValues r
  end.

Definition isC0ControlOrSpace (c : N) : bool := c <=? 32.
Definition isTabOrNewline (c : N) : bool := (c =? 9) || (c =? 10) || (c =? 13).

Definition stripC0 (s : list N) : list N :=
  rev (dropWhile isC0ControlOrSpace (rev (dropWhile isC0ControlOrSpace s))).

Definition removeTabNewline (s : list N) : list N :=
  List.filter (fun c => negb (isTabOrNewline c)) s.

Definition isAlpha (c : N) : bool :=
  ((65 <=? c) && (c <=? 90)) || ((97 <=? c) && (c <=? 122)).

Definition isSchemeChar (c : N) : bool :=
  isAlpha c || isDigit c || (c =? 43) || (c =? 45) || (c =? 46).

(** Scheme start state and scheme state: an ASCII letter, then letters,
    digits, [+], [-] and [.] up to a colon; anything else is a missing
    scheme, a failure when there is no base URL. *)
Definition splitScheme (s : list N) : option (jsstring * list N) :=
  match s with
  | [] => None
  | c :: _ =>
      if isAlpha c then
        let '(name, rest) := span isSchemeChar s in
        match rest with
        | d :: rest' => if d =? 58 then Some (toLowerCase name, rest') else None
        | [] => None
        end
      else None
  end.

Definition isSpecial (name : jsstring) : bool :=
  streq name (lit "ftp") || streq name (lit "file") || streq name (lit "http")
  || streq name (lit "https") || streq name (lit "ws") || streq name (lit "wss").

(** UTF-8 percent-encoding. *)
Definition utf8 (cp : N) : list N :=
  if cp <? 128 then [cp]
  else if cp <? 2048 then [192 + cp / 64; 128 + cp mod 64]
  else if cp <? 65536 then
    [224 + cp / 4096; 128 + (cp / 64) mod 64; 128 + cp mod 64]
  else
    [240 + cp / 262144; 128 + (cp / 4096) mod 64; 128 + (cp / 64) mod 64;
     128 + cp mod 64].

Definition hexDigit (n : N) : N := if n <? 10 then 48 + n else 55 + n.

Definition percentByte (b : N) : jsstring := [37; hexDigit (b / 16); hexDigit (b mod 16)].

Definition inC0ControlSet (c : N) : bool := (c <=? 31) || (126 <? c).

(** The path percent-encode set. *)
Definition inPathSet (c : N) : bool :=
  inC0ControlSet c || (c =? 32) || (c =? 34) || (c =? 35) || (c =? 60)
  || (c =? 62) || (c =? 63) || (c =? 94) || (c =? 96) || (c =? 123)
  || (c =? 125).

Definition encodeWith (inSet : N -> bool) (c : N) : jsstring :=
  if inSet c then flat_map percentByte (utf8 c) else [c].

Definition isWindowsDriveLetter (b : jsstring) : bool :=
  match b with
  | [a; c] => isAlpha a && ((c =? 58) || (c =? 124))
  | _ => false
  end.

Definition isNormalizedWindowsDriveLetter (b : jsstring) : bool :=
  match b with
  | [a; c] => isAlpha a && (c =? 58)
  | _ => false
  end.

Definition isSingleDot (b : jsstring) : bool :=
  let l := toLowerCase b in streq l (lit ".") || streq l (lit "%2e").

Definition isDoubleDot (b : jsstring) : bool :=
  let l := toLowerCase b in
  streq l (lit "..") || streq l (lit ".%2e") || streq l (lit "%2e.")
  || streq l (lit "%2e%2e").

Definition shorten (file : bool) (p : list jsstring) : list jsstring :=
  match p with
  | [seg] => if file && isNormalizedWindowsDriveLetter seg then p else []
  | _ => removelast p
  end.

Definition isSlash (special : bool) (c : N) : bool :=
  (c =? 47) || (special && (c =? 92)).

(** Path state, at the end of a segment: [slash] tells whether the segment
    was closed by a slash (rather than by the end of the path). *)
Definition endSegment (file slash : bool) (p : list jsstring) (buffer : jsstring)
  : list jsstring :=
  if isDoubleDot buffer then
    if slash then shorten file p else shorten file p ++ [[]]
  else if isSingleDot buffer then
    if slash then p else p ++ [[]]
  else if file && bool_decide (p = []) && isWindowsDriveLetter buffer then
    p ++ [match buffer with a :: _ :: t => a :: 58 :: t | _ => buffer end]
  else p ++ [buffer].

(** Path state: the path ends at [?], [#] or the end of the input. *)
Fixpoint pathState (special file : bool) (p : list jsstring) (buffer : jsstring)
  (input : list N) : list jsstring :=
  match input with
  | [] => endSegment file false p buffer
  | c :: r =>
      if isSlash special c then pathState special file (endSegment file true p buffer) [] r
      else if (c =? 63) || (c =? 35) then endSegment file false p buffer
      else pathState special file p (buffer ++ encodeWith inPathSet c) r
  end.

(** Path start state. *)
Definition pathStartState (special file : bool) (input : list N) : list jsstring :=
  match input with
  | [] => if special then pathState special file [] [] [] else []
  | c :: r =>
      if special then
        if isSlash true c then pathState special file [] [] r
        else pathState special file [] [] input
      else if (c =? 63) || (c =? 35) then []
      else if c =? 47 then pathState special file [] [] r
      else pathState special file [] [] input
  end.

(** Opaque path state. *)
Definition opaquePathState (input : list N) : jsstring :=
  flat_map (encodeWith inC0ControlSet)
    (fst (span (fun c => negb ((c =? 63) || (c =? 35))) input)).

Definition isAuthorityEnd (special : bool) (c : N) : bool :=
  (c =? 47) || (c =? 63) || (c =? 35) || (special && (c =? 92)).

(** Authority state: what follows the last [@] of the authority, if any. *)
Fixpoint afterLastAt (auth : list N) : option (list N) :=
  match auth with
  | [] => None
  | c :: r =>
      match afterLastAt r with
      | Some h => Some h
      | None => if c =? 64 then Some r else None
      end
  end.

(** Host state: the host text ends at the first colon outside brackets. *)
Fixpoint hostSplit (inside : bool) (buffer s : list N) : list N * option (list N) :=
  match s with
  | [] => (buffer, None)
  | c :: r =>
      if (c =? 58) && negb inside then (buffer, Some r)
      else hostSplit (if c =? 91 then true else if c =? 93 then false else inside)
             (buffer ++ [c]) r
  end.

Definition decimal (digits : list N) : N :=
  fold_left (fun acc d => 10 * acc + (d - 48)) digits 0.

(** Port state: digits only, at most 65535. *)
Definition portOk (text : list N) : bool :=
  forallb isDigit text && (decimal text <=? 65535).

Section Parser.
Context `{HostParser}.

(** Authority, host and port states, then the path. *)
Definition authorityState (special : bool) (name : jsstring) (input : list N)
  : option URL :=
  let '(auth, rest) := span (fun c => negb (isAuthorityEnd special c)) input in
  let hostport := default auth (afterLastAt auth) in
  if bool_decide (afterLastAt auth = Some []) then None
  else
    let '(buffer, port) := hostSplit false [] hostport in
    if (special || bool_decide (port <> None)) && negb (truthy buffer) then None
    else if negb (portOk (default [] port)) then None
    else
      match parseHost (negb special) buffer with
      | None => None
      | Some h =>
          Some {| scheme := name; host := Some h;
                  path := Segments (pathStartState special false rest) |}
      end.

Definition isFileHostEnd (c : N) : bool :=
  (c =? 47) || (c =? 92) || (c =? 63) || (c =? 35).

(** File host state. A Windows drive letter in host position is kept as
    the first path segment. *)
Definition fileHostState (input : list N) : option URL :=
  let '(buffer, rest) := span (fun c => negb (isFileHostEnd c)) input in
  if isWindowsDriveLetter buffer then
    Some {| scheme := lit "file"; host := Some [];
            path := Segments (pathState true true [] buffer rest) |}
  else if negb (truthy buffer) then
    Some {| scheme := lit "file"; host := Some [];
            path := Segments (pathStartState true true rest) |}
  else
    match parseHost false buffer with
    | None => None
    | Some h =>
        Some {| scheme := lit "file";
                host := Some (if streq h (lit "localhost") then [] else h);
                path := Segments (pathStartState true true rest) |}
    end.

(** File state and file slash state. *)
Definition fileState (input : list N) : option URL :=
  match input with
  | c :: d :: r =>
      if isSlash true c then
        if isSlash true d then fileHostState r
        else Some {| scheme := lit "file"; host := Some [];
                     path := Segments (pathState true true [] [] (d :: r)) |}
      else Some {| scheme := lit "file"; host := Some [];
                   path := Segments (pathState true true [] [] input) |}
  | [c] =>
      Some {| scheme := lit "file"; host := Some [];
              path := Segments (pathState true true [] []
                                  (if isSlash true c then [] else input)) |}
  | [] =>
      Some {| scheme := lit "file"; host := Some [];
              path := Segments (pathState true true [] [] []) |}
  end.

(** The basic URL parser, from the scheme start state, without a base URL. *)
Definition basicParse (input : jsstring) : option URL :=
  let s := removeTabNewline (stripC0 (scalarValues input)) in
  match splitScheme s with
  | None => None
  | Some (name, rest) =>
      if streq name (lit "file") then fileState rest
      else if isSpecial name then
        authorityState true name (dropWhile (isSlash true) rest)
      else
        match rest with
        | c :: r =>
            if c =? 47 then
              match r with
              | d :: r' =>
                  if d =? 47 then authorityState false name r'
                  else Some {| scheme := name; host := None;
                               path := Segments (pathState false false [] [] r) |}
              | [] => Some {| scheme := name; host := None;
                              path := Segments (pathState false false [] [] []) |}
              end
            else Some {| scheme := name; host := None;
                         path := Opaque (opaquePathState rest) |}
        | [] => Some {| scheme := name; host := None; path := Opaque [] |}
        end
  end.

(** [new URL(input)]: a [TypeError] when parsing fails. *)
Definition newURL (input : jsstring) : Completion URL :=
  match basicParse input with
  | Some u => Normal u
  | None => Throw (TypeError (lit "Invalid URL"))
  end.

End Parser.

End Url.

(** ** [node:path] (POSIX): [join] and [dirname] *)
Module Path.

(** [normalizeString]: empty and [.] segments vanish, [..] removes the
    segment before it; above the start of a relative path it is kept. *)
Fixpoint normalizeSegments (allowAboveRoot : bool) (done : list jsstring)
  (segs : list jsstring) : list jsstring :=
  match segs with
  | [] => rev done
  | seg :: r =>
      if negb (truthy seg) || streq seg (lit ".") then
        normalizeSegments allowAboveRoot done r
      else if streq seg (lit "..") then
        match done with
        | top :: below =>
            if streq top (lit "..")
            then normalizeSegments allowAboveRoot (seg :: done) r
            else normalizeSegments allowAboveRoot below r
        | [] =>
            normalizeSegments allowAboveRoot
              (if allowAboveRoot then [seg] else []) r
        end
      else normalizeSegments allowAboveRoot (seg :: done) r
  end.

Fixpoint joinWith (sep : N) (segs : list jsstring) : jsstring :=
  match segs with
  | [] => []
  | [seg] => seg
  | seg :: r => seg ++ sep :: joinWith sep r
  end.

Definition normalize (p : jsstring) : jsstring :=
  match p with
  | [] => lit "."
  | c :: _ =>
      let isAbsolute := c =? 47 in
      let trailingSeparator := default false (N.eqb 47 <$> last p) in
      let body := joinWith 47 (normalizeSegments (negb isAbsolute) [] (split 47 p)) in
      if negb (truthy body) then
        if isAbsolute then lit "/"
        else if trailingSeparator then lit "./" else lit "."
      else
        let body' := if trailingSeparator then body ++ [47] else body in
        if isAbsolute then 47 :: body' else body'
  end.

(** [join(...args)] *)
Definition join (args : list jsstring) : jsstring :=
  match List.filter truthy args with
  | [] => lit "."
  | parts => normalize (joinWith 47 parts)
  end.

(** [dirname(path)] *)
Definition dirname (p : jsstring) : jsstring :=
  match p with
  | [] => lit "."
  | c :: rest =>
      let hasRoot := c =? 47 in
      let beforeName :=
        dropWhile (fun d => negb (d =? 47)) (dropWhile (N.eqb 47) (rev rest)) in
      match beforeName with
      | [] => if hasRoot then lit "/" else lit "."
      | _ :: parent =>
          if hasRoot && negb (truthy parent) then lit "//" else c :: rev parent
      end
  end.

End Path.

(** ** The platform the code runs on: file system, environment, child processes *)
Module Node.

Record Stats := { isFile : bool; isDirectory : bool }.

Record Dirent := { direntName : jsstring; direntIsDirectory : bool }.

(** [stat] and [readdir] of [node:fs/promises]; a rejected promise is a
    [Throw]. The code never writes, so the file system is not threaded. *)
Record FileSystem := {
  stat : jsstring -> Completion Stats;
  readdir : jsstring -> Completion (list Dirent);
}.

(** [process.env]: a map from variable names to strings. *)
Abbreviation Env := (gmap jsstring jsstring).

(** Reading a missing property gives [undefined], here [None]. *)
Definition envGet (key : jsstring) (env : Env) : option jsstring := env !! key.

(** [delete process.env[key]] *)
Definition envDelete (key : jsstring) (env : Env) : Env := delete key env.

(** [process.env[key] = value]: the value is converted to a string first,
    [undefined] to the string ["undefined"]. *)
Definition envAssign (key : jsstring) (value : option jsstring) (env : Env) : Env :=
  <[key := default (lit "undefined") value]> env.

(** What [spawnSync] hands back of the child's output: null streams when
    the child could not be started. *)
Record SpawnResult := {
  stdout : option jsstring;
  stderr : option jsstring;
}.

Record World := {
  platform : jsstring;
  homedir : jsstring;
  fs : FileSystem;
  (** the child sees the environment of the moment it is spawned in *)
  spawnSync : jsstring -> list jsstring -> Env -> Completion SpawnResult;
}.

(** Code that reads and writes [process.env] and may throw: from the
    environment before to the completion and the environment after. *)
Definition Action (A : Type) : Type := Env -> Completion A * Env.

#[global] Instance Action_ret : MRet Action := fun A v env => (Normal v, env).

#[global] Instance Action_bind : MBind Action :=
  fun A B (k : A -> Action B) (m : Action A) env =>
    match m env with
    | (Normal v, env') => k v env'
    | (Throw e, env') => (Throw e, env')
    end.

(** A computation that leaves the environment alone. *)
Definition liftAction {A} (m : Completion A) : Action A := fun env => (m, env).

End Node.
Export Node.

(** ** [src/utils.ts] *)
Module Utils.

Definition runAppleScript (w : World) (script : jsstring) : Action jsstring :=
  fun env =>
    if negb (streq (platform w) (lit "darwin")) then
      (Throw (Error (lit "macOS only")), env)
    else
      let locale := envGet (lit "LC_ALL") env in
      let env := envDelete (lit "LC_ALL") env in
      match spawnSync w (lit "osascript") [lit "-e"; script] env with
      | Throw e => (Throw e, env)
      | Normal result =>
          let env := envAssign (lit "LC_ALL") locale env in
          if truthy (default [] (stderr result)) then
            (Throw (Error (default [] (stderr result))), env)
          else
            match stdout result with
            | Some out => (Normal out, env)
            | None => (Throw (TypeError (lit "Cannot read properties of null (reading 'toString')")),
                        env)
            end
      end.

End Utils.
Export Utils.

(** ** [src/detectors.ts] *)
Module Detectors.
Import Url Path.

Inductive FileManager := Finder | QSpacePro | Bloom.

Definition fileManagerName (fileManager : FileManager) : jsstring :=
  match fileManager with
  | Finder => lit "Finder"
  | QSpacePro => lit "QSpace Pro"
  | Bloom => lit "Bloom"
  end.

Definition FILE_MANAGERS : list FileManager := [Finder; QSpacePro; Bloom].

Inductive Terminal := TerminalApp | ITerm | Warp | WezTerm | Ghostty | Kitty.

Definition terminalName (name : Terminal) : jsstring :=
  match name with
  | TerminalApp => lit "Terminal"
  | ITerm => lit "iTerm"
  | Warp => lit "Warp"
  | WezTerm => lit "WezTerm"
  | Ghostty => lit "Ghostty"
  | Kitty => lit "kitty"
  end.

Definition TERMINALS : list Terminal := [TerminalApp; ITerm; Warp; WezTerm; Ghostty; Kitty].

Inductive DocumentApp :=
| VisualStudioCode | VisualStudioCodeInsiders | Xcode | XcodeBeta
| IntelliJIDEA | PyCharm | WebStorm | PhpStorm | RubyMine | GoLand | CLion
| DataGrip | Rider | AppCode | SublimeText | BBEdit | TextEdit | CotEditor
| Nova | Obsidian | MicrosoftWord | MicrosoftExcel | MicrosoftPowerPoint
| Preview | Skim | PDFExpert | AdobeAcrobat | AdobeAcrobatReaderDC.

Definition documentAppName (app : DocumentApp) : jsstring :=
  match app with
  | VisualStudioCode => lit "Visual Studio Code"
  | VisualStudioCodeInsiders => lit "Visual Studio Code - Insiders"
  | Xcode => lit "Xcode"
  | XcodeBeta => lit "Xcode-beta"
  | IntelliJIDEA => lit "IntelliJ IDEA"
  | PyCharm => lit "PyCharm"
  | WebStorm => lit "WebStorm"
  | PhpStorm => lit "PhpStorm"
  | RubyMine => lit "RubyMine"
  | GoLand => lit "GoLand"
  | CLion => lit "CLion"
  | DataGrip => lit "DataGrip"
  | Rider => lit "Rider"
  | AppCode => lit "AppCode"
  | SublimeText => lit "Sublime Text"
  | BBEdit => lit "BBEdit"
  | TextEdit => lit "TextEdit"
  | CotEditor => lit "CotEditor"
  | Nova => lit "Nova"
  | Obsidian => lit "Obsidian"
  | MicrosoftWord => lit "Microsoft Word"
  | MicrosoftExcel => lit "Microsoft Excel"
  | MicrosoftPowerPoint => lit "Microsoft PowerPoint"
  | Preview => lit "Preview"
  | Skim => lit "Skim"
  | PDFExpert => lit "PDF Expert"
  | AdobeAcrobat => lit "Adobe Acrobat"
  | AdobeAcrobatReaderDC => lit "Adobe Acrobat Reader DC"
  end.

Definition DOCUMENT_APPS : list DocumentApp :=
  [VisualStudioCode; VisualStudioCodeInsiders; Xcode; XcodeBeta; IntelliJIDEA;
   PyCharm; WebStorm; PhpStorm; RubyMine; GoLand; CLion; DataGrip; Rider;
   AppCode; SublimeText; BBEdit; TextEdit; CotEditor; Nova; Obsidian;
   MicrosoftWord; MicrosoftExcel; MicrosoftPowerPoint; Preview; Skim;
   PDFExpert; AdobeAcrobat; AdobeAcrobatReaderDC].

Inductive DocumentTarget :=
| PreviewTarget | SkimTarget | PDFExpertTarget | AdobeAcrobatTarget
| AdobeAcrobatReaderDCTarget.

Definition documentTargetName (target : DocumentTarget) : jsstring :=
  match target with
  | PreviewTarget => lit "Preview"
  | SkimTarget => lit "Skim"
  | PDFExpertTarget => lit "PDF Expert"
  | AdobeAcrobatTarget => lit "Adobe Acrobat"
  | AdobeAcrobatReaderDCTarget => lit "Adobe Acrobat Reader DC"
  end.

Definition DOCUMENT_TARGETS : list DocumentTarget :=
  [PreviewTarget; SkimTarget; PDFExpertTarget; AdobeAcrobatTarget;
   AdobeAcrobatReaderDCTarget].

(** The type guards: membership of the string in the array of the family. *)
Definition isFileManager (val : jsstring) : bool :=
  arrayIncludes (map fileManagerName FILE_MANAGERS) val.

Definition isTerminal (val : jsstring) : bool :=
  arrayIncludes (map terminalName TERMINALS) val.

Definition isDocumentApp (val : jsstring) : bool :=
  arrayIncludes (map documentAppName DOCUMENT_APPS) val.

Definition isDocumentTarget (val : jsstring) : bool :=
  arrayIncludes (map documentTargetName DOCUMENT_TARGETS) val.

(** *** The script templates

    A template literal is given line by line, as in the source. Within
    [tpl] a backquote stands for the double quote of the source text. *)
Definition tpl (s : string) : jsstring :=
  map (fun c => if c =? 96 then 34 else c) (lit s).

Definition unlines (l : list jsstring) : jsstring := joinWith 10 l.

Definition buildFileManagerPathScript (fileManager : FileManager) : jsstring :=
  match fileManager with
  | Finder =>
      unlines
      [ tpl "";
        tpl "        if application `Finder` is not running then";
        tpl "            error `Finder is not running`";
        tpl "        end if";
        tpl "";
        tpl "        tell application `Finder`";
        tpl "          if (count of Finder windows) = 0 then error `No Finder window open`";
        tpl "          try";
        tpl "            set pathList to POSIX path of (folder of the front window as alias)";
        tpl "            return pathList";
        tpl "          on error";
        tpl "            error `Could not access Finder window path`";
        tpl "          end try";
        tpl "        end tell";
        tpl "      " ]
  | QSpacePro =>
      unlines
      [ tpl "";
        tpl "        if application `QSpace Pro` is not running then";
        tpl "            error `QSpace Pro is not running`";
        tpl "        end if";
        tpl "";
        tpl "        tell application `QSpace Pro`";
        tpl "          if (count of windows) = 0 then error `No QSpace Pro window open`";
        tpl "";
        tpl "          try";
        tpl "            set sel to selected items of front window";
        tpl "            if (count of sel) > 0 then";
        tpl "              set fileItem to item 1 of sel";
        tpl "              try";
        tpl "                return urlstr of fileItem";
        tpl "              on error";
        tpl "                return POSIX path of fileItem";
        tpl "              end try";
        tpl "            end if";
        tpl "          end try";
        tpl "";
        tpl "          try";
        tpl "            set sel to selection of front window";
        tpl "            if (count of sel) > 0 then";
        tpl "              set fileItem to item 1 of sel";
        tpl "              try";
        tpl "                return urlstr of fileItem";
        tpl "              on error";
        tpl "                return POSIX path of fileItem";
        tpl "              end try";
        tpl "            end if";
        tpl "          end try";
        tpl "";
        tpl "          try";
        tpl "            set paneRoot to root item of activated pane of front window";
        tpl "            return urlstr of paneRoot";
        tpl "          end try";
        tpl "";
        tpl "          try";
        tpl "            set winRoot to root item of front window";
        tpl "            return urlstr of winRoot";
        tpl "          end try";
        tpl "";
        tpl "          return missing value";
        tpl "        end tell";
        tpl "      " ]
  | Bloom =>
      unlines
      [ tpl "";
        tpl "        if application `Bloom` is not running then";
        tpl "            error `Bloom is not running`";
        tpl "        end if";
        tpl "";
        tpl "        tell application `Bloom`";
        tpl "          try";
        tpl "            set winSel to selection of front window";
        tpl "            if (count of winSel) > 0 then";
        tpl "              set item1 to item 1 of winSel";
        tpl "              try";
        tpl "                return POSIX path of item1";
        tpl "              on error";
        tpl "                return POSIX path of (item1 as alias)";
        tpl "              end try";
        tpl "            end if";
        tpl "          on error";
        tpl "            return rootURL of front window";
        tpl "          end try";
        tpl "        end tell";
        tpl "      " ]
  end.

Definition buildDocumentPathScript (app : DocumentApp) : jsstring :=
  match app with
  | VisualStudioCode | VisualStudioCodeInsiders =>
      let processName :=
        if streq (documentAppName app) (lit "Visual Studio Code - Insiders")
        then lit "Code - Insiders" else lit "Code" in
      unlines
      [ tpl "";
        tpl "        tell application `System Events`";
        tpl "          if not (exists process `" ++ processName ++ tpl "`) then error `" ++ documentAppName app ++ tpl " is not running`";
        tpl "          tell process `" ++ processName ++ tpl "`";
        tpl "            if (count of windows) = 0 then error `No window open`";
        tpl "            try";
        tpl "              set docPath to value of attribute `AXDocument` of front window";
        tpl "              if docPath is missing value then error `No active document`";
        tpl "              return docPath";
        tpl "            on error";
        tpl "              error `Could not read active document`";
        tpl "            end try";
        tpl "          end tell";
        tpl "        end tell";
        tpl "      " ]
  | Xcode | XcodeBeta =>
      unlines
      [ tpl "";
        tpl "        if application `" ++ documentAppName app ++ tpl "` is not running then";
        tpl "            error `" ++ documentAppName app ++ tpl " is not running`";
        tpl "        end if";
        tpl "";
        tpl "        tell application `" ++ documentAppName app ++ tpl "`";
        tpl "          if (count of windows) = 0 then error `No window open`";
        tpl "          set activeDoc to active workspace document";
        tpl "          if activeDoc is missing value then error `No active document`";
        tpl "          set docPath to path of activeDoc";
        tpl "          return POSIX path of docPath";
        tpl "        end tell";
        tpl "      " ]
  | IntelliJIDEA | PyCharm | WebStorm | PhpStorm | RubyMine | GoLand | CLion | DataGrip | Rider | AppCode =>
      unlines
      [ tpl "";
        tpl "        if application `" ++ documentAppName app ++ tpl "` is not running then";
        tpl "            error `" ++ documentAppName app ++ tpl " is not running`";
        tpl "        end if";
        tpl "";
        tpl "        tell application `System Events`";
        tpl "          tell process `" ++ documentAppName app ++ tpl "`";
        tpl "            if (count of windows) = 0 then error `No window open`";
        tpl "            set winTitle to name of window 1";
        tpl "          end tell";
        tpl "        end tell";
        tpl "";
        tpl "        set pathPart to winTitle";
        tpl "        if winTitle contains ` - ` then";
        tpl "          set AppleScript's text item delimiters to ` - `";
        tpl "          set pathPart to text item 2 of (text items of winTitle)";
        tpl "        end if";
        tpl "";
        tpl "        set AppleScript's text item delimiters to ``";
        tpl "        set pathPart to do shell script `echo ` & quoted form of pathPart & ` | xargs`";
        tpl "";
        tpl "        if pathPart contains `[` then";
        tpl "          set AppleScript's text item delimiters to `[`";
        tpl "          set pathPart to text item 1 of (text items of pathPart)";
        tpl "          set AppleScript's text item delimiters to ``";
        tpl "          set pathPart to do shell script `echo ` & quoted form of pathPart & ` | xargs`";
        tpl "        end if";
        tpl "";
        tpl "        return pathPart";
        tpl "      " ]
  | SublimeText =>
      unlines
      [ tpl "";
        tpl "        if application `Sublime Text` is not running then";
        tpl "            error `Sublime Text is not running`";
        tpl "        end if";
        tpl "";
        tpl "        tell application `Sublime Text`";
        tpl "          if (count of windows) = 0 then error `No window open`";
        tpl "          tell window 1";
        tpl "            if (count of views) = 0 then error `No active document`";
        tpl "            set activeView to view 1";
        tpl "            set docPath to file of activeView";
        tpl "            if docPath is missing value then error `No active document`";
        tpl "            return docPath";
        tpl "          end tell";
        tpl "        end tell";
        tpl "      " ]
  | BBEdit =>
      unlines
      [ tpl "";
        tpl "        if application `BBEdit` is not running then";
        tpl "            error `BBEdit is not running`";
        tpl "        end if";
        tpl "";
        tpl "        tell application `BBEdit`";
        tpl "          if (count of windows) = 0 then error `No window open`";
        tpl "          set activeDoc to document of window 1";
        tpl "          if activeDoc is missing value then error `No active document`";
        tpl "          if exists file of activeDoc then";
        tpl "            set docPath to file of activeDoc";
        tpl "            return POSIX path of docPath";
        tpl "          end if";
        tpl "          error `No active document`";
        tpl "        end tell";
        tpl "      " ]
  | TextEdit =>
      unlines
      [ tpl "";
        tpl "        if application `TextEdit` is not running then";
        tpl "            error `TextEdit is not running`";
        tpl "        end if";
        tpl "";
        tpl "        tell application `TextEdit`";
        tpl "          if (count of windows) = 0 then error `No window open`";
        tpl "          set activeDoc to document of window 1";
        tpl "          if activeDoc is missing value then error `No active document`";
        tpl "          set docPath to path of activeDoc";
        tpl "          if docPath is missing value then error `No active document`";
        tpl "          return POSIX path of docPath";
        tpl "        end tell";
        tpl "      " ]
  | CotEditor =>
      unlines
      [ tpl "";
        tpl "        if application `CotEditor` is not running then";
        tpl "            error `CotEditor is not running`";
        tpl "        end if";
        tpl "";
        tpl "        tell application `CotEditor`";
        tpl "          if (count of windows) = 0 then error `No window open`";
        tpl "          set activeDoc to front document";
        tpl "          if activeDoc is missing value then error `No active document`";
        tpl "          set docPath to path of activeDoc";
        tpl "          if docPath is missing value then error `No active document`";
        tpl "          return POSIX path of docPath";
        tpl "        end tell";
        tpl "      " ]
  | Nova =>
      unlines
      [ tpl "";
        tpl "        if application `Nova` is not running then";
        tpl "            error `Nova is not running`";
        tpl "        end if";
        tpl "";
        tpl "        tell application `Nova`";
        tpl "          if (count of windows) = 0 then error `No window open`";
        tpl "          tell window 1";
        tpl "            set activeDoc to active document";
        tpl "            if activeDoc is missing value then error `No active document`";
        tpl "            set docPath to path of activeDoc";
        tpl "            return POSIX path of docPath";
        tpl "          end tell";
        tpl "        end tell";
        tpl "      " ]
  | Obsidian =>
      unlines
      [ tpl "";
        tpl "        if application `Obsidian` is not running then";
        tpl "            error `Obsidian is not running`";
        tpl "        end if";
        tpl "";
        tpl "        tell application `System Events`";
        tpl "          tell process `Obsidian`";
        tpl "            if (count of windows) = 0 then error `No window open`";
        tpl "            set docPath to value of attribute `AXDocument` of window 1";
        tpl "            if docPath is missing value then error `No active document`";
        tpl "            return docPath";
        tpl "          end tell";
        tpl "        end tell";
        tpl "      " ]
  | MicrosoftWord =>
      unlines
      [ tpl "";
        tpl "        if application `Microsoft Word` is not running then";
        tpl "            error `Microsoft Word is not running`";
        tpl "        end if";
        tpl "";
        tpl "        tell application `Microsoft Word`";
        tpl "          if not (exists active document) then error `No active document`";
        tpl "          if (path of active document) is missing value then error `Document not saved`";
        tpl "          set docPath to (path of active document as text) & (name of active document)";
        tpl "          try";
        tpl "            set docAlias to file docPath";
        tpl "            return POSIX path of docAlias";
        tpl "          on error";
        tpl "            return docPath";
        tpl "          end try";
        tpl "        end tell";
        tpl "      " ]
  | MicrosoftExcel =>
      unlines
      [ tpl "";
        tpl "        if application `Microsoft Excel` is not running then";
        tpl "            error `Microsoft Excel is not running`";
        tpl "        end if";
        tpl "";
        tpl "        tell application `Microsoft Excel`";
        tpl "          if not (exists active workbook) then error `No active workbook`";
        tpl "          if (path of active workbook) is `` then error `Workbook not saved`";
        tpl "          set docPath to (path of active workbook) & (name of active workbook)";
        tpl "          try";
        tpl "            set docAlias to file docPath";
        tpl "            return POSIX path of docAlias";
        tpl "          on error";
        tpl "            return docPath";
        tpl "          end try";
        tpl "        end tell";
        tpl "      " ]
  | MicrosoftPowerPoint =>
      unlines
      [ tpl "";
        tpl "        if application `Microsoft PowerPoint` is not running then";
        tpl "            error `Microsoft PowerPoint is not running`";
        tpl "        end if";
        tpl "";
        tpl "        tell application `Microsoft PowerPoint`";
        tpl "          if not (exists active presentation) then error `No active presentation`";
        tpl "          if (path of active presentation) is `` then error `Presentation not saved`";
        tpl "          set docPath to (path of active presentation) & (name of active presentation)";
        tpl "          try";
        tpl "            set docAlias to file docPath";
        tpl "            return POSIX path of docAlias";
        tpl "          on error";
        tpl "            return docPath";
        tpl "          end try";
        tpl "        end tell";
        tpl "      " ]
  | Preview =>
      unlines
      [ tpl "";
        tpl "        if application `Preview` is not running then";
        tpl "            error `Preview is not running`";
        tpl "        end if";
        tpl "";
        tpl "        tell application `Preview`";
        tpl "          if (count of documents) is 0 then error `No document open`";
        tpl "          set docPath to path of front document";
        tpl "          return POSIX path of docPath";
        tpl "        end tell";
        tpl "      " ]
  | Skim =>
      unlines
      [ tpl "";
        tpl "        if application `Skim` is not running then";
        tpl "            error `Skim is not running`";
        tpl "        end if";
        tpl "";
        tpl "        tell application `Skim`";
        tpl "          if (count of windows) is 0 then error `No document open`";
        tpl "          set activeDoc to document of window 1";
        tpl "          if activeDoc is missing value then error `No document open`";
        tpl "          set docPath to file of activeDoc";
        tpl "          return POSIX path of docPath";
        tpl "        end tell";
        tpl "      " ]
  | PDFExpert =>
      unlines
      [ tpl "";
        tpl "        if application `PDF Expert` is not running then";
        tpl "            error `PDF Expert is not running`";
        tpl "        end if";
        tpl "";
        tpl "        tell application `PDF Expert`";
        tpl "          if (count of windows) = 0 then error `No document open`";
        tpl "          tell window 1";
        tpl "            set activeDoc to active document";
        tpl "            if activeDoc is missing value then error `No document open`";
        tpl "            set docPath to path of activeDoc";
        tpl "            return POSIX path of docPath";
        tpl "          end tell";
        tpl "        end tell";
        tpl "      " ]
  | AdobeAcrobat | AdobeAcrobatReaderDC =>
      unlines
      [ tpl "";
        tpl "        if application `" ++ documentAppName app ++ tpl "` is not running then";
        tpl "            error `" ++ documentAppName app ++ tpl " is not running`";
        tpl "        end if";
        tpl "";
        tpl "        tell application `" ++ documentAppName app ++ tpl "`";
        tpl "          if not (exists active doc) then error `No document open`";
        tpl "          set docPath to file alias of active doc";
        tpl "          return POSIX path of docPath";
        tpl "        end tell";
        tpl "      " ]
  end.

Section Resolution.
Context `{HostParser}.

Definition normalizeFileManagerResult (result : jsstring) : Completion jsstring :=
  let trimmed := trim result in
  if negb (truthy trimmed) || streq trimmed (lit "missing value") then Normal []
  else if startsWith trimmed (lit "file://") then
    tryCatch
      (parsed ← newURL trimmed; decodeURIComponent (pathname parsed))
      (fun _ => Normal trimmed)
  else Normal trimmed.

Definition isProbablyUrlPath (value : jsstring) : bool :=
  let lower := toLowerCase value in
  startsWith lower (lit "http://") || startsWith lower (lit "https://")
  || includes lower (lit "http:") || includes lower (lit "https:").

Definition getOneDriveRoots (w : World) : Completion (list jsstring) :=
  let cloudStoragePath := join [homedir w; lit "Library"; lit "CloudStorage"] in
  tryCatch
    (entries ← readdir (fs w) cloudStoragePath;
     mret (map (fun entry => join [cloudStoragePath; direntName entry])
             (List.filter
                (fun entry => direntIsDirectory entry
                              && startsWith (direntName entry) (lit "OneDrive"))
                entries)))
    (fun _ => Normal []).

(** The decoding loop of [decodeSegment]: [passes] more rounds. *)
Fixpoint decodeRounds (passes : nat) (decoded : jsstring) : jsstring :=
  match passes with
  | O => decoded
  | S passes' =>
      match decodeURIComponent decoded with
      | Normal next => if streq next decoded then decoded else decodeRounds passes' next
      | Throw _ => decoded
      end
  end.

Definition decodeSegment (value : jsstring) : jsstring :=
  decodeRounds 2 (replacePlus value).

(** [array.findIndex(p)], [None] for -1. *)
Fixpoint findIndex {A} (p : A -> bool) (l : list A) : option nat :=
  match l with
  | [] => None
  | x :: r => if p x then Some O else S <$> findIndex p r
  end.

(** [s.match(re)?.index] for a regular expression without flags: the
    leftmost position at which the pattern matches. *)
Fixpoint matchIndex (matchesAt : jsstring -> bool) (s : jsstring) : option nat :=
  if matchesAt s then Some O
  else match s with
       | [] => None
       | _ :: r => S <$> matchIndex matchesAt r
       end.

(** [/\d{4}\.\d{2}\.\d{2}/] at the start of [s] *)
Definition dateAtStart (s : jsstring) : bool :=
  match s with
  | y1 :: y2 :: y3 :: y4 :: p1 :: m1 :: m2 :: p2 :: d1 :: d2 :: _ =>
      isDigit y1 && isDigit y2 && isDigit y3 && isDigit y4 && (p1 =? 46)
      && isDigit m1 && isDigit m2 && (p2 =? 46) && isDigit d1 && isDigit d2
  | _ => false
  end.

(** [/\d/] at the start of [s] *)
Definition digitAtStart (s : jsstring) : bool :=
  match s with
  | c :: _ => isDigit c
  | [] => false
  end.

(** The body shared by the two splitting branches: the variant to push, if
    both parts are non-empty. *)
Definition splitVariantAt (relativeSegments : list jsstring) (lastSegment : jsstring)
  (index : nat) : list (list jsstring) :=
  let folderPart := trim (take index lastSegment) in
  let filePart := trim (drop index lastSegment) in
  if truthy folderPart && truthy filePart
  then [removelast relativeSegments ++ [folderPart; filePart]]
  else [].

(** Lines 159-180 of [mapSharePointUrlToLocalPath]: the variants pushed
    onto [relativeVariants], in order. *)
Definition relativeVariantsOf (relativeSegments : list jsstring) : list (list jsstring) :=
  (* [undefined] (no segment at all) and the empty string are both falsy,
     and [lastSegment] is only used behind a truthiness test *)
  let lastSegment := default [] (last relativeSegments) in
  let dateMatch :=
    if truthy lastSegment then matchIndex dateAtStart lastSegment else None in
  [relativeSegments]
  ++ (match dateMatch with
      | Some index =>
          if truthy lastSegment && negb (index =? 0)%nat && (0 <? index)%nat
          then splitVariantAt relativeSegments lastSegment index
          else []
      | None => []
      end)
  ++ (if truthy lastSegment && bool_decide (dateMatch = None) then
        match matchIndex digitAtStart lastSegment with
        | Some index =>
            if negb (index =? 0)%nat && (0 <? index)%nat
            then splitVariantAt relativeSegments lastSegment index
            else []
        | None => []
        end
      else []).

(** The innermost loop (lines 186-193): the first candidate that [stat]
    reports as a regular file; a failing [stat] is ignored. *)
Fixpoint tryCandidates (w : World) (candidates : list jsstring)
  : Completion (option jsstring) :=
  match candidates with
  | [] => Normal None
  | candidate :: rest =>
      found ← tryCatch
        (stats ← stat (fs w) candidate;
         mret (if isFile stats then Some candidate else None))
        (fun _ => Normal None);
      match found with
      | Some hit => Normal (Some hit)
      | None => tryCandidates w rest
      end
  end.

(** The loop over the variants of one root (lines 184-194). *)
Fixpoint tryVariants (w : World) (root : jsstring) (variants : list (list jsstring))
  : Completion (option jsstring) :=
  match variants with
  | [] => Normal None
  | variant :: rest =>
      found ← tryCandidates w
        [join (root :: lit "Documents" :: variant); join (root :: variant)];
      match found with
      | Some hit => Normal (Some hit)
      | None => tryVariants w root rest
      end
  end.

(** The loop over the roots (lines 183-195). *)
Fixpoint tryRoots (w : World) (roots : list jsstring) (variants : list (list jsstring))
  : Completion (option jsstring) :=
  match roots with
  | [] => Normal None
  | root :: rest =>
      found ← tryVariants w root variants;
      match found with
      | Some hit => Normal (Some hit)
      | None => tryRoots w rest variants
      end
  end.

(** [null] is [None]. *)
Definition mapSharePointUrlToLocalPath (w : World) (urlValue : jsstring)
  : Completion (option jsstring) :=
  match newURL urlValue with
  | Throw _ => Normal None
  | Normal parsed =>
      if negb (includes (hostname parsed) (lit "sharepoint.com")) then Normal None
      else
        let segments :=
          map decodeSegment (List.filter truthy (split 47 (pathname parsed))) in
        match findIndex (fun segment => streq (toLowerCase segment) (lit "documents"))
                segments with
        | None => Normal None
        | Some docsIndex =>
            let relativeSegments := drop (docsIndex + 1) segments in
            let relativeSegments :=
              match relativeSegments with
              | first :: others =>
                  if streq (toLowerCase first) (lit "documents")
                  then others else relativeSegments
              | [] => relativeSegments
              end in
            let relativeVariants := relativeVariantsOf relativeSegments in
            roots ← getOneDriveRoots w;
            tryRoots w roots relativeVariants
        end
  end.

Definition getDocumentAppPath (w : World) (app : DocumentApp) : Action jsstring :=
  let script := buildDocumentPathScript app in
  result ← runAppleScript w script;
  normalized ← liftAction (normalizeFileManagerResult result);
  if negb (truthy normalized)
  then liftAction (Throw (Error (documentAppName app ++ lit " returned an empty path")))
  else mret normalized.

Record Resolved := { documentPath : jsstring; resolvedPath : jsstring }.

Definition resolveDocumentAppPathForOpen (w : World) (app : DocumentApp)
  : Action Resolved :=
  documentPath ← getDocumentAppPath w app;
  if isProbablyUrlPath documentPath then
    mappedPath ← liftAction (mapSharePointUrlToLocalPath w documentPath);
    mret {| documentPath := documentPath; resolvedPath := default [] mappedPath |}
  else
    mret {| documentPath := documentPath; resolvedPath := documentPath |}.

Definition resolveOpenPath (w : World) (pathValue : jsstring) : Completion jsstring :=
  if negb (truthy pathValue) then Normal []
  else
    early ← tryCatch
      (stats ← stat (fs w) pathValue;
       mret (if isFile stats then Some (dirname pathValue) else None))
      (fun _ => Normal None);
    match early with
    | Some directory => Normal directory
    | None => Normal pathValue
    end.

Definition getFileManagerPath (w : World) (fileManager : FileManager) : Action jsstring :=
  let script := buildFileManagerPathScript fileManager in
  result ← runAppleScript w script;
  normalized ← liftAction (normalizeFileManagerResult result);
  if negb (truthy normalized)
  then liftAction (Throw (Error (fileManagerName fileManager
                                   ++ lit " returned an empty path")))
  else mret normalized.

End Resolution.

End Detectors.
Export Detectors.

(** ** The Raycast API the actors call

    The API is an oracle, like the file system; the calls a user can
    observe (a location opened in an application, a toast) are recorded
    in the order they are made. *)
Module Raycast.

(** An installed application, as [getApplications] lists it; the code
    reads the name only. *)
Record Application := { name : jsstring }.

Inductive ToastStyle := Success | Failure | Animated.

Inductive Call :=
| Open (target application : jsstring)
| ShowToast (style : ToastStyle) (title : jsstring) (message : option jsstring)
| ShowFailureToast (error : Exception).

(** A rejected promise is a [Throw]; [Clipboard.readText] resolves to
    [undefined], here [None], when the clipboard holds no text. *)
Record Api := {
  getApplications : Completion (list Application);
  readText : Completion (option jsstring);
  open : jsstring -> jsstring -> Completion unit;
  showToast : ToastStyle -> jsstring -> option jsstring -> Completion unit;
  showFailureToast : Exception -> Completion unit;
}.

(** The state a command runs in: [process.env] and the calls made so far. *)
Record Session := { processEnv : Env; calls : list Call }.

Definition Command (A : Type) : Type := Session -> Completion A * Session.

#[global] Instance Command_ret : MRet Command := fun A v session => (Normal v, session).

#[global] Instance Command_bind : MBind Command :=
  fun A B (k : A -> Command B) (m : Command A) session =>
    match m session with
    | (Normal v, session') => k v session'
    | (Throw e, session') => (Throw e, session')
    end.

(** [try { body } catch (err) { handler }] *)
Definition tryCatchCommand {A} (body : Command A) (handler : Exception -> Command A)
  : Command A :=
  fun session =>
    match body session with
    | (Normal v, session') => (Normal v, session')
    | (Throw e, session') => handler e session'
    end.

(** Code that touches neither the environment nor the API. *)
Definition liftCompletion {A} (m : Completion A) : Command A :=
  fun session => (m, session).

(** Code that reads and writes [process.env] only. *)
Definition liftEnv {A} (m : Action A) : Command A :=
  fun session =>
    let '(outcome, env) := m (processEnv session) in
    (outcome, {| processEnv := env; calls := calls session |}).

(** An observable call and its outcome. *)
Definition perform {A} (call : Call) (outcome : Completion A) : Command A :=
  fun session =>
    (outcome, {| processEnv := processEnv session; calls := calls session ++ [call] |}).

End Raycast.
Export Raycast.

(** ** [src/actors.ts] *)
Module Actors.

(** An [AppTarget] is the name of the application, a string. *)
Definition resolveApplicationName (applications : list Application) (name : jsstring)
  : option jsstring :=
  if streq name (lit "iTerm") then
    Raycast.name <$>
      List.find (fun app => streq (Raycast.name app) (lit "iTerm2")
                            || streq (Raycast.name app) (lit "iTerm"))
        applications
  else
    Raycast.name <$> List.find (fun app => streq (Raycast.name app) name) applications.

Definition checkApplication (api : Api) (name : jsstring) : Completion jsstring :=
  applications ← getApplications api;
  match resolveApplicationName applications name with
  | Some appName =>
      if negb (truthy appName) then Throw (Error (name ++ lit " not found"))
      else Normal appName
  | None => Throw (Error (name ++ lit " not found"))
  end.

Definition clipboardToApplication (api : Api) (name : jsstring) : Command unit :=
  tryCatchCommand
    (text ← liftCompletion (readText api);
     let directory :=
       match text with
       | Some value => if truthy value then value else []
       | None => []
       end in
     appName ← liftCompletion (checkApplication api name);
     _ ← perform (Open directory appName) (open api directory appName);
     perform (ShowToast Success (lit "Done") None)
       (showToast api Success (lit "Done") None))
    (fun err => perform (ShowFailureToast err) (showFailureToast api err)).


(** The [script] constant of [applicationToFileManager]. *)
Definition applicationToFileManagerScript (name : Terminal) (fileManager : FileManager)
  : jsstring :=
  unlines
  [ tpl "";
    tpl "    if application `" ++ terminalName name ++ tpl "` is not running then";
    tpl "      error `" ++ terminalName name ++ tpl " is not running`";
    tpl "    end if";
    tpl "";
    tpl "    tell application `" ++ fileManagerName fileManager ++ tpl "` to activate";
    tpl "    tell application `" ++ terminalName name ++ tpl "` to activate";
    tpl "    tell application `System Events`";
    tpl "      keystroke `open -a '" ++ fileManagerName fileManager ++ tpl "' ./`";
    tpl "      key code 76";
    tpl "    end tell";
    tpl "  " ].

Definition applicationToFileManager (w : World) (api : Api)
  (name : Terminal) (fileManager : FileManager) : Command unit :=
  let script := applicationToFileManagerScript name fileManager in
  tryCatchCommand
    (result ← liftEnv (runAppleScript w script);
     perform (ShowToast Success (lit "Done") (Some result))
       (showToast api Success (lit "Done") (Some result)))
    (fun err => perform (ShowFailureToast err) (showFailureToast api err)).

Section Opening.
Context `{Url.HostParser}.

Definition fileManagerToApplication (w : World) (api : Api)
  (fileManager : FileManager) (name : jsstring) : Command unit :=
  tryCatchCommand
    (located ← liftEnv (getFileManagerPath w fileManager);
     directory ← liftCompletion (resolveOpenPath w located);
     appName ← liftCompletion (checkApplication api name);
     _ ← perform (Open (trim directory) appName) (open api (trim directory) appName);
     perform (ShowToast Success (lit "Done") None)
       (showToast api Success (lit "Done") None))
    (fun err => perform (ShowFailureToast err) (showFailureToast api err)).

Definition cloudOnlyMessage : jsstring :=
  lit "Document is cloud-only or cannot be mapped. Save locally or sync in OneDrive to open in Finder or a terminal.".

Definition documentAppToApplication (w : World) (api : Api)
  (app : DocumentApp) (name : jsstring) : Command unit :=
  tryCatchCommand
    (resolved ← liftEnv (resolveDocumentAppPathForOpen w app);
     if negb (truthy (resolvedPath resolved)) then
       liftCompletion (Throw (Error cloudOnlyMessage))
     else
       directory ← liftCompletion (resolveOpenPath w (resolvedPath resolved));
       appName ← liftCompletion (checkApplication api name);
       _ ← perform (Open (trim directory) appName) (open api (trim directory) appName);
       perform (ShowToast Success (lit "Done") None)
         (showToast api Success (lit "Done") None))
    (fun err => perform (ShowFailureToast err) (showFailureToast api err)).

Definition finderToApplication (w : World) (api : Api) (name : Terminal) : Command unit :=
  fileManagerToApplication w api Finder (terminalName name).

End Opening.

Definition applicationToFinder (w : World) (api : Api) (name : Terminal) : Command unit :=
  applicationToFileManager w api name Finder.

End Actors.
Export Actors.

(** ** [src/activeToTarget.tsx]: the sources, the destinations offered for
    a source and the actor an action runs

    A [Source] and an [AppTarget] are strings at run time, and the code
    compares them as such. *)
Module ActiveToTarget.

Record Preferences := {
  showFinder : bool;
  showQSpacePro : bool;
  showBloom : bool;
  showTerminal : bool;
  showITerm : bool;
  showKitty : bool;
  showWarp : bool;
  showWezTerm : bool;
  showGhostty : bool;
  showPreview : bool;
  showSkim : bool;
  showPDFExpert : bool;
  showAcrobat : bool;
  showAcrobatReader : bool;
}.

Definition fileManagers : list jsstring := map fileManagerName FILE_MANAGERS.
Definition terminals : list jsstring := map terminalName TERMINALS.
Definition documentTargets : list jsstring := map documentTargetName DOCUMENT_TARGETS.

Definition sources : list jsstring :=
  lit "Clipboard" :: fileManagers ++ terminals ++ map documentAppName DOCUMENT_APPS.

(** [bundleId] is optional: [None] when it is not given. *)
Definition normalizeFrontmostName (name : jsstring) (bundleId : option jsstring)
  : option jsstring :=
  if bool_decide (bundleId = Some (lit "com.adobe.Acrobat.Pro")) then
    Some (lit "Adobe Acrobat")
  else if bool_decide (bundleId = Some (lit "net.sourceforge.skim-app.skim")) then
    Some (lit "Skim")
  else if streq name (lit "iTerm2") then Some (lit "iTerm")
  else if streq name (lit "Code") then Some (lit "Visual Studio Code")
  else if streq name (lit "Code - Insiders") then
    Some (lit "Visual Studio Code - Insiders")
  else if streq name (lit "Adobe Acrobat Pro") then Some (lit "Adobe Acrobat")
  else if arrayIncludes sources name then Some name
  else None.

Definition displayName (value : jsstring) : jsstring :=
  if streq value (lit "iTerm") then lit "iTerm2"
  else if streq value (lit "Visual Studio Code") then lit "VS Code"
  else if streq value (lit "Visual Studio Code - Insiders") then lit "VS Code - Insiders"
  else if streq value (lit "Adobe Acrobat Reader DC") then lit "Adobe Acrobat Reader"
  else value.

(** The array [enabled], in the order of the pushes. *)
Definition defaultEnabledList (preferences : Preferences) : list jsstring :=
  (if showFinder preferences then [lit "Finder"] else [])
  ++ (if showQSpacePro preferences then [lit "QSpace Pro"] else [])
  ++ (if showBloom preferences then [lit "Bloom"] else [])
  ++ (if showTerminal preferences then [lit "Terminal"] else [])
  ++ (if showITerm preferences then [lit "iTerm"] else [])
  ++ (if showKitty preferences then [lit "kitty"] else [])
  ++ (if showWarp preferences then [lit "Warp"] else [])
  ++ (if showWezTerm preferences then [lit "WezTerm"] else [])
  ++ (if showGhostty preferences then [lit "Ghostty"] else [])
  ++ (if showPreview preferences then [lit "Preview"] else [])
  ++ (if showSkim preferences then [lit "Skim"] else [])
  ++ (if showPDFExpert preferences then [lit "PDF Expert"] else [])
  ++ (if showAcrobat preferences then [lit "Adobe Acrobat"] else [])
  ++ (if showAcrobatReader preferences then [lit "Adobe Acrobat Reader DC"] else []).

Definition buildDefaultEnabledTargets (preferences : Preferences) : gset jsstring :=
  list_to_set (defaultEnabledList preferences).

Definition isTargetEnabled (target : jsstring) (preferences : Preferences) : bool :=
  if streq target (lit "Finder") then showFinder preferences
  else if streq target (lit "QSpace Pro") then showQSpacePro preferences
  else if streq target (lit "Bloom") then showBloom preferences
  else if streq target (lit "Terminal") then showTerminal preferences
  else if streq target (lit "iTerm") then showITerm preferences
  else if streq target (lit "kitty") then showKitty preferences
  else if streq target (lit "Warp") then showWarp preferences
  else if streq target (lit "WezTerm") then showWezTerm preferences
  else if streq target (lit "Ghostty") then showGhostty preferences
  else if streq target (lit "Preview") then showPreview preferences
  else if streq target (lit "Skim") then showSkim preferences
  else if streq target (lit "PDF Expert") then showPDFExpert preferences
  else if streq target (lit "Adobe Acrobat") then showAcrobat preferences
  else if streq target (lit "Adobe Acrobat Reader DC") then showAcrobatReader preferences
  else true.

(** The [targets] memo of [TargetList]: the destinations listed for a
    source. [enabledTargets] is [None] while the stored selection has not
    been loaded. *)
Definition targets (source : jsstring) (preferences : Preferences)
  (enabledTargets : option (gset jsstring)) : list jsstring :=
  let targetList :=
    if streq source (lit "Clipboard") || isDocumentApp source then
      fileManagers ++ terminals ++ documentTargets
    else if isFileManager source then
      List.filter (fun manager => negb (streq manager source)) fileManagers ++ terminals
    else fileManagers in
  let targetList :=
    if isDocumentApp source
    then List.filter (fun target => negb (streq target source)) targetList
    else targetList in
  let allowed :=
    List.filter (fun target => isTargetEnabled target preferences) targetList in
  match enabledTargets with
  | None => allowed
  | Some enabled => List.filter (fun target => bool_decide (target ∈ enabled)) allowed
  end.



(** [visibleSources] of [SourceList]. *)
Definition visibleSources (hiddenSources : gset jsstring) : list jsstring :=
  List.filter (fun value => negb (bool_decide (value ∈ hiddenSources))) sources.

(** The titles of the rows of [TargetList] (lines 255 to 356), from top to
    bottom: the row of the source path and the row of the mapped path,
    each when its state is not [null], then one row for each destination.
    [List.EmptyView] is no row. *)
Definition targetListTitles (debugPath debugResolvedPath : option jsstring)
  (targets : list jsstring) : list jsstring :=
  (match debugPath with
   | Some _ => [lit "Source Path"]
   | None => []
   end)
  ++ (match debugResolvedPath with
      | Some _ => [lit "Mapped Local Path"]
      | None => []
      end)
  ++ map displayName targets.

(** The titles of the rows of [SourceList] (lines 400 to 443): the row of
    the active application, when there is one, whether it is hidden or
    not, then one row for each visible source. [activeSource] is [None]
    for [null]. *)
Definition sourceListTitles (activeSource : option jsstring)
  (hiddenSources : gset jsstring) : list jsstring :=
  (match activeSource with
   | Some active =>
       if truthy active
       then [lit "Active App (" ++ displayName active ++ lit ")"]
       else []
   | None => []
   end)
  ++ map displayName (visibleSources hiddenSources).

End ActiveToTarget.
Export ActiveToTarget.

(** ** Sample instances, for running the code on concrete inputs *)
Module Sample.
Import Url.

(** A stand-in for the host parser on the hosts of the examples: a
    non-empty text of lower-case letters and dots is its own serialization
    (the standard agrees on these); anything else is refused here. The
    properties below are proved for every host parser. *)
Definition plainHostParser : HostParser :=
  fun _ text =>
    if truthy text && forallb (fun c => ((97 <=? c) && (c <=? 122)) || (c =? 46)) text
    then Some text else None.

Definition enoent {A} : Completion A := Throw (SystemError (lit "ENOENT")).

(** A home directory with one synced OneDrive folder holding
    [Reports/Q1.docx]. *)
Definition syncedFS : FileSystem := {|
  stat := fun p =>
    if streq p (lit "/Users/me/Library/CloudStorage/OneDrive-Contoso/Reports/Q1.docx")
    then Normal {| isFile := true; isDirectory := false |}
    else if streq p (lit "/Users/me/Library/CloudStorage/OneDrive-Contoso/Reports")
    then Normal {| isFile := false; isDirectory := true |}
    else enoent;
  readdir := fun p =>
    if streq p (lit "/Users/me/Library/CloudStorage")
    then Normal [ {| direntName := lit "Dropbox"; direntIsDirectory := true |};
                  {| direntName := lit "OneDrive-Contoso"; direntIsDirectory := true |};
                  {| direntName := lit "OneDrive.log"; direntIsDirectory := false |} ]
    else enoent;
|}.

(** The same home directory with the synced folder still empty. *)
Definition emptySyncFS : FileSystem := {|
  stat := fun _ => enoent;
  readdir := readdir syncedFS;
|}.

(** No cloud-storage container at all. *)
Definition bareFS : FileSystem := {|
  stat := fun _ => enoent;
  readdir := fun _ => enoent;
|}.

(** A macOS machine on which every script prints [output]. *)
Definition mac (files : FileSystem) (output : jsstring) : World := {|
  platform := lit "darwin";
  homedir := lit "/Users/me";
  fs := files;
  spawnSync := fun _ _ _ => Normal {| stdout := Some output; stderr := Some [] |};
|}.

Definition cloudUrl : jsstring :=
  lit "https://contoso.sharepoint.com/sites/Team/Documents/Reports/Q1.docx".

(** The synced home directory on a machine that keeps [/etc/hosts]. *)
Definition hostsFS : FileSystem := {|
  stat := fun p =>
    if streq p (lit "/etc/hosts") then Normal {| isFile := true; isDirectory := false |}
    else enoent;
  readdir := readdir syncedFS;
|}.

(** A cloud URL whose path climbs with doubly encoded [..] segments. *)
Definition climbingUrl : jsstring :=
  lit "https://contoso.sharepoint.com/Documents/%252e%252e/%252e%252e/%252e%252e/%252e%252e/%252e%252e/%252e%252e/etc/hosts".

(** A Raycast session on a machine with the given applications installed
    and the given text on the clipboard; every call succeeds. *)
Definition raycast (installed : list jsstring) (clipboard : option jsstring) : Api := {|
  getApplications := Normal (map (fun n => {| Raycast.name := n |}) installed);
  readText := Normal clipboard;
  open := fun _ _ => Normal tt;
  showToast := fun _ _ _ => Normal tt;
  showFailureToast := fun _ => Normal tt;
|}.

Definition fresh : Session := {| processEnv := ∅; calls := [] |}.

End Sample.

(** ** Vocabulary for stating the properties *)
Module Vocabulary.

Definition isDigitCode (c : N) : Prop := 48 <= c <= 57.

(** Four digits, a dot, two digits, a dot, two digits, from position [i]
    of [s] on. *)
Definition datePatternAt (s : jsstring) (i : nat) : Prop :=
  exists before y1 y2 y3 y4 m1 m2 d1 d2 after,
    s = before ++ [y1; y2; y3; y4; 46; m1; m2; 46; d1; d2] ++ after
    /\ length before = i
    /\ Forall isDigitCode [y1; y2; y3; y4; m1; m2; d1; d2].

(** A digit at position [i] of [s]. *)
Definition digitAt (s : jsstring) (i : nat) : Prop :=
  exists c, s !! i = Some c /\ isDigitCode c.

(** Position [i] is where the final segment is cut: the leftmost date
    pattern, or, in a segment without any date pattern, the leftmost
    digit. *)
Definition cutPosition (s : jsstring) (i : nat) : Prop :=
  (datePatternAt s i /\ forall j, (j < i)%nat -> ~ datePatternAt s j)
  \/ ((forall j, ~ datePatternAt s j)
      /\ digitAt s i /\ forall j, (j < i)%nat -> ~ digitAt s j).

(** The position the mapper cuts the final segment at, if any. *)
Definition cutIndex (s : jsstring) : option nat :=
  match matchIndex dateAtStart s with
  | Some i => Some i
  | None => matchIndex digitAtStart s
  end.

Definition isDocuments (segment : jsstring) : bool :=
  streq (toLowerCase segment) (lit "documents").

(** The decoded, non-empty segments of the path of a URL. *)
Definition decodedSegments (parsed : Url.URL) : list jsstring :=
  map decodeSegment (List.filter truthy (JS.split 47 (Url.pathname parsed))).

(** What follows the first [documents] segment, without a second
    [documents] right after it; nothing when there is no such segment. *)
Definition relativeSegmentsOf (segments : list jsstring) : option (list jsstring) :=
  match findIndex isDocuments segments with
  | None => None
  | Some docsIndex =>
      match drop (docsIndex + 1) segments with
      | first :: others =>
          Some (if isDocuments first then others else first :: others)
      | [] => Some []
      end
  end.

(** The candidate paths in the order the mapper tries them: roots
    outermost, then variants, then the two shapes. *)
Definition candidatesOf (roots : list jsstring) (variants : list (list jsstring))
  : list jsstring :=
  flat_map (fun root =>
    flat_map (fun variant =>
      [Path.join (root :: lit "Documents" :: variant); Path.join (root :: variant)])
      variants)
    roots.

(** A candidate counts when [stat] succeeds and reports a regular file. *)
Definition isRegularFile (w : World) (p : jsstring) : bool :=
  match stat (fs w) p with
  | Normal stats => isFile stats
  | Throw _ => false
  end.

(** The sync roots: the directories of the container whose name starts
    with [OneDrive], none when the container cannot be listed. *)
Definition syncRoots (w : World) : list jsstring :=
  let container := Path.join [homedir w; lit "Library"; lit "CloudStorage"] in
  match readdir (fs w) container with
  | Normal entries =>
      map (fun entry => Path.join [container; direntName entry])
        (List.filter (fun entry => direntIsDirectory entry
                                   && startsWith (direntName entry) (lit "OneDrive"))
           entries)
  | Throw _ => []
  end.


(** [s] without its trailing C0 controls and spaces. *)
Definition stripEnd (s : list N) : list N :=
  rev (dropWhile Url.isC0ControlOrSpace (rev s)).

(** A host text the preprocessing of the URL parser and [trim] leave
    alone: above the space, below the surrogates, no whitespace, and none
    of the characters that end the host of a [file://] URL. *)
Definition plainHostText (text : list N) : Prop :=
  forallb (fun c => (32 <? c) && (c <? 55296) && negb (Url.isFileHostEnd c)
                    && negb (isWhiteSpace c)) text = true.

(** What remains of [rest] after the preprocessing of the URL parser,
    when it follows a character that is kept. *)
Definition keptRest (rest : jsstring) : list N :=
  Url.removeTabNewline (stripEnd (Url.scalarValues rest)).

(** A segment that [path.join] leaves alone: not empty, neither [.] nor
    [..], without a slash. *)
Definition plainSegment (s : jsstring) : Prop :=
  s <> [] /\ s <> lit "." /\ s <> lit ".."
  /\ forallb (fun c => negb (c =? 47)) s = true.

(** A code unit that is a character of its own: no surrogate. *)
Definition isScalarUnit (c : N) : bool :=
  (c <? 55296) || ((57344 <=? c) && (c <? 65536)).

(** The percent-encoding the path state of the URL parser applies. *)
Definition pathEncode (s : jsstring) : jsstring :=
  flat_map (Url.encodeWith Url.inPathSet) s.

(** The tokens [decodeURIComponent] reads the encoding of a character as. *)
Definition tokensOf (c : N) : list UriToken :=
  if Url.inPathSet c then map Octet (Url.utf8 c) else [Unit c].

(** A character that the URL parser leaves in a path, encoded or not:
    no surrogate, no control character, and none of [%], [#], [?] and
    the backslash. *)
Definition isPathText (c : N) : bool :=
  isScalarUnit c && (32 <=? c)
  && negb ((c =? 37) || (c =? 35) || (c =? 63) || (c =? 92)).

(** A segment of such characters, without a slash, other than [.] and
    [..]; it may be empty. *)
Definition textSegment (seg : jsstring) : Prop :=
  forallb (fun c => isPathText c && negb (c =? 47)) seg = true
  /\ seg <> lit "." /\ seg <> lit "..".

(** The absolute path with these segments. *)
Definition pathOf (segments : list jsstring) : jsstring :=
  flat_map (fun seg => 47 :: seg) segments.

(** A host text without credentials and without a port, made of
    characters the URL parser keeps in place. *)
Definition plainAuthority (text : jsstring) : Prop :=
  text <> []
  /\ forallb (fun c => isPathText c && negb ((c =? 47) || (c =? 64) || (c =? 58))) text
     = true.

(** A segment without a slash. *)
Definition noSlash (seg : jsstring) : Prop :=
  forallb (fun c => negb (c =? 47)) seg = true.

(** All destinations, in the order in which they are listed. *)
Definition allTargets : list jsstring := fileManagers ++ terminals ++ documentTargets.



(** Modelled from the spec: [buildScript(identity)], the one registry that
    the spec describes, looked up by the name of the identity. The code
    has two builders, one [switch] each; this is the script of the builder
    whose [switch] has a [case] for the name, and [None] when neither has
    one. *)
Definition specBuildScript (identity : jsstring) : option jsstring :=
  match List.find (fun manager => streq (fileManagerName manager) identity)
          FILE_MANAGERS with
  | Some manager => Some (buildFileManagerPathScript manager)
  | None =>
      match List.find (fun app => streq (documentAppName app) identity)
              DOCUMENT_APPS with
      | Some app => Some (buildDocumentPathScript app)
      | None => None
      end
  end.

(** No string occurs twice. *)
Fixpoint distinct (l : list jsstring) : bool :=
  match l with
  | [] => true
  | x :: r => negb (arrayIncludes r x) && distinct r
  end.

(** The calls made by a command, given the sessions before and after. *)
Definition newCalls (before after : Session) : list Call :=
  drop (length (calls before)) (calls after).

Definition isOpen (call : Call) : bool :=
  match call with
  | Open _ _ => true
  | _ => false
  end.

(** A toast that closes a command: success, or the failure toast. *)
Definition isClosingToast (call : Call) : bool :=
  match call with
  | ShowToast Success _ _ => true
  | ShowFailureToast _ => true
  | _ => false
  end.

(** [application] is installed and is what [name] stands for. *)
Definition installedAs (api : Api) (name application : jsstring) : Prop :=
  exists applications,
    getApplications api = Normal applications
    /\ In application (map Raycast.name applications)
    /\ application <> []
    /\ (application = name \/ (name = lit "iTerm" /\ application = lit "iTerm2")).

(** What holds of every run of an actor for the destination [name]
    ([None] for an actor that opens nothing): the calls made so far are
    kept, the last new call is a closing toast, at most one location is
    opened, and only in an installed application that [name] stands for. *)
Definition behaves (api : Api) (name : option jsstring) (before : Session)
  (result : Completion unit * Session) : Prop :=
  exists more,
    calls (snd result) = calls before ++ more
    /\ (exists final, last more = Some final /\ isClosingToast final = true)
    /\ (length (List.filter isOpen more) <= 1)%nat
    /\ (forall target application,
          In (Open target application) more ->
          exists n, name = Some n /\ installedAs api n application)
    /\ ((forall e, showFailureToast api e = Normal tt) -> fst result = Normal tt).

(** The last new call is a closing toast, and the command does not throw
    when the failure toast can be shown. *)
Definition closesWithToast (api : Api) (before : Session)
  (result : Completion unit * Session) : Prop :=
  (exists final,
     last (newCalls before (snd result)) = Some final /\ isClosingToast final = true)
  /\ ((forall e, showFailureToast api e = Normal tt) -> fst result = Normal tt).

(** At most one location is opened, in an installed application that
    [name] stands for. *)
Definition opensOnlyFor (api : Api) (name : jsstring) (before : Session)
  (result : Completion unit * Session) : Prop :=
  (length (List.filter isOpen (newCalls before (snd result))) <= 1)%nat
  /\ forall target application,
       In (Open target application) (newCalls before (snd result)) ->
       installedAs api name application.

(** What is opened for a location: the directory of a regular file, the
    location itself otherwise, trimmed. *)
Definition openTarget (w : World) (located : jsstring) : jsstring :=
  trim (if isRegularFile w located then Path.dirname located else located).

End Vocabulary.

(** * Properties *)

(** ** Facts about the list scans and the string built-ins *)
Module JSFacts.

Lemma streq_true (a b : jsstring) : streq a b = true <-> a = b.
Proof. unfold streq. apply bool_decide_eq_true. Qed.

Lemma streq_false (a b : jsstring) : streq a b = false <-> a <> b.
Proof. unfold streq. apply bool_decide_eq_false. Qed.

Lemma streq_refl (a : jsstring) : streq a a = true.
Proof. now apply streq_true. Qed.

Lemma truthy_false (s : jsstring) : truthy s = false <-> s = [].
Proof. destruct s; simpl; split; congruence. Qed.

Lemma truthy_true (s : jsstring) : truthy s = true <-> s <> [].
Proof. destruct s; simpl; split; congruence. Qed.

Section Scans.
Context {A : Type} (f : A -> bool).

Lemma dropWhile_idem (l : list A) : dropWhile f (dropWhile f l) = dropWhile f l.
Proof.
  induction l as [|x r IH]; simpl; [reflexivity|].
  destruct (f x) eqn:E; [exact IH|].
  simpl. now rewrite E.
Qed.

Lemma dropWhile_stop (x : A) (r : list A) : f x = false -> dropWhile f (x :: r) = x :: r.
Proof. intros E. simpl. now rewrite E. Qed.

Lemma dropWhile_app_stop (a : list A) (x : A) (b : list A) :
  f x = false -> dropWhile f (a ++ x :: b) = dropWhile f a ++ x :: b.
Proof.
  intros E. induction a as [|y a IH]; simpl.
  - now rewrite E.
  - destruct (f y); [exact IH|reflexivity].
Qed.

Lemma dropWhile_head (l : list A) (x : A) (r : list A) :
  dropWhile f l = x :: r -> f x = false.
Proof.
  induction l as [|y l IH]; simpl; [discriminate|].
  destruct (f y) eqn:E; [exact IH|].
  intros [= <- _]. exact E.
Qed.

Lemma dropWhile_split (l : list A) :
  exists a, l = a ++ dropWhile f l /\ forallb f a = true.
Proof.
  induction l as [|x r (a & Hl & Ha)]; simpl.
  - now exists [].
  - destruct (f x) eqn:E.
    + exists (x :: a). simpl. rewrite E, Ha. split; [congruence|reflexivity].
    + now exists [].
Qed.

Lemma span_app (l : list A) : fst (span f l) ++ snd (span f l) = l.
Proof.
  induction l as [|x r IH]; simpl; [reflexivity|].
  destruct (f x); [|reflexivity].
  destruct (span f r) as [a b]. simpl in *. now rewrite IH.
Qed.

Lemma span_snd_head (l : list A) (x : A) (r : list A) :
  snd (span f l) = x :: r -> f x = false.
Proof.
  induction l as [|y l IH]; simpl; [discriminate|].
  destruct (f y) eqn:E.
  - destruct (span f l) as [a b]. exact IH.
  - simpl. intros [= <- _]. exact E.
Qed.

(** Dropping at both ends stops at a character that is kept. *)
Lemma bothEnds_mid (q : list A) (x c : A) (t : list A) :
  f x = false -> f c = false ->
  rev (dropWhile f (rev (dropWhile f (x :: q ++ c :: t))))
  = x :: q ++ c :: rev (dropWhile f (rev t)).
Proof.
  intros Hx Hc. rewrite dropWhile_stop by exact Hx.
  change (x :: q ++ c :: t) with ((x :: q) ++ c :: t).
  rewrite rev_app_distr. cbn [rev]. rewrite <- app_assoc. cbn [app].
  rewrite dropWhile_app_stop by exact Hc.
  rewrite rev_app_distr. cbn [rev]. rewrite rev_app_distr, rev_involutive.
  cbn [rev app]. rewrite <- app_assoc. reflexivity.
Qed.

Lemma bothEnds_fixed (x : A) (q : list A) :
  f x = false ->
  (forall y, last (x :: q) = Some y -> f y = false) ->
  rev (dropWhile f (rev (dropWhile f (x :: q)))) = x :: q.
Proof.
  intros Hx Hl. rewrite dropWhile_stop by exact Hx.
  destruct (rev (x :: q)) as [|y r] eqn:Er.
  { apply (f_equal (@rev A)) in Er. rewrite rev_involutive in Er. discriminate. }
  assert (last (x :: q) = Some y) as Hy.
  { rewrite <- (rev_involutive (x :: q)), Er. cbn [rev]. apply last_snoc. }
  rewrite dropWhile_stop by (now apply Hl).
  rewrite <- Er. apply rev_involutive.
Qed.



Lemma span_all (a : list A) (d : A) (r : list A) :
  forallb f a = true -> f d = false -> span f (a ++ d :: r) = (a, d :: r).
Proof.
  intros Ha Hd. induction a as [|x a IH]; simpl.
  - now rewrite Hd.
  - cbn [forallb] in Ha. apply andb_true_iff in Ha as [-> Ha]. now rewrite IH.
Qed.

Lemma span_all_nil (a : list A) :
  forallb f a = true -> span f a = (a, []).
Proof.
  induction a as [|x a IH]; simpl; [reflexivity|].
  intros [-> Ha]%andb_true_iff. now rewrite IH.
Qed.

End Scans.

(** [trim] strips whitespace and nothing else, at both ends. *)
Lemma trimEnd_cons (x : N) (r : jsstring) :
  isWhiteSpace x = false -> exists r', trimEnd (x :: r) = x :: r'.
Proof.
  intros E. unfold trimEnd. simpl rev.
  rewrite dropWhile_app_stop by exact E.
  rewrite rev_app_distr. simpl. eauto.
Qed.

Lemma trimEnd_idem (s : jsstring) : trimEnd (trimEnd s) = trimEnd s.
Proof. unfold trimEnd. now rewrite rev_involutive, dropWhile_idem. Qed.

Lemma trim_cons (x : N) (r : jsstring) :
  isWhiteSpace x = false -> exists r', trim (x :: r) = x :: r'.
Proof.
  intros E. unfold trim, trimStart. rewrite dropWhile_stop by exact E.
  now apply trimEnd_cons.
Qed.

Lemma trim_head (s : jsstring) (x : N) (r : jsstring) :
  trim s = x :: r -> isWhiteSpace x = false.
Proof.
  unfold trim. destruct (trimStart s) as [|y t] eqn:Et.
  - discriminate.
  - pose proof (dropWhile_head _ _ _ _ Et) as Ey.
    destruct (trimEnd_cons y t Ey) as [r' ->]. now intros [= <- _].
Qed.

Lemma trim_idem (s : jsstring) : trim (trim s) = trim s.
Proof.
  destruct (trim s) as [|x r] eqn:Es; [reflexivity|].
  pose proof (trim_head _ _ _ Es) as Ex.
  unfold trim at 1. unfold trimStart. rewrite dropWhile_stop by exact Ex.
  rewrite <- Es. unfold trim. apply trimEnd_idem.
Qed.

(** What [trim] removes is whitespace, and what it leaves neither starts
    nor ends with whitespace. *)
Lemma trim_decompose (s : jsstring) :
  exists a b, s = a ++ trim s ++ b
    /\ forallb isWhiteSpace a = true /\ forallb isWhiteSpace b = true.
Proof.
  destruct (dropWhile_split isWhiteSpace s) as (a & Hs & Ha).
  destruct (dropWhile_split isWhiteSpace (rev (trimStart s))) as (b & Hb & Hbw).
  exists a, (rev b). unfold trim, trimEnd. fold (trimStart s) in Hs.
  split; [|split].
  - rewrite Hs at 1. f_equal.
    rewrite <- (rev_involutive (trimStart s)) at 1. rewrite Hb at 1.
    rewrite rev_app_distr. reflexivity.
  - exact Ha.
  - rewrite forallb_forall in *. intros c Hc. apply Hbw. now apply in_rev.
Qed.

Lemma trim_last (s : jsstring) (x : N) :
  last (trim s) = Some x -> isWhiteSpace x = false.
Proof.
  unfold trim, trimEnd. intros Hl.
  destruct (dropWhile isWhiteSpace (rev (trimStart s))) as [|y t] eqn:E.
  - discriminate.
  - simpl in Hl. rewrite last_snoc in Hl. injection Hl as <-.
    exact (dropWhile_head _ _ _ _ E).
Qed.

Lemma trim_mid (q : list N) (x c : N) (t : list N) :
  isWhiteSpace x = false -> isWhiteSpace c = false ->
  trim (x :: q ++ c :: t) = x :: q ++ c :: trimEnd t.
Proof. apply bothEnds_mid. Qed.

Lemma trim_fixed (x : N) (q : list N) :
  isWhiteSpace x = false ->
  (forall y, last (x :: q) = Some y -> isWhiteSpace y = false) ->
  trim (x :: q) = x :: q.
Proof. apply bothEnds_fixed. Qed.

Lemma startsWith_spec (s p : jsstring) :
  startsWith s p = true <-> exists r, s = p ++ r.
Proof.
  revert s. induction p as [|a p IH]; intros s; simpl.
  - split; [intros _; now exists s|reflexivity].
  - destruct s as [|b s]; simpl.
    + split; [discriminate|]. now intros [r Hr].
    + rewrite andb_true_iff, N.eqb_eq, IH. split.
      * intros [-> [r ->]]. eauto.
      * intros [r [= -> ->]]. eauto.
Qed.

Lemma includes_spec (s p : jsstring) :
  includes s p = true <-> exists a b, s = a ++ p ++ b.
Proof.
  induction s as [|c s IH]; simpl; rewrite orb_true_iff, startsWith_spec.
  - split.
    + intros [[r Hr]|]; [|discriminate]. exists [], r. exact Hr.
    + intros (a & b & Hab). left.
      destruct a; [|discriminate]. exists b. exact Hab.
  - rewrite IH. split.
    + intros [[r Hr]|(a & b & ->)].
      * exists [], r. exact Hr.
      * now exists (c :: a), b.
    + intros (a & b & Hab). destruct a as [|d a].
      * left. now exists b.
      * right. injection Hab as -> ->. eauto.
Qed.

(** A leading character other than [%] is copied by [decodeURIComponent]. *)
Lemma decodeURIComponent_cons (c : N) (r y : jsstring) :
  c <> 37 -> decodeURIComponent (c :: r) = Normal y -> exists y', y = c :: y'.
Proof.
  intros Hc. unfold decodeURIComponent. simpl uriTokens.
  destruct (N.eqb_spec c 37) as [|_]; [contradiction|].
  destruct (uriTokens r) as [ts|]; [|discriminate].
  simpl. destruct (decodeOctets ts) as [d|]; simpl; [|discriminate].
  intros [= <-]. eauto.
Qed.

End JSFacts.

Import JSFacts.

(** ** Facts about the URL parser *)
Module UrlFacts.
Import Url Vocabulary.

Lemma endSegment_nonempty (file : bool) (p : list jsstring) (buffer : jsstring) :
  endSegment file false p buffer <> [].
Proof.
  unfold endSegment.
  repeat match goal with |- context [if ?b then _ else _] => destruct b end;
    intros E; apply app_eq_nil in E as [_ E]; discriminate.
Qed.

(** The path state always closes a last segment. *)
Lemma pathState_nonempty (special file : bool) (input : list N) :
  forall p buffer, pathState special file p buffer input <> [].
Proof.
  induction input as [|c r IH]; intros p buffer; simpl.
  - apply endSegment_nonempty.
  - destruct (isSlash special c); [apply IH|].
    destruct ((c =? 63) || (c =? 35)); [apply endSegment_nonempty|apply IH].
Qed.

Lemma pathStartState_special_nonempty (file : bool) (input : list N) :
  pathStartState true file input <> [].
Proof.
  unfold pathStartState. destruct input as [|c r].
  - apply pathState_nonempty.
  - destruct (isSlash true c); apply pathState_nonempty.
Qed.


Lemma scalarValues_plain (p r : list N) :
  forallb (fun c => c <? 55296) p = true ->
  scalarValues (p ++ r) = p ++ scalarValues r.
Proof.
  induction p as [|c p IH]; simpl; [reflexivity|].
  rewrite andb_true_iff, N.ltb_lt. intros [Hc Hp].
  unfold isHighSurrogate, isLowSurrogate.
  assert ((55296 <=? c) = false) as -> by (apply N.leb_gt; lia).
  assert ((56320 <=? c) = false) as -> by (apply N.leb_gt; lia).
  simpl. now rewrite IH.
Qed.

Lemma stripC0_mid (q : list N) (x c : N) (t : list N) :
  isC0ControlOrSpace x = false -> isC0ControlOrSpace c = false ->
  stripC0 (x :: q ++ c :: t) = x :: q ++ c :: stripEnd t.
Proof. apply bothEnds_mid. Qed.

Lemma stripC0_fixed (x : N) (q : list N) :
  isC0ControlOrSpace x = false ->
  (forall y, last (x :: q) = Some y -> isC0ControlOrSpace y = false) ->
  stripC0 (x :: q) = x :: q.
Proof. apply bothEnds_fixed. Qed.

(** The preprocessing of the input leaves a leading [file://] in place. *)
Lemma preprocess_file_prefix (r : jsstring) :
  exists t, removeTabNewline (stripC0 (scalarValues (lit "file://" ++ r)))
            = lit "file://" ++ t.
Proof.
  rewrite scalarValues_plain by reflexivity.
  change (lit "file://" ++ scalarValues r)
    with (102 :: lit "ile:/" ++ 47 :: scalarValues r).
  rewrite stripC0_mid by reflexivity.
  exists (removeTabNewline (stripEnd (scalarValues r))). reflexivity.
Qed.

Section WithHostParser.
Context `{HostParser}.

Lemma fileHostState_path (input : list N) (u : URL) :
  fileHostState input = Some u -> exists l, path u = Segments l /\ l <> [].
Proof.
  unfold fileHostState. destruct (span _ input) as [buffer rest].
  destruct (isWindowsDriveLetter buffer).
  { intros [= <-]. eexists. split; [reflexivity|apply pathState_nonempty]. }
  destruct (negb (truthy buffer)).
  { intros [= <-]. eexists. split; [reflexivity|].
    apply pathStartState_special_nonempty. }
  destruct (parseHost false buffer); [|discriminate].
  intros [= <-]. eexists. split; [reflexivity|].
  apply pathStartState_special_nonempty.
Qed.

(** A URL text that starts with [file://] has a path that starts with a
    slash, whatever follows. *)
Lemma pathname_file_slash (input : jsstring) (u : URL) :
  startsWith input (lit "file://") = true ->
  basicParse input = Some u ->
  exists r, pathname u = 47 :: r.
Proof.
  intros [r ->]%startsWith_spec. unfold basicParse.
  destruct (preprocess_file_prefix r) as [t ->].
  change (splitScheme (lit "file://" ++ t)) with (Some (lit "file", 47 :: 47 :: t)).
  change (streq (lit "file") (lit "file")) with true. cbv iota beta.
  change (fileState (47 :: 47 :: t)) with (fileHostState t).
  intros (l & Hl & Hne)%fileHostState_path.
  unfold pathname. rewrite Hl. destruct l as [|seg l]; [contradiction|].
  simpl. eauto.
Qed.

End WithHostParser.

End UrlFacts.

Import UrlFacts.

(** ** What the URL parser does not read *)
Module UrlScanFacts.
Import Url Vocabulary.




Lemma scalarValues_nil (s : jsstring) : scalarValues s = [] -> s = [].
Proof.
  destruct s as [|a s]; [reflexivity|]. cbn [scalarValues].
  destruct (isHighSurrogate a).
  - destruct s as [|d s]; [discriminate|]. destruct (isLowSurrogate d); discriminate.
  - destruct (isLowSurrogate a); discriminate.
Qed.

(** The last scalar value is the last code unit, unless that was part of a
    surrogate pair or a lone surrogate. *)
Lemma scalarValues_last (s : jsstring) (y : N) :
  last (scalarValues s) = Some y -> last s = Some y \/ 65533 <= y.
Proof.
  remember (length s) as n eqn:Hn. revert s Hn.
  induction n as [n IH] using lt_wf_ind. intros s -> Hy.
  assert (forall (x : N) (k : jsstring),
             (length k < length s)%nat ->
             last (x :: scalarValues k) = Some y ->
             (k = [] -> last s = Some x \/ 65533 <= x) ->
             (forall z, last k = Some z -> last s = Some z) ->
             last s = Some y \/ 65533 <= y) as Hstep.
  { intros x k Hk Hl Hnil Hcons. rewrite last_cons in Hl.
    destruct (last (scalarValues k)) as [z|] eqn:Ez.
    - injection Hl as ->.
      destruct (IH (length k) Hk k eq_refl Ez) as [Hz|Hz]; [left; auto|now right].
    - injection Hl as <-. apply last_None, scalarValues_nil in Ez. auto. }
  destruct s as [|a s]; [discriminate|]. cbn [scalarValues] in Hy.
  destruct (isHighSurrogate a).
  - destruct s as [|d s].
    + injection Hy as <-. right. lia.
    + destruct (isLowSurrogate d).
      * eapply (Hstep _ s); [simpl; lia|exact Hy| |].
        -- intros ->. right. lia.
        -- intros z Hz. now rewrite !last_cons, Hz.
      * eapply (Hstep _ (d :: s)); [simpl; lia|exact Hy|discriminate|].
        intros z Hz. now rewrite last_cons, Hz.
  - destruct (isLowSurrogate a).
    + eapply (Hstep _ s); [simpl; lia|exact Hy| |].
      * intros ->. right. lia.
      * intros z Hz. now rewrite last_cons, Hz.
    + eapply (Hstep _ s); [simpl; lia|exact Hy| |].
      * intros ->. now left.
      * intros z Hz. now rewrite last_cons, Hz.
Qed.


Lemma removeTabNewline_app (a b : list N) :
  removeTabNewline (a ++ b) = removeTabNewline a ++ removeTabNewline b.
Proof. apply List.filter_app. Qed.

(** The preprocessing of [file://body], when [body] does not end in a
    control character or a space. *)
Lemma preprocess_file_body (body : jsstring) :
  (forall x, last body = Some x -> 32 < x) ->
  removeTabNewline (stripC0 (scalarValues (lit "file://" ++ body)))
  = lit "file://" ++ removeTabNewline (scalarValues body).
Proof.
  intros Hl. rewrite scalarValues_plain by reflexivity.
  set (sb := scalarValues body).
  assert (stripC0 (lit "file://" ++ sb) = lit "file://" ++ sb) as ->.
  { apply (stripC0_fixed 102 (lit "ile://" ++ sb)); [reflexivity|].
    intros y Hy. unfold isC0ControlOrSpace. apply N.leb_gt.
    change (102 :: lit "ile://" ++ sb) with (lit "file://" ++ sb) in Hy.
    rewrite last_app in Hy. subst sb.
    destruct (last (scalarValues body)) as [z|] eqn:Ez.
    - injection Hy as <-. destruct (scalarValues_last _ _ Ez) as [Hz|Hz]; [|lia].
      now apply Hl.
    - injection Hy as <-. reflexivity. }
  now rewrite removeTabNewline_app.
Qed.


Section WithHostParser.
Context `{HostParser}.



Lemma plainHostText_char (text : list N) (c : N) :
  plainHostText text -> In c text ->
  32 < c /\ c < 55296 /\ isFileHostEnd c = false /\ isWhiteSpace c = false.
Proof.
  unfold plainHostText. rewrite forallb_forall. intros Hall Hc.
  specialize (Hall c Hc). rewrite !andb_true_iff, !negb_true_iff, !N.ltb_lt in Hall.
  tauto.
Qed.

Lemma stripEnd_cons (d : N) (l : list N) :
  isC0ControlOrSpace d = false -> stripEnd (d :: l) = d :: stripEnd l.
Proof.
  intros Hd. unfold stripEnd. cbn [rev].
  rewrite dropWhile_app_stop by exact Hd. rewrite rev_app_distr. reflexivity.
Qed.

Lemma preprocess_file_host (hostText : list N) (rest : jsstring) :
  plainHostText hostText ->
  removeTabNewline (stripC0 (scalarValues (lit "file://" ++ hostText ++ rest)))
  = lit "file://" ++ hostText ++ keptRest rest.
Proof.
  intros Hp. unfold keptRest.
  assert (forallb (fun c => c <? 55296) (lit "file://" ++ hostText) = true) as Hlow.
  { rewrite forallb_app. apply andb_true_iff. split; [reflexivity|].
    rewrite forallb_forall. intros c Hc. apply N.ltb_lt.
    now destruct (plainHostText_char _ _ Hp Hc) as (_ & ? & _). }
  rewrite app_assoc, (scalarValues_plain _ _ Hlow).
  set (sr := scalarValues rest).
  assert (removeTabNewline hostText = hostText) as Hkeep.
  { unfold removeTabNewline. apply forallb_filter_id. rewrite forallb_forall.
    intros c Hc. destruct (plainHostText_char _ _ Hp Hc) as (Hc32 & _).
    unfold isTabOrNewline. apply negb_true_iff, orb_false_iff.
    split; [apply orb_false_iff; split|]; apply N.eqb_neq; lia. }
  destruct (rev hostText) as [|hl hi] eqn:Er.
  - apply (f_equal (@rev N)) in Er. rewrite rev_involutive in Er. subst hostText.
    rewrite app_nil_r. cbn [app].
    assert (stripC0 (lit "file://" ++ sr) = lit "file://" ++ stripEnd sr) as ->
        by (apply (stripC0_mid (lit "ile:/") 102 47 sr); reflexivity).
    now rewrite removeTabNewline_app.
  - apply (f_equal (@rev N)) in Er. rewrite rev_involutive in Er. cbn [rev] in Er.
    assert (isC0ControlOrSpace hl = false) as Hhl.
    { destruct (plainHostText_char _ hl Hp) as (Hc32 & _).
      - rewrite Er. apply in_or_app. right. now left.
      - unfold isC0ControlOrSpace. apply N.leb_gt. exact Hc32. }
    assert (stripC0 ((lit "file://" ++ hostText) ++ sr)
            = (lit "file://" ++ hostText) ++ stripEnd sr) as ->.
    { rewrite Er. rewrite (app_assoc (lit "file://")), <- !(app_assoc _ [hl]).
      cbn [app].
      apply (stripC0_mid (lit "ile://" ++ rev hi) 102 hl sr); [reflexivity|exact Hhl]. }
    rewrite !removeTabNewline_app, Hkeep. now rewrite <- app_assoc.
Qed.

Lemma keptRest_cons (d : N) (r : jsstring) :
  isFileHostEnd d = true -> exists r', keptRest (d :: r) = d :: r'.
Proof.
  intros Hd. unfold keptRest.
  assert (d = 47 \/ d = 92 \/ d = 63 \/ d = 35) as Hcases.
  { unfold isFileHostEnd in Hd. rewrite !orb_true_iff, !N.eqb_eq in Hd. tauto. }
  assert (scalarValues (d :: r) = d :: scalarValues r) as ->
      by (apply (scalarValues_plain [d] r);
          destruct Hcases as [-> | [-> | [-> | ->]]]; reflexivity).
  rewrite stripEnd_cons by (destruct Hcases as [-> | [-> | [-> | ->]]]; reflexivity).
  unfold removeTabNewline. cbn [List.filter].
  assert (isTabOrNewline d = false) as ->
      by (destruct Hcases as [-> | [-> | [-> | ->]]]; reflexivity).
  cbn [negb]. eauto.
Qed.

(** The host of a [file://] URL has no part in its path. *)
Lemma basicParse_file_host (hostText : list N) (rest : jsstring) (h : jsstring) :
  parseHost false hostText = Some h ->
  hostText <> [] -> isWindowsDriveLetter hostText = false ->
  plainHostText hostText ->
  (rest = [] \/ exists d r, rest = d :: r /\ isFileHostEnd d = true) ->
  path <$> basicParse (lit "file://" ++ hostText ++ rest)
  = path <$> basicParse (lit "file://" ++ rest).
Proof.
  intros Hh Hne Hdl Hp Hrest. unfold basicParse.
  rewrite (preprocess_file_host hostText rest Hp).
  pose proof (preprocess_file_host [] rest eq_refl) as Hr. cbn [app] in Hr.
  rewrite Hr. clear Hr.
  set (k := keptRest rest).
  change (splitScheme (lit "file://" ++ hostText ++ k))
    with (Some (lit "file", 47 :: 47 :: hostText ++ k)).
  change (splitScheme (lit "file://" ++ k)) with (Some (lit "file", 47 :: 47 :: k)).
  change (streq (lit "file") (lit "file")) with true. cbv iota beta.
  change (fileState (47 :: 47 :: hostText ++ k)) with (fileHostState (hostText ++ k)).
  change (fileState (47 :: 47 :: k)) with (fileHostState k).
  assert (forallb (fun c => negb (isFileHostEnd c)) hostText = true) as Hspan.
  { rewrite forallb_forall. intros c Hc. apply negb_true_iff.
    now destruct (plainHostText_char _ _ Hp Hc) as (_ & _ & ? & _). }
  assert (truthy hostText = true) as Ht by now apply truthy_true.
  unfold fileHostState.
  destruct Hrest as [->|(d & r & -> & Hd)].
  - subst k. change (keptRest []) with (@nil N). rewrite app_nil_r.
    rewrite (span_all_nil _ _ Hspan). rewrite Hdl, Ht, Hh. reflexivity.
  - subst k. destruct (keptRest_cons d r Hd) as [r' ->].
    rewrite (span_all _ _ _ _ Hspan) by (now rewrite Hd).
    rewrite Hdl, Ht, Hh. cbn [span]. rewrite Hd. reflexivity.
Qed.

End WithHostParser.
End UrlScanFacts.

Import UrlScanFacts.

(** ** [path.join] on plain segments *)
Module PathFacts.
Import Path Vocabulary.

Lemma split_no_separator (s : jsstring) :
  forallb (fun c => negb (c =? 47)) s = true -> JS.split 47 s = [s].
Proof.
  induction s as [|c s IH]; [reflexivity|]. cbn [forallb JS.split].
  intros [Hc Hs]%andb_true_iff. apply negb_true_iff in Hc. rewrite Hc, IH by exact Hs.
  reflexivity.
Qed.

Lemma split_separator (s rest : jsstring) :
  forallb (fun c => negb (c =? 47)) s = true ->
  JS.split 47 (s ++ 47 :: rest) = s :: JS.split 47 rest.
Proof.
  induction s as [|c s IH]; [reflexivity|]. cbn [forallb JS.split app].
  intros [Hc Hs]%andb_true_iff. apply negb_true_iff in Hc. rewrite Hc, IH by exact Hs.
  reflexivity.
Qed.

Lemma split_joinWith (segs : list jsstring) :
  segs <> [] -> Forall plainSegment segs -> JS.split 47 (joinWith 47 segs) = segs.
Proof.
  induction segs as [|seg segs IH]; [contradiction|]. intros _ Hall.
  apply Forall_cons in Hall as [(_ & _ & _ & Hseg) Hall].
  destruct segs as [|seg' segs].
  - now apply split_no_separator.
  - change (joinWith 47 (seg :: seg' :: segs))
      with (seg ++ 47 :: joinWith 47 (seg' :: segs)).
    rewrite split_separator by exact Hseg.
    f_equal. now apply IH.
Qed.

Lemma normalizeSegments_plain (allowAboveRoot : bool) (segs done : list jsstring) :
  Forall plainSegment segs ->
  normalizeSegments allowAboveRoot done segs = rev done ++ segs.
Proof.
  revert done. induction segs as [|seg segs IH]; intros done Hall.
  - cbn [normalizeSegments]. now rewrite app_nil_r.
  - apply Forall_cons in Hall as [(Hne & Hdot & Hdots & _) Hall].
    cbn [normalizeSegments].
    apply truthy_true in Hne. apply streq_false in Hdot, Hdots.
    rewrite Hne, Hdot, Hdots. cbn [negb orb].
    rewrite IH by exact Hall. cbn [rev]. now rewrite <- app_assoc.
Qed.

Lemma joinWith_flat (first : jsstring) (segs : list jsstring) :
  joinWith 47 (first :: segs) = first ++ flat_map (fun seg => 47 :: seg) segs.
Proof.
  revert first. induction segs as [|seg segs IH]; intros first.
  - cbn. now rewrite app_nil_r.
  - change (joinWith 47 (first :: seg :: segs))
      with (first ++ 47 :: joinWith 47 (seg :: segs)).
    rewrite IH. reflexivity.
Qed.

Lemma joinWith_last (segs : list jsstring) (seg : jsstring) :
  last segs = Some seg -> seg <> [] -> last (joinWith 47 segs) = last seg.
Proof.
  induction segs as [|s segs IH]; [discriminate|]. intros Hl Hne.
  destruct segs as [|s' segs].
  - injection Hl as ->. reflexivity.
  - change (joinWith 47 (s :: s' :: segs))
      with (s ++ 47 :: joinWith 47 (s' :: segs)).
    rewrite last_app. rewrite last_cons_cons in Hl.
    change (last (47 :: joinWith 47 (s' :: segs)))
      with (last ([47] ++ joinWith 47 (s' :: segs))).
    rewrite last_app, (IH Hl Hne).
    destruct seg as [|c seg]; [contradiction|].
    destruct (last (c :: seg)) eqn:E; [reflexivity|].
    apply last_None in E. discriminate.
Qed.

(** X10. Joining an absolute path made of plain segments with further
    plain segments puts a slash before each of them and changes nothing
    else: the candidates of the mapper are [root/Documents/...] and
    [root/...] letter for letter. *)
Theorem join_plain (rootSegments segments : list jsstring) :
  rootSegments <> [] ->
  Forall plainSegment rootSegments -> Forall plainSegment segments ->
  let root := 47 :: joinWith 47 rootSegments in
  join (root :: segments) = root ++ flat_map (fun seg => 47 :: seg) segments.
Proof.
  intros Hne Hroot Hsegs root.
  assert (List.filter truthy (root :: segments) = root :: segments) as Hf.
  { apply forallb_filter_id. cbn [forallb]. subst root. cbn [truthy andb].
    rewrite forallb_forall. intros s Hs. rewrite Forall_forall in Hsegs.
    apply truthy_true. apply list_elem_of_In in Hs. now destruct (Hsegs s Hs). }
  unfold join. rewrite Hf. rewrite joinWith_flat.
  set (all := rootSegments ++ segments).
  assert (Forall plainSegment all) as Hall by (now apply Forall_app).
  assert (all <> []) as Hallne by (subst all; now destruct rootSegments).
  assert (root ++ flat_map (fun seg => 47 :: seg) segments = 47 :: joinWith 47 all)
    as ->.
  { subst root all. cbn [app]. f_equal.
    destruct rootSegments as [|r0 rs]; [contradiction|].
    cbn [app]. rewrite !joinWith_flat, <- app_assoc. f_equal.
    now rewrite flat_map_app. }
  unfold normalize. rewrite N.eqb_refl. cbn [negb].
  change (JS.split 47 (47 :: joinWith 47 all)) with ([] :: JS.split 47 (joinWith 47 all)).
  rewrite split_joinWith by assumption.
  cbn [normalizeSegments truthy negb orb].
  rewrite normalizeSegments_plain by exact Hall. cbn [rev app].
  assert (truthy (joinWith 47 all) = true) as ->.
  { destruct all as [|a0 al]; [contradiction|].
    apply Forall_cons in Hall as [(Ha & _) _]. rewrite joinWith_flat.
    destruct a0; [contradiction|reflexivity]. }
  cbn [negb].
  assert (exists seg, last all = Some seg) as [seg Hseg].
  { destruct (last all) eqn:E; [eauto|]. apply last_None in E. contradiction. }
  assert (plainSegment seg) as (Hsne & _ & _ & Hslash).
  { rewrite Forall_forall in Hall. apply Hall.
    apply last_Some in Hseg as [l' ->]. apply elem_of_app. right. now left. }
  assert (default false (N.eqb 47 <$> last (47 :: joinWith 47 all)) = false) as ->.
  { change (47 :: joinWith 47 all) with ([47] ++ joinWith 47 all).
    rewrite last_app, (joinWith_last all seg Hseg Hsne).
    destruct (last seg) as [y|] eqn:Ey; [|apply last_None in Ey; contradiction].
    change (default false (N.eqb 47 <$> Some y)) with (47 =? y).
    apply last_Some in Ey as [l' ->].
    rewrite forallb_app in Hslash. apply andb_true_iff in Hslash as [_ Hy].
    cbn [forallb] in Hy. rewrite andb_true_r in Hy.
    apply negb_true_iff in Hy. now rewrite N.eqb_sym. }
  reflexivity.
Qed.

Ltac plain_segment :=
  unfold plainSegment;
  repeat match goal with
         | |- _ /\ _ => split
         | |- _ <> _ => let E := fresh in intros E; vm_compute in E; discriminate E
         | |- _ = true => vm_compute; reflexivity
         end.

Lemma join_plain_witness :
  join [lit "/Users/me/Library/CloudStorage/OneDrive-Contoso"; lit "Documents";
        lit "Reports"; lit "Q1.docx"]
  = lit "/Users/me/Library/CloudStorage/OneDrive-Contoso"
    ++ lit "/Documents/Reports/Q1.docx".
Proof.
  apply (join_plain
           [lit "Users"; lit "me"; lit "Library"; lit "CloudStorage";
            lit "OneDrive-Contoso"]
           [lit "Documents"; lit "Reports"; lit "Q1.docx"]).
  - discriminate.
  - repeat (apply Forall_cons_2; [plain_segment|]). apply Forall_nil_2.
  - repeat (apply Forall_cons_2; [plain_segment|]). apply Forall_nil_2.
Defined.

End PathFacts.

Import UrlFacts Vocabulary.

(** ** The result normalizer *)
Module NormalizerSpec.
Import Url.

Section WithHostParser.
Context `{HostParser}.

Lemma normalize_empty (result : jsstring) :
  trim result = [] \/ trim result = lit "missing value" ->
  normalizeFileManagerResult result = Normal [].
Proof.
  unfold normalizeFileManagerResult. intros [-> | ->]; reflexivity.
Qed.

Lemma normalize_plain (result : jsstring) :
  trim result <> [] -> trim result <> lit "missing value" ->
  startsWith (trim result) (lit "file://") = false ->
  normalizeFileManagerResult result = Normal (trim result).
Proof.
  unfold normalizeFileManagerResult. intros H1%truthy_true H2%streq_false ->.
  now rewrite H1, H2.
Qed.

Lemma normalize_fileUrl (result : jsstring) :
  trim result <> [] -> trim result <> lit "missing value" ->
  startsWith (trim result) (lit "file://") = true ->
  normalizeFileManagerResult result =
    match newURL (trim result) with
    | Normal parsed =>
        match decodeURIComponent (pathname parsed) with
        | Normal decoded => Normal decoded
        | Throw _ => Normal (trim result)
        end
    | Throw _ => Normal (trim result)
    end.
Proof.
  unfold normalizeFileManagerResult. intros H1%truthy_true H2%streq_false ->.
  rewrite H1, H2. simpl. destruct (newURL (trim result)) as [u|e]; simpl.
  - destruct (decodeURIComponent (pathname u)); reflexivity.
  - reflexivity.
Qed.

Lemma normalize_total (result : jsstring) :
  exists path, normalizeFileManagerResult result = Normal path.
Proof.
  unfold normalizeFileManagerResult.
  destruct (negb _ || _); [eauto|].
  destruct (startsWith _ _); [|eauto].
  destruct (newURL (trim result)) as [u|e]; simpl; [|eauto].
  destruct (decodeURIComponent (pathname u)); simpl; eauto.
Qed.

(** A text that starts with a slash is normalized by trimming alone. *)
Lemma normalize_slash (r : jsstring) :
  normalizeFileManagerResult (47 :: r) = Normal (trim (47 :: r)).
Proof.
  destruct (trim_cons 47 r eq_refl) as [r' Hr].
  apply normalize_plain; rewrite Hr; [discriminate|discriminate|reflexivity].
Qed.

(** A trimmed text is normalized as if it were the raw result. *)
Lemma normalize_trim (x : jsstring) :
  normalizeFileManagerResult (trim x) = normalizeFileManagerResult x.
Proof. unfold normalizeFileManagerResult. now rewrite trim_idem. Qed.

(** The normalized value of a trimmed [file://] text whose URL parses
    and whose path decodes. *)
Lemma normalize_file_text (text : jsstring) (parsed : URL) (decoded : jsstring) :
  trim text = text -> startsWith text (lit "file://") = true ->
  basicParse text = Some parsed ->
  decodeURIComponent (pathname parsed) = Normal decoded ->
  normalizeFileManagerResult text = Normal decoded.
Proof.
  intros Ht Hs Hp Hd.
  assert (exists r, text = lit "file://" ++ r) as [r Hr] by now apply startsWith_spec.
  rewrite normalize_fileUrl; rewrite Ht; try (rewrite Hr; discriminate); [|exact Hs].
  unfold newURL. now rewrite Hp, Hd.
Qed.

(** C2. [normalizeFileManagerResult] trims its input; an empty trimmed
    text and the sentinel ["missing value"] give the empty string; a
    trimmed text that starts with [file://] gives the URL-decoded path
    component of the URL, or the trimmed text itself when the URL does not
    parse or its path does not decode; any other trimmed text is returned
    as it is; and no input makes it throw. The last part is the example of
    the specification. *)
Theorem normalizeFileManagerResult_spec :
  (forall result : jsstring,
     let trimmed := trim result in
     (trimmed = [] \/ trimmed = lit "missing value" ->
      normalizeFileManagerResult result = Normal [])
     /\ (trimmed <> [] -> trimmed <> lit "missing value" ->
         (exists rest, trimmed = lit "file://" ++ rest) ->
         (forall parsed decoded,
            newURL trimmed = Normal parsed ->
            decodeURIComponent (pathname parsed) = Normal decoded ->
            normalizeFileManagerResult result = Normal decoded)
         /\ (forall parsed e,
               newURL trimmed = Normal parsed ->
               decodeURIComponent (pathname parsed) = Throw e ->
               normalizeFileManagerResult result = Normal trimmed)
         /\ (forall e,
               newURL trimmed = Throw e ->
               normalizeFileManagerResult result = Normal trimmed))
     /\ (trimmed <> [] -> trimmed <> lit "missing value" ->
         ~ (exists rest, trimmed = lit "file://" ++ rest) ->
         normalizeFileManagerResult result = Normal trimmed)
     /\ (exists path, normalizeFileManagerResult result = Normal path))
  /\ normalizeFileManagerResult (lit "file:///Users/a b/x.txt")
     = Normal (lit "/Users/a b/x.txt").
Proof.
  split; [|vm_compute; reflexivity].
  intros result trimmed. subst trimmed. repeat split.
  - apply normalize_empty.
  - intros parsed decoded Hu Hd. rewrite normalize_fileUrl; auto.
    + now rewrite Hu, Hd.
    + now apply startsWith_spec.
  - intros parsed e Hu Hd. rewrite normalize_fileUrl; auto.
    + now rewrite Hu, Hd.
    + now apply startsWith_spec.
  - intros e Hu. rewrite normalize_fileUrl; auto.
    + now rewrite Hu.
    + now apply startsWith_spec.
  - intros H1 H2 H3. apply normalize_plain; auto.
    destruct (startsWith _ _) eqn:E; [|reflexivity].
    apply startsWith_spec in E. contradiction.
  - apply normalize_total.
Qed.

End WithHostParser.
End NormalizerSpec.

Import NormalizerSpec.

Module NormalizerIdempotence.
Import Url Sample.

(** C9, as stated, fails: the decoded path of [file:///a%20] ends with a
    space, which a second normalization trims away. *)
Lemma normalize_not_idempotent :
  @normalizeFileManagerResult plainHostParser (lit "file:///a%20") = Normal (lit "/a ")
  /\ @normalizeFileManagerResult plainHostParser (lit "/a ") = Normal (lit "/a")
  /\ lit "/a " <> lit "/a".
Proof. repeat split. discriminate. Qed.

Section WithHostParser.
Context `{HostParser}.

(** C9, amended. Normalizing a normalized value trims it and does nothing
    else; so the second normalization changes nothing whenever the first
    result carries no surrounding whitespace, which is the case for every
    input whose trimmed form does not start with [file://]. *)
Theorem normalize_twice (x : jsstring) :
  exists y,
    normalizeFileManagerResult x = Normal y
    /\ normalizeFileManagerResult y = Normal (trim y)
    /\ (trim y = y -> normalizeFileManagerResult y = Normal y)
    /\ (startsWith (trim x) (lit "file://") = false ->
        normalizeFileManagerResult y = Normal y).
Proof.
  assert (forall y, normalizeFileManagerResult x = Normal y ->
                    normalizeFileManagerResult y = Normal (trim y)
                    /\ (startsWith (trim x) (lit "file://") = false -> trim y = y))
    as Hmain.
  { intros y Hy.
    destruct (decide (trim x = [] \/ trim x = lit "missing value")) as [He|Hne].
    { rewrite (normalize_empty x He) in Hy. injection Hy as <-.
      split; reflexivity. }
    assert (trim x <> [] /\ trim x <> lit "missing value") as [H1 H2]
        by (split; intros E; apply Hne; auto).
    destruct (startsWith (trim x) (lit "file://")) eqn:Hs.
    - split; [|discriminate].
      rewrite (normalize_fileUrl x H1 H2 Hs) in Hy.
      assert (Normal y = Normal (trim x) ->
              normalizeFileManagerResult y = Normal (trim y)) as Hfall.
      { intros [= ->]. rewrite normalize_trim, trim_idem.
        rewrite (normalize_fileUrl x H1 H2 Hs).
        destruct (newURL (trim x)) as [u|e] eqn:Hu; [|exact Hy].
        destruct (decodeURIComponent (pathname u)) eqn:Hd; [|exact Hy].
        exact Hy. }
      destruct (newURL (trim x)) as [u|e] eqn:Hu; [|auto].
      destruct (decodeURIComponent (pathname u)) as [d|e] eqn:Hd; [|auto].
      injection Hy as <-.
      unfold newURL in Hu. destruct (basicParse (trim x)) as [u'|] eqn:Hp;
        [injection Hu as ->|discriminate].
      destruct (pathname_file_slash _ _ Hs Hp) as [r Hr]. rewrite Hr in Hd.
      destruct (decodeURIComponent_cons 47 r d) as [d' ->]; [discriminate|exact Hd|].
      apply normalize_slash.
    - rewrite (normalize_plain x H1 H2 Hs) in Hy. injection Hy as <-.
      rewrite normalize_trim, trim_idem. split; [|reflexivity].
      now apply normalize_plain. }
  destruct (normalize_total x) as [y Hy]. exists y.
  destruct (Hmain y Hy) as [H1 H2].
  split; [exact Hy|]. split; [exact H1|]. split.
  - intros E. now rewrite E in H1.
  - intros E. rewrite (H2 E) in H1. exact H1.
Qed.

End WithHostParser.
End NormalizerIdempotence.

Module NormalizerPathOnly.
Import Url Sample.

(** C10, as stated, fails: a [file://] URL that parses but whose path does
    not percent-decode is returned whole, with its host, its query and its
    fragment. *)
Lemma normalize_keeps_url_when_decoding_fails :
  hostname <$> @basicParse plainHostParser (lit "file://server/%?q#f")
    = Some (lit "server")
  /\ pathname <$> @basicParse plainHostParser (lit "file://server/%?q#f")
     = Some (lit "/%")
  /\ decodeURIComponent (lit "/%") = Throw URIError
  /\ @normalizeFileManagerResult plainHostParser (lit "file://server/%?q#f")
     = Normal (lit "file://server/%?q#f").
Proof. repeat split. Qed.

(** C10, amended. When the trimmed input starts with [file://], parses as
    a URL and the path of that URL percent-decodes, the normalized value is
    the decoded path and nothing else: whatever host the URL has, and
    whatever query and fragment the text carried, they are not part of
    it. *)
Theorem normalize_file_url_path_only `{HostParser}
  (result : jsstring) (parsed : URL) (decoded : jsstring) :
  (exists rest, trim result = lit "file://" ++ rest) ->
  newURL (trim result) = Normal parsed ->
  decodeURIComponent (pathname parsed) = Normal decoded ->
  normalizeFileManagerResult result = Normal decoded.
Proof.
  intros Hs Hu Hd.
  assert (trim result <> []) as H1 by (destruct Hs as [r ->]; discriminate).
  assert (trim result <> lit "missing value") as H2
      by (destruct Hs as [r ->]; discriminate).
  apply startsWith_spec in Hs.
  rewrite (normalize_fileUrl result H1 H2 Hs), Hu, Hd. reflexivity.
Qed.

(** The example of the claim: the host [server], the query and the
    fragment are gone. *)
Lemma normalize_file_url_path_only_witness :
  @normalizeFileManagerResult plainHostParser
    (lit "  file://server/share/a%20b.txt?q=1#frag ")
  = Normal (lit "/share/a b.txt").
Proof.
  apply (@normalize_file_url_path_only plainHostParser
           (lit "  file://server/share/a%20b.txt?q=1#frag ")
           {| scheme := lit "file"; host := Some (lit "server");
              path := Segments [lit "share"; lit "a%20b.txt"] |}
           (lit "/share/a b.txt")).
  - exists (lit "server/share/a%20b.txt?q=1#frag"). reflexivity.
  - reflexivity.
  - reflexivity.
Defined.

End NormalizerPathOnly.

(** ** What the normalizer drops of a [file://] URL *)
Module NormalizerDrops.
Import Url Sample.

Section WithHostParser.
Context `{HostParser}.


(** X2. The host never reaches the normalized path: a [file://] URL with
    a host normalizes to the decoded path of the URL without it. *)
Theorem normalize_drops_host
  (hostText : list N) (rest : jsstring) (h : jsstring) (parsed : URL)
  (decoded : jsstring) :
  parseHost false hostText = Some h ->
  hostText <> [] -> isWindowsDriveLetter hostText = false ->
  plainHostText hostText ->
  (rest = [] \/ exists d r, rest = d :: r /\ isFileHostEnd d = true) ->
  newURL (trim (lit "file://" ++ rest)) = Normal parsed ->
  decodeURIComponent (pathname parsed) = Normal decoded ->
  normalizeFileManagerResult (lit "file://" ++ rest) = Normal decoded
  /\ normalizeFileManagerResult (lit "file://" ++ hostText ++ rest) = Normal decoded.
Proof.
  intros Hh Hne Hdl Hp Hrest Hu Hd.
  set (kept := match rest with [] => [] | d :: r => d :: trimEnd r end).
  assert (forall d r, rest = d :: r -> isFileHostEnd d = true -> isWhiteSpace d = false)
    as Hdw.
  { intros d r _ Hd'. unfold isFileHostEnd in Hd'.
    rewrite !orb_true_iff, !N.eqb_eq in Hd'.
    destruct Hd' as [[[-> | ->] | ->] | ->]; reflexivity. }
  assert (trim (lit "file://" ++ rest) = lit "file://" ++ kept) as Hty.
  { subst kept. destruct Hrest as [->|(d & r & -> & Hd')]; [reflexivity|].
    change (lit "file://" ++ d :: r) with (102 :: lit "ile://" ++ d :: r).
    rewrite trim_mid; [reflexivity|reflexivity|]. now apply (Hdw d r). }
  assert (trim (lit "file://" ++ hostText ++ rest) = lit "file://" ++ hostText ++ kept)
    as Htx.
  { subst kept. destruct Hrest as [->|(d & r & -> & Hd')].
    - rewrite app_nil_r.
      apply (trim_fixed 102 (lit "ile://" ++ hostText)); [reflexivity|].
      intros y Hy.
      change (102 :: lit "ile://" ++ hostText) with (lit "file://" ++ hostText) in Hy.
      rewrite last_app in Hy. destruct (last hostText) as [z|] eqn:Ez.
      + injection Hy as <-. apply last_Some in Ez as [l' ->].
        destruct (plainHostText_char _ z Hp) as (_ & _ & _ & ?); [|assumption].
        apply in_or_app. right. now left.
      + injection Hy as <-. reflexivity.
    - rewrite app_assoc.
      change ((lit "file://" ++ hostText) ++ d :: r)
        with (102 :: (lit "ile://" ++ hostText) ++ d :: r).
      rewrite trim_mid; [|reflexivity|now apply (Hdw d r)].
      change (102 :: (lit "ile://" ++ hostText) ++ d :: trimEnd r)
        with ((lit "file://" ++ hostText) ++ d :: trimEnd r).
      now rewrite <- app_assoc. }
  assert (kept = [] \/ exists d r, kept = d :: r /\ isFileHostEnd d = true) as Hkept.
  { subst kept. destruct Hrest as [->|(d & r & -> & Hd')]; [now left|right; eauto]. }
  rewrite Hty in Hu. unfold newURL in Hu.
  destruct (basicParse (lit "file://" ++ kept)) as [u|] eqn:Hpy; [|discriminate].
  injection Hu as ->.
  pose proof (basicParse_file_host hostText kept h Hh Hne Hdl Hp Hkept) as Hpath.
  rewrite Hpy in Hpath.
  destruct (basicParse (lit "file://" ++ hostText ++ kept)) as [u'|] eqn:Hpx;
    [|discriminate].
  injection Hpath as Hpath.
  split.
  - rewrite <- normalize_trim, Hty. apply (normalize_file_text _ parsed).
    + rewrite <- Hty. apply trim_idem.
    + apply startsWith_spec. eauto.
    + exact Hpy.
    + exact Hd.
  - rewrite <- normalize_trim, Htx. apply (normalize_file_text _ u').
    + rewrite <- Htx. apply trim_idem.
    + apply startsWith_spec. eauto.
    + exact Hpx.
    + unfold pathname. rewrite Hpath. exact Hd.
Qed.

End WithHostParser.


Lemma normalize_drops_host_witness :
  @normalizeFileManagerResult plainHostParser (lit "file://" ++ lit "/share/x.txt")
    = Normal (lit "/share/x.txt")
  /\ @normalizeFileManagerResult plainHostParser
       (lit "file://" ++ lit "server" ++ lit "/share/x.txt")
     = Normal (lit "/share/x.txt").
Proof.
  apply (@normalize_drops_host plainHostParser (lit "server") (lit "/share/x.txt")
           (lit "server")
           {| scheme := lit "file"; host := Some [];
              path := Segments [lit "share"; lit "x.txt"] |}).
  - vm_compute. reflexivity.
  - discriminate.
  - vm_compute. reflexivity.
  - vm_compute. reflexivity.
  - right. exists 47, (lit "share/x.txt"). split; reflexivity.
  - vm_compute. reflexivity.
  - vm_compute. reflexivity.
Defined.

End NormalizerDrops.

(** ** The variants of the relative segment sequence *)
Module VariantsSpec.

Lemma isDigit_spec (c : N) : isDigit c = true <-> isDigitCode c.
Proof.
  unfold isDigit, isDigitCode. rewrite andb_true_iff, !N.leb_le. reflexivity.
Qed.

Section MatchIndex.
Context (matchesAt : jsstring -> bool).

Lemma matchIndex_Some (s : jsstring) (i : nat) :
  matchIndex matchesAt s = Some i <->
  matchesAt (drop i s) = true /\ (i <= length s)%nat
  /\ forall j, (j < i)%nat -> matchesAt (drop j s) = false.
Proof.
  revert i. induction s as [|c r IH]; intros i; simpl matchIndex.
  - destruct (matchesAt []) eqn:E.
    + split.
      * intros [= <-]. repeat split; [exact E|lia|lia].
      * intros (_ & Hi & _). simpl in Hi. f_equal. lia.
    + split; [discriminate|]. intros (Hm & _ & _).
      rewrite drop_nil in Hm. congruence.
  - destruct (matchesAt (c :: r)) eqn:E.
    + split.
      * intros [= <-]. repeat split; [exact E|simpl; lia|lia].
      * intros (_ & _ & Hj). destruct i as [|i]; [reflexivity|].
        specialize (Hj O ltac:(lia)). simpl in Hj. congruence.
    + destruct i as [|i].
      * split.
        -- destruct (matchIndex matchesAt r); discriminate.
        -- intros (Hm & _). simpl in Hm. congruence.
      * rewrite fmap_Some. split.
        -- intros (i' & Hi' & [= ->]). apply IH in Hi' as (Hm & Hl & Hj).
           repeat split; [exact Hm|simpl; lia|].
           intros [|j] Hlt; [exact E|]. simpl. apply Hj. lia.
        -- intros (Hm & Hl & Hj). exists i. split; [|reflexivity].
           apply IH. repeat split; [exact Hm|simpl in Hl; lia|].
           intros j Hlt. apply (Hj (S j)). lia.
Qed.

Lemma matchIndex_None (s : jsstring) :
  matchesAt [] = false ->
  matchIndex matchesAt s = None <-> forall j, matchesAt (drop j s) = false.
Proof.
  intros Hnil. induction s as [|c r IH]; simpl matchIndex.
  - rewrite Hnil. split; [|reflexivity]. intros _ j. now rewrite drop_nil.
  - destruct (matchesAt (c :: r)) eqn:E.
    + split; [discriminate|]. intros Hj. specialize (Hj O). simpl in Hj. congruence.
    + rewrite fmap_None, IH. split.
      * intros Hj [|j]; [exact E|apply Hj].
      * intros Hj j. apply (Hj (S j)).
Qed.

End MatchIndex.

Lemma dateAtStart_spec (s : jsstring) (i : nat) :
  dateAtStart (drop i s) = true <-> datePatternAt s i.
Proof.
  split.
  - intros Hd. unfold dateAtStart in Hd.
    destruct (drop i s) as [|y1 [|y2 [|y3 [|y4 [|p1 [|m1 [|m2 [|p2 [|d1 [|d2 after]]]]]]]]]]
      eqn:E; try discriminate.
    rewrite !andb_true_iff, !isDigit_spec, !N.eqb_eq in Hd.
    destruct Hd as (((((((((? & ?) & ?) & ?) & ->) & ?) & ?) & ->) & ?) & ?).
    exists (take i s), y1, y2, y3, y4, m1, m2, d1, d2, after. repeat split.
    + simpl. rewrite <- E. now rewrite take_drop.
    + apply length_take_le.
      destruct (decide (i <= length s)%nat) as [|Hgt]; [assumption|].
      rewrite drop_ge in E by lia. discriminate.
    + repeat (first [apply Forall_nil_2 | apply Forall_cons_2; [assumption|]]).
  - intros (before & y1 & y2 & y3 & y4 & m1 & m2 & d1 & d2 & after & -> & <- & Hd).
    rewrite drop_app_length. simpl.
    repeat match goal with
           | H : Forall _ (_ :: _) |- _ =>
               apply Forall_cons in H as [?%isDigit_spec H]
           end.
    unfold isDigit in *.
    repeat match goal with
           | H : _ && _ = true |- _ => apply andb_true_iff in H as [? ?]
           end.
    repeat (apply andb_true_iff; split); auto.
Qed.

Lemma digitAtStart_spec (s : jsstring) (i : nat) :
  digitAtStart (drop i s) = true <-> digitAt s i.
Proof.
  unfold digitAt, digitAtStart, jsstring. pose proof (lookup_drop s i O) as Hl.
  rewrite Nat.add_0_r in Hl. rewrite <- Hl.
  destruct (drop i s) as [|c r]; simpl.
  - split; [discriminate|]. now intros (c & ? & _).
  - rewrite isDigit_spec. split.
    + intros Hc. eauto.
    + now intros (c' & [= <-] & Hc).
Qed.

Lemma cutIndex_spec (s : jsstring) (i : nat) :
  cutIndex s = Some i <-> cutPosition s i.
Proof.
  unfold cutIndex, cutPosition.
  destruct (matchIndex dateAtStart s) as [k|] eqn:Ed.
  - apply matchIndex_Some in Ed as (Hm & Hl & Hj). split.
    + intros [= <-]. left. split; [now apply dateAtStart_spec|].
      intros j Hlt Hc%dateAtStart_spec. rewrite (Hj j Hlt) in Hc. discriminate.
    + intros [[Hi Hmin]|[Hno _]].
      * f_equal. destruct (Nat.lt_trichotomy k i) as [Hlt|[->|Hlt]]; [|reflexivity|].
        -- exfalso. apply (Hmin k Hlt). now apply dateAtStart_spec.
        -- apply dateAtStart_spec in Hi. rewrite (Hj i Hlt) in Hi. discriminate.
      * exfalso. apply (Hno k). now apply dateAtStart_spec.
  - pose proof (proj1 (matchIndex_None dateAtStart s eq_refl) Ed) as Hno.
    clear Ed. rename Hno into Ed. rewrite matchIndex_Some. split.
    + intros (Hm & _ & Hj). right. repeat split.
      * intros j Hc%dateAtStart_spec. rewrite Ed in Hc. discriminate.
      * now apply digitAtStart_spec.
      * intros j Hlt Hc%digitAtStart_spec. rewrite (Hj j Hlt) in Hc. discriminate.
    + intros [[Hi _]|(_ & Hi & Hmin)].
      * apply dateAtStart_spec in Hi. rewrite Ed in Hi. discriminate.
      * repeat split.
        -- now apply digitAtStart_spec.
        -- destruct Hi as (c & Hc & _). apply lookup_lt_Some in Hc. lia.
        -- intros j Hlt. destruct (digitAtStart (drop j s)) eqn:E; [|reflexivity].
           exfalso. apply (Hmin j Hlt). now apply digitAtStart_spec.
Qed.

Lemma cutIndex_nil : cutIndex [] = None.
Proof. reflexivity. Qed.

(** The two splitting branches exclude each other, so the code computes
    this. *)
Lemma relativeVariantsOf_cut (relativeSegments : list jsstring) :
  relativeVariantsOf relativeSegments =
  relativeSegments ::
    match last relativeSegments with
    | Some lastSegment =>
        match cutIndex lastSegment with
        | Some i =>
            if (0 <? i)%nat then splitVariantAt relativeSegments lastSegment i else []
        | None => []
        end
    | None => []
    end.
Proof.
  unfold relativeVariantsOf, cutIndex. simpl app. f_equal.
  destruct (last relativeSegments) as [lastSegment|]; simpl default; [|reflexivity].
  destruct lastSegment as [|c r]; [reflexivity|].
  change (truthy (c :: r)) with true. cbv iota. rewrite !andb_true_l.
  destruct (matchIndex dateAtStart (c :: r)) as [i|].
  - rewrite bool_decide_eq_false_2 by discriminate. cbv iota.
    rewrite app_nil_r. destruct i; reflexivity.
  - rewrite bool_decide_eq_true_2 by reflexivity. cbv iota. rewrite app_nil_l.
    destruct (matchIndex digitAtStart (c :: r)) as [i|]; [|reflexivity].
    destruct i; reflexivity.
Qed.

(** C4. The mapper builds one or two variants, the relative segments as
    they are always first. A second, split variant is built only when the
    final segment has a cut position (its leftmost date pattern of four,
    two and two digits separated by dots, or, when it has no such pattern,
    its leftmost digit) strictly after its start, with a non-empty trimmed
    text before it and a non-empty trimmed text from it on; the split
    variant then replaces the final segment by those two texts, and it is
    built whenever the cut position qualifies. Segments that end in
    ["Quarterly Report2024.03.15.docx"] give the variant that ends in
    ["Quarterly Report"], ["2024.03.15.docx"]. *)
Theorem relativeVariantsOf_spec :
  (forall relativeSegments : list jsstring,
     (relativeVariantsOf relativeSegments = [relativeSegments]
      \/ exists splitVariant,
           relativeVariantsOf relativeSegments = [relativeSegments; splitVariant])
     /\ (forall splitVariant,
           relativeVariantsOf relativeSegments = [relativeSegments; splitVariant] ->
           exists lastSegment i,
             last relativeSegments = Some lastSegment
             /\ cutPosition lastSegment i /\ (0 < i)%nat
             /\ trim (take i lastSegment) <> []
             /\ trim (drop i lastSegment) <> []
             /\ splitVariant =
                  removelast relativeSegments
                  ++ [trim (take i lastSegment); trim (drop i lastSegment)])
     /\ (forall lastSegment i,
           last relativeSegments = Some lastSegment ->
           cutPosition lastSegment i -> (0 < i)%nat ->
           trim (take i lastSegment) <> [] ->
           trim (drop i lastSegment) <> [] ->
           relativeVariantsOf relativeSegments =
             [relativeSegments;
              removelast relativeSegments
              ++ [trim (take i lastSegment); trim (drop i lastSegment)]]))
  /\ (forall before : list jsstring,
        relativeVariantsOf (before ++ [lit "Quarterly Report2024.03.15.docx"]) =
          [before ++ [lit "Quarterly Report2024.03.15.docx"];
           before ++ [lit "Quarterly Report"; lit "2024.03.15.docx"]]).
Proof.
  split.
  - intros rel. rewrite relativeVariantsOf_cut.
    destruct (last rel) as [lastSegment|] eqn:El.
    2:{ repeat split; [now left|discriminate|discriminate]. }
    destruct (cutIndex lastSegment) as [i|] eqn:Ec.
    2:{ repeat split; [now left|discriminate|].
        intros l i [= <-] Hc%cutIndex_spec. congruence. }
    destruct (Nat.ltb_spec 0 i) as [Hpos|Hzero].
    2:{ repeat split; [now left|discriminate|].
        intros l k [= <-] Hc%cutIndex_spec. rewrite Ec in Hc.
        injection Hc as <-. lia. }
    unfold splitVariantAt.
    destruct (truthy (trim (take i lastSegment))) eqn:Ef;
      [destruct (truthy (trim (drop i lastSegment))) eqn:Eg|]; simpl andb; cbv iota.
    + repeat split.
      * right. eauto.
      * intros sv [= <-]. exists lastSegment, i.
        repeat split; auto; [now apply cutIndex_spec|now apply truthy_true..].
      * intros l k [= <-] Hc%cutIndex_spec. rewrite Ec in Hc. now injection Hc as <-.
    + repeat split; [now left|discriminate|].
      intros l k [= <-] Hc%cutIndex_spec. rewrite Ec in Hc. injection Hc as <-.
      intros _ _ Hg%truthy_true. congruence.
    + repeat split; [now left|discriminate|].
      intros l k [= <-] Hc%cutIndex_spec. rewrite Ec in Hc. injection Hc as <-.
      intros _ Hf%truthy_true. congruence.
  - intros before. rewrite relativeVariantsOf_cut, last_snoc.
    change (cutIndex _) with (Some 16%nat). cbv iota.
    change (0 <? 16)%nat with true. cbv iota.
    unfold splitVariantAt. rewrite removelast_last. reflexivity.
Qed.

End VariantsSpec.

(** ** The cloud path mapper *)
Module MapperSpec.
Import Url Sample.

Lemma find_app_first {A} (f : A -> bool) (a b : list A) :
  List.find f (a ++ b) =
  match List.find f a with
  | Some x => Some x
  | None => List.find f b
  end.
Proof.
  induction a as [|x a IH]; simpl; [reflexivity|].
  destruct (f x); [reflexivity|exact IH].
Qed.

(** [List.find] returns the first element that passes the test. *)
Lemma find_first {A} (f : A -> bool) (l : list A) (x : A) :
  List.find f l = Some x <->
  exists before after,
    l = before ++ x :: after /\ f x = true /\ Forall (fun y => f y = false) before.
Proof.
  induction l as [|y l IH]; simpl.
  - split; [discriminate|]. intros (b & a & E & _). now destruct b.
  - destruct (f y) eqn:E.
    + split.
      * intros [= <-]. exists [], l. auto.
      * intros ([|z b] & a & Hl & Hx & Hb).
        -- now injection Hl as ->.
        -- injection Hl as -> _. apply Forall_cons in Hb as [Hz _]. congruence.
    + rewrite IH. split.
      * intros (b & a & -> & Hx & Hb). exists (y :: b), a. auto.
      * intros ([|z b] & a & Hl & Hx & Hb).
        -- injection Hl as -> _. congruence.
        -- injection Hl as -> ->. apply Forall_cons in Hb as [_ Hb]. eauto.
Qed.

Lemma find_none {A} (f : A -> bool) (l : list A) :
  List.find f l = None <-> Forall (fun y => f y = false) l.
Proof.
  induction l as [|y l IH]; simpl.
  - split; auto.
  - destruct (f y) eqn:E.
    + split; [discriminate|]. intros [Hy _]%Forall_cons. congruence.
    + rewrite IH. split; [auto|]. now intros [_ Hl]%Forall_cons.
Qed.

Lemma tryCandidates_find (w : World) (candidates : list jsstring) :
  tryCandidates w candidates = Normal (List.find (isRegularFile w) candidates).
Proof.
  induction candidates as [|c r IH]; simpl; [reflexivity|].
  unfold isRegularFile. destruct (stat (fs w) c) as [stats|e]; simpl.
  - destruct (isFile stats); [reflexivity|exact IH].
  - exact IH.
Qed.

Lemma candidatesOf_cons (root : jsstring) (roots : list jsstring)
  (variants : list (list jsstring)) :
  candidatesOf (root :: roots) variants
  = candidatesOf [root] variants ++ candidatesOf roots variants.
Proof. unfold candidatesOf. simpl. now rewrite app_nil_r. Qed.

Lemma candidatesOf_variant (root : jsstring) (variant : list jsstring)
  (variants : list (list jsstring)) :
  candidatesOf [root] (variant :: variants)
  = [Path.join (root :: lit "Documents" :: variant); Path.join (root :: variant)]
    ++ candidatesOf [root] variants.
Proof. unfold candidatesOf. simpl. now rewrite !app_nil_r. Qed.

Lemma tryVariants_find (w : World) (root : jsstring) (variants : list (list jsstring)) :
  tryVariants w root variants =
  Normal (List.find (isRegularFile w) (candidatesOf [root] variants)).
Proof.
  induction variants as [|v r IH]; [reflexivity|].
  cbn [tryVariants]. rewrite candidatesOf_variant, tryCandidates_find, find_app_first, IH.
  cbn [mbind Completion_bind].
  destruct (List.find _ [_; _]); reflexivity.
Qed.

Lemma tryRoots_find (w : World) (roots : list jsstring) (variants : list (list jsstring)) :
  tryRoots w roots variants =
  Normal (List.find (isRegularFile w) (candidatesOf roots variants)).
Proof.
  induction roots as [|root r IH]; [reflexivity|].
  cbn [tryRoots]. rewrite tryVariants_find, (candidatesOf_cons root r), find_app_first, IH.
  cbn [mbind Completion_bind].
  destruct (List.find (isRegularFile w) (candidatesOf [root] variants)); reflexivity.
Qed.

Lemma getOneDriveRoots_syncRoots (w : World) : getOneDriveRoots w = Normal (syncRoots w).
Proof.
  unfold getOneDriveRoots, syncRoots.
  destruct (readdir (fs w) _); reflexivity.
Qed.

Section WithHostParser.
Context `{HostParser}.

(** The mapper, stage by stage. *)
Lemma mapSharePointUrlToLocalPath_stages (w : World) (urlValue : jsstring) :
  mapSharePointUrlToLocalPath w urlValue =
  match newURL urlValue with
  | Throw _ => Normal None
  | Normal parsed =>
      if includes (hostname parsed) (lit "sharepoint.com") then
        match relativeSegmentsOf (decodedSegments parsed) with
        | Some relativeSegments =>
            Normal (List.find (isRegularFile w)
                      (candidatesOf (syncRoots w) (relativeVariantsOf relativeSegments)))
        | None => Normal None
        end
      else Normal None
  end.
Proof.
  unfold mapSharePointUrlToLocalPath.
  destruct (newURL urlValue) as [parsed|e]; [|reflexivity].
  destruct (includes (hostname parsed) (lit "sharepoint.com")); [|reflexivity].
  cbn [negb]. unfold relativeSegmentsOf. fold (decodedSegments parsed).
  fold isDocuments.
  destruct (findIndex isDocuments (decodedSegments parsed)) as [docsIndex|];
    [|reflexivity].
  rewrite getOneDriveRoots_syncRoots. cbn [mbind Completion_bind].
  rewrite tryRoots_find.
  destruct (drop (docsIndex + 1) (decodedSegments parsed)) as [|first others];
    [reflexivity|].
  fold (isDocuments first). destruct (isDocuments first); reflexivity.
Qed.

Lemma mapSharePointUrlToLocalPath_total (w : World) (urlValue : jsstring) :
  exists mapped, mapSharePointUrlToLocalPath w urlValue = Normal mapped.
Proof.
  rewrite mapSharePointUrlToLocalPath_stages.
  destruct (newURL urlValue) as [parsed|e]; [|eauto].
  destruct (includes _ _); [|eauto].
  destruct (relativeSegmentsOf _); eauto.
Qed.

End WithHostParser.

(** C3. Once the relative segments are known, the mapper goes through the
    sync roots, for each root through the variants, and for each variant
    tries [root/Documents/variant] and then [root/variant]; it returns the
    first of these candidates that [stat] reports as a regular file, a
    failing [stat] counting as no file, and no match (not an error) when
    no candidate qualifies. *)
Theorem mapSharePointUrlToLocalPath_search `{HostParser}
  (w : World) (urlValue : jsstring) (parsed : URL) (relativeSegments : list jsstring) :
  newURL urlValue = Normal parsed ->
  (exists a b, hostname parsed = a ++ lit "sharepoint.com" ++ b) ->
  relativeSegmentsOf (decodedSegments parsed) = Some relativeSegments ->
  let candidates := candidatesOf (syncRoots w) (relativeVariantsOf relativeSegments) in
  mapSharePointUrlToLocalPath w urlValue
    = Normal (List.find (isRegularFile w) candidates)
  /\ (forall hit,
        mapSharePointUrlToLocalPath w urlValue = Normal (Some hit) <->
        exists before after,
          candidates = before ++ hit :: after
          /\ (exists stats, stat (fs w) hit = Normal stats /\ isFile stats = true)
          /\ Forall (fun c => forall stats,
                       stat (fs w) c = Normal stats -> isFile stats = false) before)
  /\ (mapSharePointUrlToLocalPath w urlValue = Normal None <->
      Forall (fun c => forall stats,
                stat (fs w) c = Normal stats -> isFile stats = false) candidates).
Proof.
  intros Hu Hh%includes_spec Hr candidates.
  assert (forall c, isRegularFile w c = false <->
                    forall stats, stat (fs w) c = Normal stats -> isFile stats = false)
    as Hnot.
  { intros c. unfold isRegularFile. destruct (stat (fs w) c) as [s|e].
    - split; [now intros E s' [= <-]|auto].
    - split; [discriminate|reflexivity]. }
  assert (forall c, isRegularFile w c = true <->
                    exists stats, stat (fs w) c = Normal stats /\ isFile stats = true)
    as Hyes.
  { intros c. unfold isRegularFile. destruct (stat (fs w) c) as [s|e].
    - split; [eauto|now intros (s' & [= <-] & E)].
    - split; [discriminate|now intros (s' & ? & _)]. }
  assert (mapSharePointUrlToLocalPath w urlValue
          = Normal (List.find (isRegularFile w) candidates)) as Hm.
  { rewrite mapSharePointUrlToLocalPath_stages, Hu, Hh, Hr. reflexivity. }
  split; [exact Hm|]. rewrite Hm. split.
  - intros hit. split.
    + intros [= (b & a & E & Hx & Hb)%find_first]. exists b, a.
      split; [exact E|]. split; [now apply Hyes|].
      eapply Forall_impl; [exact Hb|]. intros c. apply Hnot.
    + intros (b & a & E & Hx & Hb). f_equal. apply find_first. exists b, a.
      split; [exact E|]. split; [now apply Hyes|].
      eapply Forall_impl; [exact Hb|]. intros c. apply Hnot.
  - split.
    + intros [= Hn%find_none]. eapply Forall_impl; [exact Hn|]. intros c. apply Hnot.
    + intros Hn. f_equal. apply find_none.
      eapply Forall_impl; [exact Hn|]. intros c. apply Hnot.
Qed.

(** The synced copy of [Reports/Q1.docx] is found directly under the root,
    after [Documents/Reports/Q1.docx] was tried first. *)
Lemma mapSharePointUrlToLocalPath_search_witness :
  syncRoots (mac syncedFS []) = [lit "/Users/me/Library/CloudStorage/OneDrive-Contoso"]
  /\ candidatesOf (syncRoots (mac syncedFS [])) (relativeVariantsOf [lit "Reports"; lit "Q1.docx"])
     = [lit "/Users/me/Library/CloudStorage/OneDrive-Contoso/Documents/Reports/Q1.docx";
        lit "/Users/me/Library/CloudStorage/OneDrive-Contoso/Reports/Q1.docx";
        lit "/Users/me/Library/CloudStorage/OneDrive-Contoso/Documents/Reports/Q/1.docx";
        lit "/Users/me/Library/CloudStorage/OneDrive-Contoso/Reports/Q/1.docx"]
  /\ @mapSharePointUrlToLocalPath plainHostParser (mac syncedFS []) cloudUrl
     = Normal (Some (lit "/Users/me/Library/CloudStorage/OneDrive-Contoso/Reports/Q1.docx")).
Proof.
  split; [reflexivity|]. split; [reflexivity|].
  refine (eq_trans
            (proj1 (@mapSharePointUrlToLocalPath_search plainHostParser
                      (mac syncedFS []) cloudUrl
                      {| scheme := lit "https";
                         host := Some (lit "contoso.sharepoint.com");
                         path := Segments [lit "sites"; lit "Team"; lit "Documents";
                                           lit "Reports"; lit "Q1.docx"] |}
                      [lit "Reports"; lit "Q1.docx"] _ _ _)) _).
  - reflexivity.
  - exists (lit "contoso."), []. reflexivity.
  - reflexivity.
  - reflexivity.
Defined.

(** C5. The mapper returns no match, and does not throw, when the text
    does not parse as a URL, when the host name of the URL does not contain
    [sharepoint.com], when no decoded path segment equals ["documents"] up
    to letter case, and when the cloud-storage container of the user cannot
    be listed (so that there is no sync root). *)
Theorem mapSharePointUrlToLocalPath_declines `{HostParser}
  (w : World) (urlValue : jsstring) :
  (exists e, newURL urlValue = Throw e)
  \/ (exists parsed,
        newURL urlValue = Normal parsed
        /\ ~ exists a b, hostname parsed = a ++ lit "sharepoint.com" ++ b)
  \/ (exists parsed,
        newURL urlValue = Normal parsed
        /\ Forall (fun segment => toLowerCase segment <> lit "documents")
             (decodedSegments parsed))
  \/ (exists e,
        readdir (fs w) (Path.join [homedir w; lit "Library"; lit "CloudStorage"])
        = Throw e) ->
  mapSharePointUrlToLocalPath w urlValue = Normal None.
Proof.
  rewrite mapSharePointUrlToLocalPath_stages.
  intros [[e ->]|[(parsed & -> & Hh)|[(parsed & -> & Hs)|[e He]]]].
  - reflexivity.
  - destruct (includes _ _) eqn:E; [|reflexivity].
    apply includes_spec in E. contradiction.
  - destruct (includes _ _); [|reflexivity].
    assert (findIndex isDocuments (decodedSegments parsed) = None) as Hf.
    { induction (decodedSegments parsed) as [|s l IH]; [reflexivity|].
      apply Forall_cons in Hs as [Hs Hl]. simpl. unfold isDocuments at 1.
      apply streq_false in Hs. rewrite Hs. now rewrite IH. }
    unfold relativeSegmentsOf. now rewrite Hf.
  - destruct (newURL urlValue) as [parsed|]; [|reflexivity].
    destruct (includes _ _); [|reflexivity].
    destruct (relativeSegmentsOf _); [|reflexivity].
    unfold syncRoots. rewrite He. reflexivity.
Qed.

End MapperSpec.

Import MapperSpec.

Module MapperDeclines.
Import Url Sample.

(** One input for each way of declining. *)
Lemma mapSharePointUrlToLocalPath_declines_witness :
  @mapSharePointUrlToLocalPath plainHostParser (mac syncedFS []) (lit "Reports/Q1.docx")
    = Normal None
  /\ @mapSharePointUrlToLocalPath plainHostParser (mac syncedFS [])
       (lit "https://example.com/sites/Team/Documents/Reports/Q1.docx")
     = Normal None
  /\ @mapSharePointUrlToLocalPath plainHostParser (mac syncedFS [])
       (lit "https://contoso.sharepoint.com/sites/Team/Reports/Q1.docx")
     = Normal None
  /\ @mapSharePointUrlToLocalPath plainHostParser (mac bareFS []) cloudUrl
     = Normal None.
Proof.
  split; [|split; [|split]]; apply mapSharePointUrlToLocalPath_declines.
  - left. exists (TypeError (lit "Invalid URL")). vm_compute. reflexivity.
  - right. left.
    exists {| scheme := lit "https"; host := Some (lit "example.com");
              path := Segments [lit "sites"; lit "Team"; lit "Documents";
                                lit "Reports"; lit "Q1.docx"] |}.
    split; [vm_compute; reflexivity|].
    intros Hc. apply includes_spec in Hc. vm_compute in Hc. discriminate Hc.
  - right. right. left.
    exists {| scheme := lit "https"; host := Some (lit "contoso.sharepoint.com");
              path := Segments [lit "sites"; lit "Team"; lit "Reports";
                                lit "Q1.docx"] |}.
    split; [vm_compute; reflexivity|].
    change (Forall (fun segment => toLowerCase segment <> lit "documents")
              [lit "sites"; lit "Team"; lit "Reports"; lit "Q1.docx"]).
    repeat (apply Forall_cons_2;
            [intros Hc; vm_compute in Hc; discriminate Hc|]).
    apply Forall_nil_2.
  - right. right. right. exists (SystemError (lit "ENOENT")). vm_compute. reflexivity.
Defined.

End MapperDeclines.

(** ** The resolution orchestrator *)
Module OrchestratorSpec.
Import Url Sample.

(** C1, as stated, fails: the scheme markers are looked for in the
    lowered path, so an upper-case [HTTP://] is URL-shaped although the
    path neither starts with nor contains any of the four markers. *)
Lemma isProbablyUrlPath_ignores_case :
  isProbablyUrlPath (lit "HTTP://EXAMPLE.COM/Q1.DOCX") = true
  /\ startsWith (lit "HTTP://EXAMPLE.COM/Q1.DOCX") (lit "http://") = false
  /\ startsWith (lit "HTTP://EXAMPLE.COM/Q1.DOCX") (lit "https://") = false
  /\ includes (lit "HTTP://EXAMPLE.COM/Q1.DOCX") (lit "http:") = false
  /\ includes (lit "HTTP://EXAMPLE.COM/Q1.DOCX") (lit "https:") = false.
Proof. repeat split. Qed.

Lemma isProbablyUrlPath_spec (value : jsstring) :
  isProbablyUrlPath value = true <->
  (exists rest, toLowerCase value = lit "http://" ++ rest)
  \/ (exists rest, toLowerCase value = lit "https://" ++ rest)
  \/ (exists a b, toLowerCase value = a ++ lit "http:" ++ b)
  \/ (exists a b, toLowerCase value = a ++ lit "https:" ++ b).
Proof.
  unfold isProbablyUrlPath. rewrite !orb_true_iff, !startsWith_spec, !includes_spec.
  tauto.
Qed.

(** On the sample machine every script prints the prepared output. *)
Lemma runAppleScript_mac (files : FileSystem) (output script : jsstring) (env : Env) :
  runAppleScript (mac files output) script env
  = (Normal output,
     envAssign (lit "LC_ALL") (envGet (lit "LC_ALL") env)
       (envDelete (lit "LC_ALL") env)).
Proof. reflexivity. Qed.

Section WithHostParser.
Context `{HostParser}.

Lemma getDocumentAppPath_value (w : World) (app : DocumentApp) (env env' : Env)
  (raw documentPath : jsstring) :
  runAppleScript w (buildDocumentPathScript app) env = (Normal raw, env') ->
  normalizeFileManagerResult raw = Normal documentPath ->
  documentPath <> [] ->
  getDocumentAppPath w app env = (Normal documentPath, env').
Proof.
  intros Hr Hn Hp%truthy_true.
  unfold getDocumentAppPath, mbind, Action_bind, liftAction.
  now rewrite Hr, Hn, Hp.
Qed.

(** C1, amended. When the script of a document application yields a
    result that normalizes to a non-empty path, that path is URL-shaped
    exactly when, with its ASCII letters lowered, it starts with [http://]
    or [https://] or contains [http:] or [https:]. For a URL-shaped path
    the cloud mapping is attempted, it does not throw, and the result
    carries the normalized path as [documentPath] and, separately, the
    mapped local path as [resolvedPath], the empty string when there is no
    local match. A path that is not URL-shaped is its own resolved
    path. *)
Theorem resolveDocumentAppPathForOpen_spec
  (w : World) (app : DocumentApp) (env env' : Env) (raw documentPath : jsstring) :
  runAppleScript w (buildDocumentPathScript app) env = (Normal raw, env') ->
  normalizeFileManagerResult raw = Normal documentPath ->
  documentPath <> [] ->
  (isProbablyUrlPath documentPath = true <->
   (exists rest, toLowerCase documentPath = lit "http://" ++ rest)
   \/ (exists rest, toLowerCase documentPath = lit "https://" ++ rest)
   \/ (exists a b, toLowerCase documentPath = a ++ lit "http:" ++ b)
   \/ (exists a b, toLowerCase documentPath = a ++ lit "https:" ++ b))
  /\ exists mapped,
       mapSharePointUrlToLocalPath w documentPath = Normal mapped
       /\ (isProbablyUrlPath documentPath = true ->
           resolveDocumentAppPathForOpen w app env =
             (Normal {| documentPath := documentPath;
                        resolvedPath := match mapped with
                                        | Some localPath => localPath
                                        | None => []
                                        end |}, env'))
       /\ (isProbablyUrlPath documentPath = false ->
           resolveDocumentAppPathForOpen w app env =
             (Normal {| documentPath := documentPath;
                        resolvedPath := documentPath |}, env')).
Proof.
  intros Hr Hn Hp. split; [apply isProbablyUrlPath_spec|].
  destruct (mapSharePointUrlToLocalPath_total w documentPath) as [mapped Hm].
  exists mapped. split; [exact Hm|].
  pose proof (getDocumentAppPath_value w app env env' raw documentPath Hr Hn Hp) as Hg.
  unfold resolveDocumentAppPathForOpen, mbind, Action_bind. rewrite Hg.
  split; intros ->; [|reflexivity].
  unfold liftAction. rewrite Hm. now destruct mapped.
Qed.

End WithHostParser.

(** The end-to-end scenario of the specification: Word reports a cloud URL
    and nothing under the sync root matches it. *)
Lemma resolveDocumentAppPathForOpen_spec_witness :
  exists env',
    @resolveDocumentAppPathForOpen plainHostParser
      (mac emptySyncFS (cloudUrl ++ [10])) MicrosoftWord ∅
    = (Normal {| documentPath := cloudUrl; resolvedPath := [] |}, env').
Proof.
  eexists.
  destruct (@resolveDocumentAppPathForOpen_spec plainHostParser
              (mac emptySyncFS (cloudUrl ++ [10])) MicrosoftWord ∅ _
              (cloudUrl ++ [10]) cloudUrl
              (runAppleScript_mac _ _ _ _)
              ltac:(vm_compute; reflexivity) ltac:(discriminate))
    as (_ & mapped & Hm & Hurl & _).
  rewrite (Hurl ltac:(vm_compute; reflexivity)).
  assert (mapped = None) as -> by (vm_compute in Hm; now injection Hm).
  reflexivity.
Defined.

Lemma dirname_parent (dir name : jsstring) :
  dir <> [] -> last dir <> Some 47 -> name <> [] ->
  forallb (fun c => negb (c =? 47)) name = true ->
  Path.dirname (dir ++ 47 :: name) = dir.
Proof.
  intros Hd Hl Hn Hs. destruct dir as [|c dir']; [contradiction|].
  unfold Path.dirname. cbn [app].
  rewrite rev_app_distr. cbn [rev]. rewrite <- app_assoc. cbn [app].
  destruct (rev name) as [|x rn] eqn:Er.
  { apply (f_equal (@rev N)) in Er. rewrite rev_involutive in Er. contradiction. }
  assert (forallb (fun c => negb (c =? 47)) (x :: rn) = true) as Hrn.
  { rewrite <- Er. rewrite forallb_forall in *. intros y Hy. apply Hs.
    now apply in_rev. }
  cbn [forallb] in Hrn. apply andb_true_iff in Hrn as [Hx Hrn].
  cbn [app]. assert ((47 =? x) = false) as Hx'.
  { apply negb_true_iff, N.eqb_neq in Hx. apply N.eqb_neq. congruence. }
  rewrite dropWhile_stop by exact Hx'.
  assert (forall l, forallb (fun c => negb (c =? 47)) l = true ->
                    dropWhile (fun d => negb (d =? 47)) (l ++ 47 :: rev dir')
                    = 47 :: rev dir') as Hdrop.
  { induction l as [|y l IH]; simpl; [reflexivity|].
    intros [-> Hl']%andb_true_iff. auto. }
  change (x :: rn ++ 47 :: rev dir') with ((x :: rn) ++ 47 :: rev dir').
  rewrite Hdrop by (cbn [forallb]; now rewrite Hx, Hrn).
  rewrite rev_involutive.
  destruct (rev dir') as [|d rd] eqn:Erd; [|now rewrite andb_false_r].
  apply (f_equal (@rev N)) in Erd. rewrite rev_involutive in Erd. subst dir'.
  destruct (N.eqb_spec c 47) as [->|_]; [|reflexivity].
  now contradiction Hl.
Qed.

(** C6. On a file system where the empty path names nothing,
    [resolveOpenPath] returns the containing directory, [dirname] of the
    path, when [stat] reports a regular file, and the path itself when
    [stat] reports anything else (a directory) or fails (the path does not
    exist or cannot be read); it does not throw. The [dirname] of
    [dir/name] is [dir]. *)
Theorem resolveOpenPath_spec (w : World) (pathValue : jsstring) :
  (exists e, stat (fs w) [] = Throw e) ->
  ((exists stats, stat (fs w) pathValue = Normal stats /\ isFile stats = true) ->
   resolveOpenPath w pathValue = Normal (Path.dirname pathValue))
  /\ ((exists stats, stat (fs w) pathValue = Normal stats /\ isFile stats = false)
      \/ (exists e, stat (fs w) pathValue = Throw e) ->
      resolveOpenPath w pathValue = Normal pathValue)
  /\ (exists target, resolveOpenPath w pathValue = Normal target)
  /\ (forall dir name,
        dir <> [] -> last dir <> Some 47 -> name <> [] ->
        forallb (fun c => negb (c =? 47)) name = true ->
        Path.dirname (dir ++ 47 :: name) = dir).
Proof.
  intros [e0 Hempty]. unfold resolveOpenPath.
  destruct pathValue as [|c r].
  - cbn [truthy negb]. repeat split; eauto using dirname_parent.
    intros (stats & Hs & _). congruence.
  - cbn [truthy negb]. repeat split.
    + intros (stats & -> & Hf). simpl. now rewrite Hf.
    + intros [(stats & -> & Hf)|[e ->]]; simpl; [now rewrite Hf|reflexivity].
    + destruct (stat (fs w) (c :: r)) as [stats|e]; simpl; [|eauto].
      destruct (isFile stats); eauto.
    + apply dirname_parent.
Qed.

Lemma resolveOpenPath_spec_witness :
  resolveOpenPath (mac syncedFS [])
    (lit "/Users/me/Library/CloudStorage/OneDrive-Contoso/Reports/Q1.docx")
    = Normal (lit "/Users/me/Library/CloudStorage/OneDrive-Contoso/Reports")
  /\ resolveOpenPath (mac syncedFS [])
       (lit "/Users/me/Library/CloudStorage/OneDrive-Contoso/Reports")
     = Normal (lit "/Users/me/Library/CloudStorage/OneDrive-Contoso/Reports")
  /\ resolveOpenPath (mac syncedFS []) (lit "/nowhere/x.txt")
     = Normal (lit "/nowhere/x.txt").
Proof.
  pose proof (fun p =>
    resolveOpenPath_spec (mac syncedFS []) p
      (ex_intro _ (SystemError (lit "ENOENT")) eq_refl)) as Hspec.
  split; [|split].
  - refine (eq_trans (proj1 (Hspec _) _) _); [|vm_compute; reflexivity].
    exists {| isFile := true; isDirectory := false |}.
    split; [vm_compute; reflexivity|reflexivity].
  - apply (proj1 (proj2 (Hspec _))). left.
    exists {| isFile := false; isDirectory := true |}.
    split; [vm_compute; reflexivity|reflexivity].
  - apply (proj1 (proj2 (Hspec _))). right.
    exists (SystemError (lit "ENOENT")). vm_compute. reflexivity.
Defined.

End OrchestratorSpec.

(** ** Failures and decoding in the orchestrator *)
Module OrchestratorExtras.
Import Url Sample.

Section WithHostParser.
Context `{HostParser}.

(** X6. A script result that normalizes to the empty string makes
    [getFileManagerPath] and [getDocumentAppPath] throw an error that
    names the application. *)
Theorem empty_result_is_failure (w : World) (env env' : Env) (raw : jsstring) :
  normalizeFileManagerResult raw = Normal [] ->
  (forall fileManager : FileManager,
     runAppleScript w (buildFileManagerPathScript fileManager) env = (Normal raw, env') ->
     getFileManagerPath w fileManager env =
       (Throw (Error (fileManagerName fileManager ++ lit " returned an empty path")),
        env'))
  /\ (forall app : DocumentApp,
        runAppleScript w (buildDocumentPathScript app) env = (Normal raw, env') ->
        getDocumentAppPath w app env =
          (Throw (Error (documentAppName app ++ lit " returned an empty path")), env')).
Proof.
  intros Hn. split.
  - intros fileManager Hr. unfold getFileManagerPath, mbind, Action_bind, liftAction.
    now rewrite Hr, Hn.
  - intros app Hr. unfold getDocumentAppPath, mbind, Action_bind, liftAction.
    now rewrite Hr, Hn.
Qed.

(** X7. A failure of the script reaches the caller of
    [resolveDocumentAppPathForOpen] and of [getFileManagerPath] as it is:
    same exception, same environment. *)
Theorem script_failure_propagates (w : World) (env env' : Env) (e : Exception) :
  (forall app : DocumentApp,
     runAppleScript w (buildDocumentPathScript app) env = (Throw e, env') ->
     resolveDocumentAppPathForOpen w app env = (Throw e, env'))
  /\ (forall fileManager : FileManager,
        runAppleScript w (buildFileManagerPathScript fileManager) env = (Throw e, env') ->
        getFileManagerPath w fileManager env = (Throw e, env')).
Proof.
  split.
  - intros app Hr.
    unfold resolveDocumentAppPathForOpen, getDocumentAppPath, mbind, Action_bind.
    now rewrite Hr.
  - intros fileManager Hr. unfold getFileManagerPath, mbind, Action_bind.
    now rewrite Hr.
Qed.

End WithHostParser.

Lemma empty_result_is_failure_witness :
  exists env',
    @getFileManagerPath plainHostParser (mac bareFS (lit "missing value" ++ [10]))
      QSpacePro ∅
    = (Throw (Error (lit "QSpace Pro returned an empty path")), env').
Proof.
  eexists.
  apply (proj1 (@empty_result_is_failure plainHostParser
                  (mac bareFS (lit "missing value" ++ [10])) ∅ _
                  (lit "missing value" ++ [10]) ltac:(vm_compute; reflexivity))).
  apply OrchestratorSpec.runAppleScript_mac.
Defined.

(** The end-to-end scenario of the specification: Preview has no document
    open and the transport reports it. *)
Lemma script_failure_propagates_witness :
  exists env',
    @resolveDocumentAppPathForOpen plainHostParser
      {| platform := lit "darwin"; homedir := lit "/Users/me"; fs := bareFS;
         spawnSync := fun _ _ _ =>
           Normal {| stdout := Some [];
                     stderr := Some (lit "execution error: No document open (-2700)") |} |}
      Preview ∅
    = (Throw (Error (lit "execution error: No document open (-2700)")), env').
Proof.
  eexists.
  apply (proj1 (@script_failure_propagates plainHostParser _ ∅ _ _)).
  reflexivity.
Defined.

(** X9. A path segment is decoded with [+] read as a space and at most
    two rounds of percent-decoding: the second round is the last one, and
    a round that fails or changes nothing ends the decoding. *)
Theorem decodeSegment_rounds (value : jsstring) :
  decodeSegment value =
    match decodeURIComponent (replacePlus value) with
    | Throw _ => replacePlus value
    | Normal once =>
        match decodeURIComponent once with
        | Throw _ => once
        | Normal twice => if streq once (replacePlus value) then once else twice
        end
    end.
Proof.
  unfold decodeSegment. cbn [decodeRounds].
  destruct (decodeURIComponent (replacePlus value)) as [once|e]; [|reflexivity].
  destruct (streq once (replacePlus value)) eqn:E.
  - apply streq_true in E. subst once.
    destruct (decodeURIComponent (replacePlus value)); reflexivity.
  - destruct (decodeURIComponent once) as [twice|e]; [|reflexivity].
    destruct (streq twice once) eqn:E2; [|reflexivity].
    now apply streq_true in E2.
Qed.

End OrchestratorExtras.

(** ** The automation executor *)
Module ExecutorSpec.
Import Sample.

(** X4. On another platform the executor throws ["macOS only"] at once:
    the environment is not touched and nothing is executed. *)
Lemma runAppleScript_other_platform (w : World) (script : jsstring) (env : Env) :
  platform w <> lit "darwin" ->
  runAppleScript w script env = (Throw (Error (lit "macOS only")), env).
Proof.
  intros Hp%streq_false. unfold runAppleScript. now rewrite Hp.
Qed.

(** X3. A locale that was set is set again to the same value, whether
    the script then reports an error or not: the environment after the call
    is the environment before it. *)
Lemma runAppleScript_restores_set_locale (w : World) (script : jsstring) (env : Env)
  (locale : jsstring) (result : SpawnResult) :
  platform w = lit "darwin" ->
  envGet (lit "LC_ALL") env = Some locale ->
  spawnSync w (lit "osascript") [lit "-e"; script] (envDelete (lit "LC_ALL") env)
    = Normal result ->
  snd (runAppleScript w script env) = env.
Proof.
  intros Hp%streq_true Hl Hs. unfold runAppleScript. rewrite Hp, Hs, Hl.
  cbn [negb]. unfold envAssign, envDelete, envGet in *. simpl default.
  assert (<[lit "LC_ALL" := locale]> (delete (lit "LC_ALL") env) = env) as ->.
  { rewrite insert_delete_eq. now apply insert_id. }
  destruct (truthy _); [reflexivity|]. destruct (stdout result); reflexivity.
Qed.

Lemma runAppleScript_restores_set_locale_witness :
  snd (runAppleScript (mac bareFS (lit "/Users/me/"))
         (buildFileManagerPathScript Finder) {[ lit "LC_ALL" := lit "en_US.UTF-8" ]})
  = {[ lit "LC_ALL" := lit "en_US.UTF-8" ]}.
Proof.
  apply (runAppleScript_restores_set_locale (mac bareFS (lit "/Users/me/")) _ _
           (lit "en_US.UTF-8") {| stdout := Some (lit "/Users/me/"); stderr := Some [] |}).
  - reflexivity.
  - apply lookup_singleton_eq.
  - reflexivity.
Defined.

Lemma runAppleScript_other_platform_witness :
  runAppleScript
    {| platform := lit "linux"; homedir := lit "/home/me"; fs := bareFS;
       spawnSync := fun _ _ _ => Normal {| stdout := Some []; stderr := Some [] |} |}
    (buildFileManagerPathScript Finder) ∅
  = (Throw (Error (lit "macOS only")), ∅).
Proof.
  apply (runAppleScript_other_platform
           {| platform := lit "linux"; homedir := lit "/home/me"; fs := bareFS;
              spawnSync := fun _ _ _ =>
                Normal {| stdout := Some []; stderr := Some [] |} |}).
  discriminate.
Defined.

(** X5. A non-empty error stream is a failure that carries the text of
    the stream as it is, whatever was printed on the output stream. *)
Theorem runAppleScript_stderr_is_failure (w : World) (script : jsstring) (env : Env)
  (result : SpawnResult) (message : jsstring) :
  platform w = lit "darwin" ->
  spawnSync w (lit "osascript") [lit "-e"; script] (envDelete (lit "LC_ALL") env)
    = Normal result ->
  stderr result = Some message -> message <> [] ->
  fst (runAppleScript w script env) = Throw (Error message).
Proof.
  intros Hp%streq_true Hs He Hm%truthy_true. unfold runAppleScript.
  rewrite Hp, Hs, He. simpl. now rewrite Hm.
Qed.

Lemma runAppleScript_stderr_is_failure_witness :
  fst (runAppleScript
         {| platform := lit "darwin"; homedir := lit "/Users/me"; fs := bareFS;
            spawnSync := fun _ _ _ =>
              Normal {| stdout := Some (lit "/tmp");
                        stderr := Some (lit "execution error: No document open (-2700)") |} |}
         (buildDocumentPathScript Preview) ∅)
  = Throw (Error (lit "execution error: No document open (-2700)")).
Proof.
  apply (runAppleScript_stderr_is_failure _ _ _
           {| stdout := Some (lit "/tmp");
              stderr := Some (lit "execution error: No document open (-2700)") |}).
  - reflexivity.
  - reflexivity.
  - reflexivity.
  - discriminate.
Defined.

(** A locale that was not set comes back as the string ["undefined"]. *)
Lemma runAppleScript_unset_locale (w : World) (script : jsstring) (env : Env)
  (result : SpawnResult) :
  platform w = lit "darwin" ->
  envGet (lit "LC_ALL") env = None ->
  spawnSync w (lit "osascript") [lit "-e"; script] (envDelete (lit "LC_ALL") env)
    = Normal result ->
  envGet (lit "LC_ALL") (snd (runAppleScript w script env)) = Some (lit "undefined").
Proof.
  intros Hp%streq_true Hl Hs. unfold runAppleScript. rewrite Hp, Hs, Hl.
  cbn [negb]. unfold envAssign, envDelete, envGet in *. simpl default.
  destruct (truthy _); [|destruct (stdout result)]; simpl snd;
    apply lookup_insert_eq.
Qed.

(** When [spawnSync] itself throws, the assignment that restores the
    locale is not reached. *)
Lemma runAppleScript_spawn_throws (w : World) (script : jsstring) (env : Env)
  (e : Exception) :
  platform w = lit "darwin" ->
  spawnSync w (lit "osascript") [lit "-e"; script] (envDelete (lit "LC_ALL") env)
    = Throw e ->
  runAppleScript w script env = (Throw e, envDelete (lit "LC_ALL") env).
Proof.
  intros Hp%streq_true Hs. unfold runAppleScript. now rewrite Hp, Hs.
Qed.

(** C7 does not hold of the code: started without [LC_ALL], a successful
    run of the Finder script leaves [LC_ALL] set to ["undefined"]. *)
Lemma runAppleScript_leaves_LC_ALL_undefined :
  envGet (lit "LC_ALL") (∅ : Env) = None
  /\ fst (runAppleScript (mac bareFS (lit "/Users/me/")) (buildFileManagerPathScript Finder) ∅)
     = Normal (lit "/Users/me/")
  /\ envGet (lit "LC_ALL")
       (snd (runAppleScript (mac bareFS (lit "/Users/me/"))
               (buildFileManagerPathScript Finder) ∅))
     = Some (lit "undefined").
Proof.
  split; [apply lookup_empty|]. split; [reflexivity|].
  now apply runAppleScript_unset_locale
    with (result := {| stdout := Some (lit "/Users/me/"); stderr := Some [] |}).
Qed.

End ExecutorSpec.

(** ** The script registry *)
Module RegistrySpec.

(** The only script made for a terminal is the one of
    [applicationToFileManager] in [actors.ts]: it names the terminal and
    the file manager, sends keystrokes, and asks for no path. *)
Lemma applicationToFileManagerScript_names_terminal (name : Terminal)
  (fileManager : FileManager) :
  applicationToFileManagerScript name fileManager <> []
  /\ exists a b,
       applicationToFileManagerScript name fileManager = a ++ terminalName name ++ b.
Proof.
  split; [apply truthy_true|apply includes_spec];
    destruct name, fileManager; vm_compute; reflexivity.
Qed.

(** C8. Every identity is a member of the list of its family. For every
    file manager and every document application the registry has a branch:
    the script built for it is a non-empty text that contains the name of
    the identity. For no terminal does the registry have a branch: neither
    builder has a case for the name of a terminal. *)
Theorem buildScript_total :
  (forall fileManager : FileManager,
     In fileManager FILE_MANAGERS
     /\ specBuildScript (fileManagerName fileManager)
        = Some (buildFileManagerPathScript fileManager)
     /\ buildFileManagerPathScript fileManager <> []
     /\ exists a b,
          buildFileManagerPathScript fileManager = a ++ fileManagerName fileManager ++ b)
  /\ (forall app : DocumentApp,
        In app DOCUMENT_APPS
        /\ specBuildScript (documentAppName app) = Some (buildDocumentPathScript app)
        /\ buildDocumentPathScript app <> []
        /\ exists a b, buildDocumentPathScript app = a ++ documentAppName app ++ b)
  /\ (forall name : Terminal,
        In name TERMINALS /\ specBuildScript (terminalName name) = None).
Proof.
  split; [|split].
  - intros fileManager. split; [destruct fileManager; simpl; tauto|].
    split; [destruct fileManager; vm_compute; reflexivity|].
    split; [apply truthy_true|apply includes_spec];
      destruct fileManager; vm_compute; reflexivity.
  - intros app. split; [destruct app; simpl; tauto|].
    split; [destruct app; vm_compute; reflexivity|].
    split; [apply truthy_true|apply includes_spec];
      destruct app; vm_compute; reflexivity.
  - intros name. split; [destruct name; simpl; tauto|].
    destruct name; vm_compute; reflexivity.
Qed.

(** C8 does not hold of the terminals: ["iTerm"] is a terminal and one of
    the sources, and the registry builds no script for it. *)
Lemma terminal_has_no_script :
  In ITerm TERMINALS
  /\ In (terminalName ITerm) sources
  /\ specBuildScript (terminalName ITerm) = None.
Proof.
  split; [simpl; tauto|]. split; [vm_compute; tauto|]. vm_compute. reflexivity.
Qed.

End RegistrySpec.

(** * Further properties of the code *)

Import PathFacts Url.

(** ** Percent-encoding and decoding *)
Module CodecFacts.

Ltac div_lia := zify; Z.to_euclidean_division_equations; lia.

Lemma hexValue_hexDigit (n : N) : n < 16 -> hexValue (hexDigit n) = Some n.
Proof.
  intros Hn. unfold hexDigit, hexValue, isDigit.
  destruct (N.ltb_spec n 10).
  - assert ((48 <=? 48 + n) && (48 + n <=? 57) = true) as ->.
    { apply andb_true_iff. split; apply N.leb_le; lia. }
    f_equal. lia.
  - assert ((48 <=? 55 + n) && (55 + n <=? 57) = false) as ->.
    { apply andb_false_iff. right. apply N.leb_gt. lia. }
    assert ((65 <=? 55 + n) && (55 + n <=? 70) = true) as ->.
    { apply andb_true_iff. split; apply N.leb_le; lia. }
    f_equal. lia.
Qed.

Lemma uriTokens_percentByte (b : N) (r : jsstring) :
  b < 256 -> uriTokens (percentByte b ++ r) = cons (Octet b) <$> uriTokens r.
Proof.
  intros Hb. unfold percentByte. cbn [app uriTokens]. rewrite N.eqb_refl.
  rewrite (hexValue_hexDigit (b / 16)), (hexValue_hexDigit (b mod 16)) by div_lia.
  destruct (uriTokens r) as [ts|]; [|reflexivity].
  cbn [fmap option_fmap option_map]. do 3 f_equal. div_lia.
Qed.

Lemma uriTokens_percentBytes (bs : list N) (r : jsstring) :
  Forall (fun b => b < 256) bs ->
  uriTokens (flat_map percentByte bs ++ r) = app (map Octet bs) <$> uriTokens r.
Proof.
  induction 1 as [|b bs Hb _ IH]; cbn [flat_map map app].
  - destruct (uriTokens r); reflexivity.
  - rewrite <- app_assoc, uriTokens_percentByte by exact Hb. rewrite IH.
    destruct (uriTokens r); reflexivity.
Qed.

Lemma utf8_bytes (c : N) : c < 65536 -> Forall (fun b => b < 256) (utf8 c).
Proof.
  intros Hc. unfold utf8.
  destruct (N.ltb_spec c 128); [repeat constructor; lia|].
  destruct (N.ltb_spec c 2048); [repeat constructor; div_lia|].
  destruct (N.ltb_spec c 65536); [|lia].
  repeat constructor; div_lia.
Qed.

Lemma isScalarUnit_bound (c : N) : isScalarUnit c = true -> c < 65536.
Proof.
  unfold isScalarUnit. rewrite orb_true_iff, andb_true_iff, !N.ltb_lt. lia.
Qed.

Lemma uriTokens_encode (c : N) (r : jsstring) :
  c <> 37 -> isScalarUnit c = true ->
  uriTokens (encodeWith inPathSet c ++ r) = app (tokensOf c) <$> uriTokens r.
Proof.
  intros Hp Hs. unfold encodeWith, tokensOf. destruct (inPathSet c).
  - apply uriTokens_percentBytes, utf8_bytes. now apply isScalarUnit_bound.
  - cbn [app uriTokens]. apply N.eqb_neq in Hp. rewrite Hp.
    destruct (uriTokens r); reflexivity.
Qed.

Lemma decodeOctets_tokensOf (c : N) (ts : list UriToken) :
  isScalarUnit c = true ->
  decodeOctets (tokensOf c ++ ts) = cons c <$> decodeOctets ts.
Proof.
  intros Hs. unfold tokensOf. destruct (inPathSet c); [|reflexivity].
  unfold isScalarUnit in Hs.
  rewrite orb_true_iff, andb_true_iff, !N.ltb_lt, N.leb_le in Hs.
  unfold utf8.
  destruct (N.ltb_spec c 128) as [H1|H1].
  { cbn [map app decodeOctets]. apply N.ltb_lt in H1. now rewrite H1. }
  destruct (N.ltb_spec c 2048) as [H2|H2].
  { cbn [map app decodeOctets].
    assert ((192 + c / 64 <? 128) = false) as -> by (apply N.ltb_ge; div_lia).
    assert ((194 <=? 192 + c / 64) && (192 + c / 64 <=? 223) = true) as ->.
    { apply andb_true_iff. split; apply N.leb_le; div_lia. }
    assert (isContinuation (128 + c mod 64) = true) as ->.
    { unfold isContinuation. apply andb_true_iff. split; apply N.leb_le; div_lia. }
    assert ((192 + c / 64 - 192) * 64 + (128 + c mod 64 - 128) = c) as -> by div_lia.
    unfold utf16. assert ((c <? 65536) = true) as -> by (apply N.ltb_lt; div_lia).
    reflexivity. }
  destruct (N.ltb_spec c 65536) as [H3|H3]; [|lia].
  cbn [map app decodeOctets].
  assert ((224 + c / 4096 <? 128) = false) as -> by (apply N.ltb_ge; div_lia).
  assert ((194 <=? 224 + c / 4096) && (224 + c / 4096 <=? 223) = false) as ->.
  { apply andb_false_iff. right. apply N.leb_gt. div_lia. }
  assert ((224 <=? 224 + c / 4096) && (224 + c / 4096 <=? 239) = true) as ->.
  { apply andb_true_iff. split; apply N.leb_le; div_lia. }
  assert (isContinuation (128 + (c / 64) mod 64) = true) as ->.
  { unfold isContinuation. apply andb_true_iff. split; apply N.leb_le; div_lia. }
  assert (isContinuation (128 + c mod 64) = true) as ->.
  { unfold isContinuation. apply andb_true_iff. split; apply N.leb_le; div_lia. }
  assert ((224 + c / 4096 =? 224) && (128 + (c / 64) mod 64 <? 160) = false) as ->.
  { apply andb_false_iff.
    destruct (N.eqb_spec (224 + c / 4096) 224) as [E|E]; [|now left].
    right. apply N.ltb_ge. div_lia. }
  assert ((224 + c / 4096 =? 237) && (160 <=? 128 + (c / 64) mod 64) = false) as ->.
  { apply andb_false_iff.
    destruct (N.eqb_spec (224 + c / 4096) 237) as [E|E]; [|now left].
    right. apply N.leb_gt. div_lia. }
  cbn [andb negb].
  assert ((224 + c / 4096 - 224) * 4096 + (128 + (c / 64) mod 64 - 128) * 64
          + (128 + c mod 64 - 128) = c) as -> by div_lia.
  unfold utf16. assert ((c <? 65536) = true) as -> by (apply N.ltb_lt; div_lia).
  reflexivity.
Qed.

(** [decodeURIComponent] undoes the percent-encoding of the path state,
    on a text without [%] and without surrogates. *)
Lemma decodeURIComponent_pathEncode (s : jsstring) :
  Forall (fun c => c <> 37 /\ isScalarUnit c = true) s ->
  decodeURIComponent (pathEncode s) = Normal s.
Proof.
  intros Hs. unfold decodeURIComponent.
  assert (uriTokens (pathEncode s) = Some (flat_map tokensOf s)) as ->.
  { induction Hs as [|c s [Hp Hc] _ IH]; [reflexivity|].
    unfold pathEncode in *. cbn [flat_map].
    rewrite uriTokens_encode by assumption. now rewrite IH. }
  assert (decodeOctets (flat_map tokensOf s) = Some s) as ->; [|reflexivity].
  induction Hs as [|c s [Hp Hc] _ IH]; [reflexivity|].
  cbn [flat_map]. rewrite decodeOctets_tokensOf by exact Hc. now rewrite IH.
Qed.

(** A text without [%] is its own decoding. *)
Lemma decodeURIComponent_plain (s : jsstring) :
  Forall (fun c => c <> 37) s -> decodeURIComponent s = Normal s.
Proof.
  intros Hs. unfold decodeURIComponent.
  assert (uriTokens s = Some (map Unit s)) as ->.
  { induction Hs as [|c s Hc _ IH]; [reflexivity|].
    cbn [uriTokens map]. apply N.eqb_neq in Hc. now rewrite Hc, IH. }
  assert (decodeOctets (map Unit s) = Some s) as ->; [|reflexivity].
  induction s as [|c s IH]; [reflexivity|].
  apply Forall_cons in Hs as [_ Hs]. cbn [map decodeOctets]. now rewrite IH.
Qed.

End CodecFacts.

Import CodecFacts.

(** ** The path state of the URL parser on plain text *)
Module PathStateFacts.
Import Path.

Lemma isPathText_spec (c : N) :
  isPathText c = true ->
  isScalarUnit c = true /\ 32 <= c /\ c <> 37 /\ c <> 35 /\ c <> 63 /\ c <> 92.
Proof.
  unfold isPathText.
  rewrite !andb_true_iff, negb_true_iff, !orb_false_iff, !N.eqb_neq, N.leb_le. tauto.
Qed.

Lemma textSegment_char (seg : jsstring) (c : N) :
  textSegment seg -> In c seg -> isPathText c = true /\ c <> 47.
Proof.
  intros [Hall _] Hc. rewrite forallb_forall in Hall. specialize (Hall c Hc).
  apply andb_true_iff in Hall as [Ht Hs]. apply negb_true_iff, N.eqb_neq in Hs. auto.
Qed.

Lemma scalarValues_scalar (s : jsstring) :
  forallb isScalarUnit s = true -> scalarValues s = s.
Proof.
  induction s as [|c s IH]; [reflexivity|]. cbn [forallb scalarValues].
  intros [Hc Hs]%andb_true_iff. unfold isScalarUnit in Hc.
  rewrite orb_true_iff, andb_true_iff, !N.ltb_lt, N.leb_le in Hc.
  assert (isHighSurrogate c = false) as ->.
  { unfold isHighSurrogate. apply andb_false_iff.
    destruct Hc; [left; apply N.leb_gt|right; apply N.leb_gt]; lia. }
  assert (isLowSurrogate c = false) as ->.
  { unfold isLowSurrogate. apply andb_false_iff.
    destruct Hc; [left; apply N.leb_gt|right; apply N.leb_gt]; lia. }
  now rewrite IH.
Qed.

Lemma pathEncode_app (a b : jsstring) : pathEncode (a ++ b) = pathEncode a ++ pathEncode b.
Proof. apply flat_map_app. Qed.

Lemma encodeWith_nonempty (c : N) : encodeWith inPathSet c <> [].
Proof.
  unfold encodeWith. destruct (inPathSet c); [|discriminate].
  unfold utf8. repeat destruct (_ <? _); discriminate.
Qed.

Lemma pathEncode_nil (s : jsstring) : pathEncode s = [] -> s = [].
Proof.
  destruct s as [|c s]; [reflexivity|]. unfold pathEncode. cbn [flat_map].
  intros [E _]%app_eq_nil. now apply encodeWith_nonempty in E.
Qed.

(** The first byte of the UTF-8 form of a character. *)
Lemma encodeWith_escape (c : N) :
  inPathSet c = true -> c < 65536 ->
  exists b t, encodeWith inPathSet c = 37 :: hexDigit (b / 16) :: hexDigit (b mod 16) :: t
              /\ b < 256 /\ (b = c /\ c < 128 \/ 192 <= b).
Proof.
  intros Hin Hc. unfold encodeWith. rewrite Hin. unfold utf8.
  destruct (N.ltb_spec c 128); [exists c; eexists; split; [reflexivity|lia]|].
  destruct (N.ltb_spec c 2048);
    [eexists; eexists; split; [reflexivity|split; [div_lia|right; div_lia]]|].
  destruct (N.ltb_spec c 65536); [|lia].
  eexists; eexists; split; [reflexivity|split; [div_lia|right; div_lia]].
Qed.

Lemma toLowerCaseUnit_eq (c x : N) :
  toLowerCaseUnit c = x -> x < 65 \/ 122 < x -> c = x.
Proof.
  unfold toLowerCaseUnit. destruct (N.leb_spec 65 c), (N.leb_spec c 90); simpl; lia.
Qed.

Lemma hexDigit_lower (n : N) :
  n < 16 ->
  (toLowerCaseUnit (hexDigit n) = 50 -> n = 2)
  /\ (toLowerCaseUnit (hexDigit n) = 101 -> n = 14).
Proof.
  intros Hn. unfold toLowerCaseUnit, hexDigit.
  destruct (N.ltb_spec n 10);
    repeat match goal with
           | |- context [?a <=? ?b] => destruct (N.leb_spec a b)
           end; simpl; lia.
Qed.

(** The lowered encoding of a character is a dot when the character is
    one; otherwise it starts neither with a dot nor with [%2e]. *)
Lemma encode_head (c : N) (rest : jsstring) (x : N) (t : jsstring) :
  c <> 37 -> isScalarUnit c = true ->
  toLowerCase (encodeWith inPathSet c ++ rest) = x :: t ->
  (c = 46 /\ x = 46 /\ t = toLowerCase rest)
  \/ (x <> 46 /\ ~ (x = 37 /\ exists t', t = 50 :: 101 :: t')).
Proof.
  intros Hp Hs. pose proof (isScalarUnit_bound c Hs) as Hc.
  destruct (inPathSet c) eqn:Hin.
  - destruct (encodeWith_escape c Hin Hc) as (b & u & -> & Hb & Hfirst).
    cbn [app toLowerCase map]. intros [= <- <-]. right.
    split; [discriminate|]. intros [_ [t' [= H2 He _]]].
    destruct (hexDigit_lower (b / 16) ltac:(div_lia)) as [Hhi _].
    destruct (hexDigit_lower (b mod 16) ltac:(div_lia)) as [_ Hlo].
    specialize (Hhi H2). specialize (Hlo He).
    assert (b = 46) as -> by div_lia.
    destruct Hfirst as [[<- _]|Hbig]; [discriminate Hin|lia].
  - unfold encodeWith. rewrite Hin. cbn [app toLowerCase map]. intros [= <- <-].
    destruct (N.eq_dec c 46) as [->|Hd]; [left; auto|right].
    split.
    + intros E. apply Hd. apply (toLowerCaseUnit_eq c 46 E). lia.
    + intros [E _]. apply Hp. apply (toLowerCaseUnit_eq c 37 E). lia.
Qed.

Lemma textSegment_head (c : N) (r : jsstring) :
  forallb (fun c => isPathText c && negb (c =? 47)) (c :: r) = true ->
  c <> 37 /\ isScalarUnit c = true
  /\ forallb (fun c => isPathText c && negb (c =? 47)) r = true.
Proof.
  cbn [forallb]. intros [[Hc _]%andb_true_iff Hr]%andb_true_iff.
  apply isPathText_spec in Hc. tauto.
Qed.

Lemma single_dot_text (seg : jsstring) :
  forallb (fun c => isPathText c && negb (c =? 47)) seg = true ->
  toLowerCase (pathEncode seg) = lit "." \/ toLowerCase (pathEncode seg) = lit "%2e" ->
  seg = lit ".".
Proof.
  intros Hall Hdot. destruct seg as [|c r]; [destruct Hdot; discriminate|].
  apply textSegment_head in Hall as (Hp & Hs & Hr).
  unfold pathEncode in Hdot. cbn [flat_map] in Hdot. fold (pathEncode r) in Hdot.
  destruct Hdot as [E|E];
    destruct (encode_head c (pathEncode r) _ _ Hp Hs E) as [(-> & _ & Ht)|[Hx Hesc]].
  - symmetry in Ht. apply map_eq_nil, pathEncode_nil in Ht. now subst r.
  - now contradiction Hx.
  - discriminate.
  - contradiction Hesc. split; [reflexivity|]. now exists [].
Qed.

Lemma double_dot_text (seg : jsstring) :
  forallb (fun c => isPathText c && negb (c =? 47)) seg = true ->
  isDoubleDot (pathEncode seg) = true -> seg = lit "..".
Proof.
  intros Hall. unfold isDoubleDot. rewrite !orb_true_iff, !streq_true.
  destruct seg as [|c r]; [intros [[[E|E]|E]|E]; discriminate|].
  apply textSegment_head in Hall as (Hp & Hs & Hr).
  unfold pathEncode. cbn [flat_map]. fold (pathEncode r).
  intros [[[E|E]|E]|E];
    destruct (encode_head c (pathEncode r) _ _ Hp Hs E) as [(-> & _ & Ht)|[Hx Hesc]];
    try (now contradiction Hx); try discriminate;
    try (contradiction Hesc; split; [reflexivity|]; eexists; reflexivity).
  - symmetry in Ht. now rewrite (single_dot_text r Hr (or_introl Ht)).
  - symmetry in Ht. pose proof (single_dot_text r Hr (or_intror Ht)) as ->.
    discriminate Ht.
Qed.

Lemma isSingleDot_text (seg : jsstring) :
  textSegment seg -> isSingleDot (pathEncode seg) = false.
Proof.
  intros (Hall & Hdot & _). destruct (isSingleDot _) eqn:E; [|reflexivity].
  unfold isSingleDot in E. rewrite orb_true_iff, !streq_true in E.
  contradiction Hdot. now apply single_dot_text.
Qed.

Lemma isDoubleDot_text (seg : jsstring) :
  textSegment seg -> isDoubleDot (pathEncode seg) = false.
Proof.
  intros (Hall & _ & Hdots). destruct (isDoubleDot _) eqn:E; [|reflexivity].
  contradiction Hdots. now apply double_dot_text.
Qed.

(** A drive letter written with a bar is the encoding of itself only. *)
Lemma pathEncode_drive (seg : jsstring) (a : N) :
  pathEncode seg = [a; 124] -> isAlpha a = true -> seg = [a; 124].
Proof.
  intros E Ha.
  assert (forall c t x u, encodeWith inPathSet c ++ t = x :: u -> x <> 37 ->
                          c = x /\ t = u) as Hhead.
  { intros c t x u. unfold encodeWith. destruct (inPathSet c).
    - unfold utf8. repeat destruct (_ <? _); cbn; intros [= <- _] Hx; contradiction.
    - cbn. now intros [= -> ->]. }
  destruct seg as [|c r]; [discriminate|].
  unfold pathEncode in E. cbn [flat_map] in E. fold (pathEncode r) in E.
  apply Hhead in E as [-> E]; [|intros ->; discriminate Ha].
  destruct r as [|d r]; [discriminate|].
  unfold pathEncode in E. cbn [flat_map] in E. fold (pathEncode r) in E.
  apply Hhead in E as [-> E]; [|discriminate].
  apply pathEncode_nil in E. now subst r.
Qed.

(** A segment of path text is closed as its encoding. *)
Lemma endSegment_text (file slash : bool) (done : list jsstring) (seg : jsstring) :
  textSegment seg ->
  (file = true -> done = [] -> forall a, seg <> [a; 124]) ->
  endSegment file slash done (pathEncode seg) = done ++ [pathEncode seg].
Proof.
  intros Hseg Hdrive. unfold endSegment.
  rewrite (isDoubleDot_text seg Hseg), (isSingleDot_text seg Hseg).
  destruct (file && bool_decide (done = []) && isWindowsDriveLetter (pathEncode seg))
    eqn:E; [|reflexivity].
  apply andb_true_iff in E as [[Hf Hd%bool_decide_eq_true]%andb_true_iff Hw].
  destruct (pathEncode seg) as [|a [|c [|? ?]]] eqn:Ep; try discriminate Hw.
  cbn [isWindowsDriveLetter] in Hw.
  apply andb_true_iff in Hw as [Ha [Hc%N.eqb_eq|Hc%N.eqb_eq]%orb_true_iff].
  - now subst c.
  - subst c. now contradiction (Hdrive Hf Hd a (pathEncode_drive seg a Ep Ha)).
Qed.

(** The path state reads the characters of a segment into the buffer. *)
Lemma pathState_text (file : bool) (seg rest : list N) :
  forallb (fun c => isPathText c && negb (c =? 47)) seg = true ->
  forall (done : list jsstring) (buffer : jsstring),
    pathState true file done buffer (seg ++ rest)
    = pathState true file done (buffer ++ pathEncode seg) rest.
Proof.
  induction seg as [|c seg IH]; intros Hall done buffer.
  - cbn [app]. unfold pathEncode. cbn [flat_map]. now rewrite app_nil_r.
  - cbn [forallb] in Hall.
    apply andb_true_iff in Hall as [[Hc Hslash]%andb_true_iff Hall].
    apply isPathText_spec in Hc as (_ & _ & _ & H35 & H63 & H92).
    apply negb_true_iff in Hslash.
    cbn [app pathState]. unfold isSlash. rewrite Hslash.
    apply N.eqb_neq in H35, H63, H92. rewrite H35, H63, H92. cbn [andb orb].
    rewrite IH by exact Hall. unfold pathEncode. cbn [flat_map].
    now rewrite app_assoc.
Qed.

(** The path state on the segments of an absolute path. *)
Lemma pathState_segments (file : bool) (segments : list jsstring) :
  forall (seg : jsstring) (done : list jsstring),
    Forall textSegment (seg :: segments) ->
    (file = true -> done = [] -> forall a, seg <> [a; 124]) ->
    pathState true file done [] (joinWith 47 (seg :: segments))
    = done ++ map pathEncode (seg :: segments).
Proof.
  induction segments as [|next segments IH]; intros seg done Hall Hdrive;
    apply Forall_cons in Hall as [Hseg Hall].
  - cbn [joinWith map]. rewrite <- (app_nil_r seg) at 1.
    rewrite pathState_text by apply Hseg. cbn [app pathState].
    now apply endSegment_text.
  - change (joinWith 47 (seg :: next :: segments))
      with (seg ++ 47 :: joinWith 47 (next :: segments)).
    rewrite pathState_text by apply Hseg. cbn [app pathState].
    change (isSlash true 47) with true. cbv iota.
    rewrite endSegment_text by assumption.
    rewrite IH; [|exact Hall|intros _ E; now apply app_eq_nil in E as [_ E]].
    cbn [map]. now rewrite <- app_assoc.
Qed.

Lemma pathOf_cons (seg : jsstring) (segments : list jsstring) :
  pathOf (seg :: segments) = 47 :: joinWith 47 (seg :: segments).
Proof. unfold pathOf. cbn [flat_map app]. now rewrite joinWith_flat. Qed.

Lemma pathEncode_pathOf (segments : list jsstring) :
  pathEncode (pathOf segments) = flat_map (fun seg => 47 :: seg) (map pathEncode segments).
Proof.
  induction segments as [|seg segments IH]; [reflexivity|].
  unfold pathOf in *. cbn [flat_map map]. rewrite pathEncode_app, IH. reflexivity.
Qed.

Lemma pathOf_chars (segments : list jsstring) (c : N) :
  Forall textSegment segments -> In c (pathOf segments) -> isPathText c = true.
Proof.
  intros Hall. unfold pathOf. rewrite in_flat_map. intros (seg & Hseg & [<-|Hc]).
  - reflexivity.
  - rewrite Forall_forall in Hall. apply list_elem_of_In in Hseg.
    now destruct (textSegment_char seg c (Hall seg Hseg) Hc).
Qed.

Section WithHostParser.
Context `{HostParser}.

(** The URL of [file://] followed by an absolute path of text segments:
    no host, and the segments encoded one by one. *)
Lemma basicParse_file_path (segments : list jsstring) :
  segments <> [] -> Forall textSegment segments ->
  (forall a, head segments <> Some [a; 124]) ->
  (forall c, last (pathOf segments) = Some c -> c <> 32) ->
  basicParse (lit "file://" ++ pathOf segments)
  = Some {| scheme := lit "file"; host := Some [];
            path := Segments (map pathEncode segments) |}.
Proof.
  intros Hne Hall Hdrive Hlast. unfold basicParse.
  assert (forall c, In c (pathOf segments) -> isPathText c = true) as Hchars
      by (intros c; now apply pathOf_chars).
  rewrite preprocess_file_body.
  2:{ intros x Hx. specialize (Hlast x Hx).
      assert (In x (pathOf segments)) as Hin.
      { apply last_Some in Hx as [l' ->]. apply in_or_app. right. now left. }
      apply Hchars, isPathText_spec in Hin. lia. }
  rewrite scalarValues_scalar.
  2:{ rewrite forallb_forall. intros c Hc. now apply Hchars, isPathText_spec in Hc. }
  assert (removeTabNewline (pathOf segments) = pathOf segments) as ->.
  { unfold removeTabNewline. apply forallb_filter_id. rewrite forallb_forall.
    intros c Hc. apply Hchars, isPathText_spec in Hc as (_ & Hc & _).
    unfold isTabOrNewline. apply negb_true_iff, orb_false_iff.
    split; [apply orb_false_iff; split|]; apply N.eqb_neq; lia. }
  destruct segments as [|seg segments]; [contradiction|].
  rewrite pathOf_cons.
  set (body := joinWith 47 (seg :: segments)).
  change (splitScheme (lit "file://" ++ 47 :: body))
    with (Some (lit "file", 47 :: 47 :: 47 :: body)).
  change (streq (lit "file") (lit "file")) with true. cbv iota beta.
  change (fileState (47 :: 47 :: 47 :: body)) with (fileHostState (47 :: body)).
  unfold fileHostState. cbn [span]. change (negb (isFileHostEnd 47)) with false.
  cbv iota. cbn [isWindowsDriveLetter truthy negb].
  unfold pathStartState. change (isSlash true 47) with true. cbv iota.
  subst body. rewrite pathState_segments; [reflexivity|exact Hall|].
  intros _ _ a E. apply (Hdrive a). now rewrite E.
Qed.

End WithHostParser.

End PathStateFacts.

Import PathStateFacts.

(** ** File URLs and the normalizer *)
Module FileUrlRoundTrip.
Import Sample.

Ltac text_segment :=
  unfold textSegment;
  repeat match goal with
         | |- _ /\ _ => split
         | |- _ <> _ => let E := fresh in intros E; vm_compute in E; discriminate E
         | |- _ = true => vm_compute; reflexivity
         end.

(** X8. A [file://] URL of an absolute path comes back as that path: the
    URL parser percent-encodes the characters of the path and
    [decodeURIComponent] decodes them again. *)
Theorem normalize_file_url_round_trip `{HostParser} (segments : list jsstring) :
  segments <> [] -> Forall textSegment segments ->
  (forall a, head segments <> Some [a; 124]) ->
  (forall c, last (pathOf segments) = Some c -> isWhiteSpace c = false) ->
  normalizeFileManagerResult (lit "file://" ++ pathOf segments)
  = Normal (pathOf segments).
Proof.
  intros Hne Hall Hdrive Hlast.
  assert (exists c body, pathOf segments = body ++ [c] /\ isWhiteSpace c = false)
    as (c & body & Hbody & Hc).
  { destruct (last (pathOf segments)) as [c|] eqn:E.
    - pose proof (Hlast c eq_refl). apply last_Some in E as [body E]. eauto.
    - apply last_None in E. destruct segments; [contradiction|discriminate]. }
  eapply normalize_file_text.
  - change (lit "file://" ++ pathOf segments)
      with (102 :: lit "ile://" ++ pathOf segments).
    apply trim_fixed; [reflexivity|]. intros y.
    change (102 :: lit "ile://" ++ pathOf segments)
      with (lit "file://" ++ pathOf segments).
    rewrite Hbody, app_assoc, last_snoc. now intros [= <-].
  - reflexivity.
  - apply basicParse_file_path; try assumption.
    intros x Hx ->. now specialize (Hlast 32 Hx).
  - unfold pathname. cbn [path]. rewrite <- pathEncode_pathOf.
    apply decodeURIComponent_pathEncode. rewrite Forall_forall.
    intros x Hx%list_elem_of_In. apply (pathOf_chars segments x Hall) in Hx.
    apply isPathText_spec in Hx. tauto.
Qed.

Lemma normalize_file_url_round_trip_witness :
  @normalizeFileManagerResult plainHostParser
    (lit "file://" ++ lit "/Users/me/My Files/r" ++ [233] ++ lit "sum" ++ [233]
       ++ lit " <draft>.txt")
  = Normal (lit "/Users/me/My Files/r" ++ [233] ++ lit "sum" ++ [233]
              ++ lit " <draft>.txt").
Proof.
  apply (@normalize_file_url_round_trip plainHostParser
           [lit "Users"; lit "me"; lit "My Files";
            lit "r" ++ [233] ++ lit "sum" ++ [233] ++ lit " <draft>.txt"]).
  - discriminate.
  - repeat (apply Forall_cons_2; [text_segment|]). apply Forall_nil_2.
  - intros a E. vm_compute in E. discriminate E.
  - intros c E. vm_compute in E. injection E as <-. reflexivity.
Defined.

End FileUrlRoundTrip.

(** ** The segments the mapper decodes *)
Module SegmentDecoding.
Import Sample.

Lemma replacePlus_plain (s : jsstring) :
  Forall (fun c => c <> 43) s -> replacePlus s = s.
Proof.
  induction 1 as [|c s Hc _ IH]; [reflexivity|].
  unfold replacePlus in *. cbn [map]. apply N.eqb_neq in Hc. now rewrite Hc, IH.
Qed.

Lemma hexDigit_range (n : N) : n < 16 -> 48 <= hexDigit n.
Proof. intros Hn. unfold hexDigit. destruct (n <? 10); lia. Qed.

Lemma pathEncode_no_plus (s : jsstring) :
  Forall (fun c => c <> 43 /\ isScalarUnit c = true) s ->
  Forall (fun c => c <> 43) (pathEncode s).
Proof.
  induction 1 as [|c s [Hc Hs] _ IH]; [constructor|].
  unfold pathEncode in *. cbn [flat_map]. apply Forall_app. split; [|exact IH].
  unfold encodeWith. destruct (inPathSet c); [|apply Forall_cons_2; [exact Hc|apply Forall_nil_2]].
  pose proof (utf8_bytes c (isScalarUnit_bound c Hs)) as Hb.
  induction Hb as [|b bs Hb _ IHb]; [constructor|].
  cbn [flat_map]. apply Forall_app. split; [|exact IHb].
  unfold percentByte.
  pose proof (hexDigit_range (b / 16) ltac:(div_lia)).
  pose proof (hexDigit_range (b mod 16) ltac:(div_lia)).
  repeat (apply Forall_cons_2; [lia|]). apply Forall_nil_2.
Qed.

Lemma decodeSegment_plain (segment : jsstring) :
  Forall (fun c => c <> 37 /\ c <> 43) segment -> decodeSegment segment = segment.
Proof.
  intros Hall.
  assert (Forall (fun c => c <> 37) segment) as Hpercent
      by (eapply Forall_impl; [exact Hall|]; intros c (? & ?); auto).
  assert (Forall (fun c => c <> 43) segment) as Hplus
      by (eapply Forall_impl; [exact Hall|]; intros c (? & ?); auto).
  unfold decodeSegment. rewrite replacePlus_plain by exact Hplus.
  change (decodeRounds 2 segment)
    with (match decodeURIComponent segment with
          | Normal next =>
              if streq next segment then segment else decodeRounds 1 next
          | Throw _ => segment
          end).
  rewrite decodeURIComponent_plain by exact Hpercent. now rewrite streq_refl.
Qed.

Lemma decodeSegment_pathEncode (segment : jsstring) :
  Forall (fun c => c <> 37 /\ c <> 43 /\ isScalarUnit c = true) segment ->
  decodeSegment (pathEncode segment) = segment.
Proof.
  intros Hall.
  assert (Forall (fun c => c <> 37) segment) as Hpercent
      by (eapply Forall_impl; [exact Hall|]; intros c (? & ? & ?); auto).
  assert (decodeRounds 1 segment = segment) as Hone.
  { cbn [decodeRounds]. rewrite decodeURIComponent_plain by exact Hpercent.
    now rewrite streq_refl. }
  unfold decodeSegment. rewrite replacePlus_plain.
  2:{ apply pathEncode_no_plus. eapply Forall_impl; [exact Hall|].
      intros c (? & ? & ?); auto. }
  change (decodeRounds 2 (pathEncode segment))
    with (match decodeURIComponent (pathEncode segment) with
          | Normal next =>
              if streq next (pathEncode segment) then pathEncode segment
              else decodeRounds 1 next
          | Throw _ => pathEncode segment
          end).
  rewrite decodeURIComponent_pathEncode
    by (eapply Forall_impl; [exact Hall|]; intros c (? & ? & ?); auto).
  destruct (streq segment (pathEncode segment)) eqn:E; [|exact Hone].
  now apply streq_true in E.
Qed.

(** X11. [decodeSegment] undoes the percent-encoding of the URL parser:
    a segment without [%] and [+] is recovered from its encoded form, and
    it is left alone when it is given as it is. *)
Theorem decodeSegment_inverts_encoding (segment : jsstring) :
  Forall (fun c => c <> 37 /\ c <> 43 /\ isScalarUnit c = true) segment ->
  decodeSegment (pathEncode segment) = segment
  /\ decodeSegment segment = segment.
Proof.
  intros Hall. split; [now apply decodeSegment_pathEncode|].
  apply decodeSegment_plain. eapply Forall_impl; [exact Hall|].
  intros c (? & ? & ?); auto.
Qed.

Lemma decodeSegment_inverts_encoding_witness :
  pathEncode (lit "Q1 r" ++ [233] ++ lit "sum" ++ [233] ++ lit ".docx")
  = lit "Q1%20r%C3%A9sum%C3%A9.docx"
  /\ decodeSegment (lit "Q1%20r%C3%A9sum%C3%A9.docx")
     = lit "Q1 r" ++ [233] ++ lit "sum" ++ [233] ++ lit ".docx".
Proof.
  split; [reflexivity|].
  refine (proj1 (decodeSegment_inverts_encoding
                   (lit "Q1 r" ++ [233] ++ lit "sum" ++ [233] ++ lit ".docx") _)).
  repeat (apply Forall_cons_2;
          [split; [discriminate|split; [discriminate|reflexivity]]|]).
  apply Forall_nil_2.
Defined.

End SegmentDecoding.

Import SegmentDecoding.

(** ** The executor and the locale *)
Module ExecutorIsolation.

(** X15. The outcome of the script does not depend on the locale the
    process was started with: the child is spawned without [LC_ALL],
    whether the variable was set, to whatever value, or not. *)
Theorem runAppleScript_outcome_ignores_locale
  (w : World) (script : jsstring) (env : Env) (locale : jsstring) :
  fst (runAppleScript w script (<[lit "LC_ALL" := locale]> env))
  = fst (runAppleScript w script env)
  /\ fst (runAppleScript w script (envDelete (lit "LC_ALL") env))
     = fst (runAppleScript w script env).
Proof.
  unfold runAppleScript, envDelete.
  rewrite delete_insert_eq, delete_delete_eq.
  destruct (negb (streq (platform w) (lit "darwin"))); [split; reflexivity|].
  destruct (spawnSync w _ _ _) as [result|e]; [|split; reflexivity].
  destruct (truthy _); [split; reflexivity|].
  destruct (stdout result); split; reflexivity.
Qed.

End ExecutorIsolation.

(** ** URL-shaped paths *)
Module UrlShape.
Import Sample.

Lemma startsWith_includes (s p q : jsstring) :
  startsWith s (p ++ q) = true -> includes s p = true.
Proof.
  intros [r ->]%startsWith_spec. apply includes_spec. exists [], (q ++ r).
  now rewrite <- app_assoc.
Qed.

(** X16. The two prefix tests of [isProbablyUrlPath] decide nothing: a
    text is URL-shaped exactly when its lowered form contains [http:] or
    [https:] somewhere. *)
Theorem isProbablyUrlPath_markers (value : jsstring) :
  isProbablyUrlPath value
  = includes (toLowerCase value) (lit "http:")
    || includes (toLowerCase value) (lit "https:").
Proof.
  unfold isProbablyUrlPath.
  pose proof (startsWith_includes (toLowerCase value) (lit "http:") (lit "//")) as H1.
  pose proof (startsWith_includes (toLowerCase value) (lit "https:") (lit "//")) as H2.
  change (lit "http:" ++ lit "//") with (lit "http://") in H1.
  change (lit "https:" ++ lit "//") with (lit "https://") in H2.
  destruct (startsWith _ (lit "http://")); [now rewrite H1|].
  destruct (startsWith _ (lit "https://")); [rewrite H2 by reflexivity|reflexivity].
  now rewrite !orb_true_r.
Qed.

Lemma newURL_slash `{HostParser} (rest : jsstring) :
  newURL (47 :: rest) = Throw (TypeError (lit "Invalid URL")).
Proof.
  unfold newURL, basicParse.
  change (47 :: rest) with ([47] ++ rest).
  rewrite (scalarValues_plain [47] rest eq_refl). cbn [app].
  unfold stripC0. rewrite dropWhile_stop by reflexivity.
  fold (stripEnd (47 :: scalarValues rest)). rewrite stripEnd_cons by reflexivity.
  reflexivity.
Qed.

(** X17. An absolute local path that contains [http:] (in any letter case)
    is taken for a cloud location; as it does not parse as a URL it has no
    local match, and the resolved path is empty. *)
Theorem local_path_with_marker_is_unresolved `{HostParser}
  (w : World) (app : DocumentApp) (env env' : Env) (raw rest : jsstring) :
  runAppleScript w (buildDocumentPathScript app) env = (Normal raw, env') ->
  normalizeFileManagerResult raw = Normal (47 :: rest) ->
  (exists a b, toLowerCase (47 :: rest) = a ++ lit "http:" ++ b) ->
  resolveDocumentAppPathForOpen w app env
  = (Normal {| documentPath := 47 :: rest; resolvedPath := [] |}, env').
Proof.
  intros Hr Hn Hm%includes_spec.
  unfold resolveDocumentAppPathForOpen, getDocumentAppPath, mbind, Action_bind, liftAction.
  rewrite Hr, Hn. cbn [truthy negb mret Action_ret].
  unfold isProbablyUrlPath. rewrite Hm, orb_true_r. cbn [orb].
  unfold mapSharePointUrlToLocalPath. rewrite newURL_slash. reflexivity.
Qed.

Lemma local_path_with_marker_is_unresolved_witness :
  exists env',
    @resolveDocumentAppPathForOpen plainHostParser
      (mac syncedFS (lit "/Users/me/notes/HTTP: the basics.txt" ++ [10])) TextEdit ∅
    = (Normal {| documentPath := lit "/Users/me/notes/HTTP: the basics.txt";
                 resolvedPath := [] |}, env').
Proof.
  eexists.
  apply (@local_path_with_marker_is_unresolved plainHostParser
           (mac syncedFS (lit "/Users/me/notes/HTTP: the basics.txt" ++ [10]))
           TextEdit ∅ _ (lit "/Users/me/notes/HTTP: the basics.txt" ++ [10])
           (lit "Users/me/notes/HTTP: the basics.txt")).
  - apply OrchestratorSpec.runAppleScript_mac.
  - vm_compute. reflexivity.
  - exists (lit "/users/me/notes/"), (lit " the basics.txt"). reflexivity.
Defined.

End UrlShape.

(** ** The location to open *)
Module OpenPathFacts.
Import Sample.

Lemma resolveOpenPath_value (w : World) (pathValue : jsstring) :
  resolveOpenPath w pathValue
  = Normal (if truthy pathValue && isRegularFile w pathValue
            then Path.dirname pathValue else pathValue).
Proof.
  unfold resolveOpenPath, isRegularFile. destruct pathValue as [|c r]; [reflexivity|].
  cbn [truthy negb andb].
  destruct (stat (fs w) (c :: r)) as [stats|e]; [|reflexivity].
  cbn [tryCatch mbind Completion_bind mret Completion_ret].
  destruct (isFile stats); reflexivity.
Qed.

(** X18. Resolving twice is resolving once, on a file system where the
    directory of a regular file is not itself a regular file. *)
Theorem resolveOpenPath_idempotent (w : World) (pathValue : jsstring) :
  (isRegularFile w pathValue = true ->
   isRegularFile w (Path.dirname pathValue) = false) ->
  (resolveOpenPath w pathValue ≫= resolveOpenPath w) = resolveOpenPath w pathValue.
Proof.
  intros Hparent. rewrite (resolveOpenPath_value w pathValue).
  cbn [mbind Completion_bind]. rewrite resolveOpenPath_value.
  destruct (truthy pathValue && isRegularFile w pathValue) eqn:E; [|now rewrite E].
  apply andb_true_iff in E as [_ E]. rewrite (Hparent E). now rewrite andb_false_r.
Qed.

Lemma resolveOpenPath_idempotent_witness :
  (resolveOpenPath (mac syncedFS [])
     (lit "/Users/me/Library/CloudStorage/OneDrive-Contoso/Reports/Q1.docx")
   ≫= resolveOpenPath (mac syncedFS []))
  = Normal (lit "/Users/me/Library/CloudStorage/OneDrive-Contoso/Reports").
Proof.
  rewrite (resolveOpenPath_idempotent (mac syncedFS [])
             (lit "/Users/me/Library/CloudStorage/OneDrive-Contoso/Reports/Q1.docx")).
  - vm_compute. reflexivity.
  - intros _. vm_compute. reflexivity.
Defined.

End OpenPathFacts.

(** ** [path.join] with [..] segments *)
Module JoinFacts.
Import Path.

Lemma split_joinWith_noSlash (segs : list jsstring) :
  segs <> [] -> Forall noSlash segs -> JS.split 47 (joinWith 47 segs) = segs.
Proof.
  induction segs as [|seg segs IH]; [contradiction|]. intros _ Hall.
  apply Forall_cons in Hall as [Hseg Hall].
  destruct segs as [|seg' segs].
  - now apply split_no_separator.
  - change (joinWith 47 (seg :: seg' :: segs))
      with (seg ++ 47 :: joinWith 47 (seg' :: segs)).
    rewrite split_separator by exact Hseg.
    f_equal. now apply IH.
Qed.

Lemma plainSegment_noSlash (seg : jsstring) : plainSegment seg -> noSlash seg.
Proof. now intros (_ & _ & _ & ?). Qed.

(** Plain segments are pushed as they come. *)
Lemma normalizeSegments_push (allowAboveRoot : bool) (pre rest done : list jsstring) :
  Forall plainSegment pre ->
  normalizeSegments allowAboveRoot done (pre ++ rest)
  = normalizeSegments allowAboveRoot (rev pre ++ done) rest.
Proof.
  revert done. induction pre as [|seg pre IH]; intros done Hall; [reflexivity|].
  apply Forall_cons in Hall as [(Hne & Hdot & Hdots & _) Hall].
  cbn [app normalizeSegments].
  apply truthy_true in Hne. apply streq_false in Hdot, Hdots.
  rewrite Hne, Hdot, Hdots. cbn [negb orb].
  rewrite IH by exact Hall. cbn [rev]. now rewrite <- app_assoc.
Qed.

(** In an absolute path every [..] takes back one plain segment, while
    there is one. *)
Lemma normalizeSegments_pop (k : nat) (rest done : list jsstring) :
  Forall plainSegment done ->
  normalizeSegments false done (repeat (lit "..") k ++ rest)
  = normalizeSegments false (drop k done) rest.
Proof.
  revert done. induction k as [|k IH]; intros done Hall; [reflexivity|].
  cbn [repeat app normalizeSegments].
  change (negb (truthy (lit "..")) || streq (lit "..") (lit ".")) with false.
  change (streq (lit "..") (lit "..")) with true. cbv iota.
  destruct done as [|top below].
  { rewrite IH by constructor. now rewrite !drop_nil. }
  apply Forall_cons in Hall as [(_ & _ & Hdots & _) Hall].
  apply streq_false in Hdots. rewrite Hdots. now rewrite IH.
Qed.

(** The normal form of an absolute path, given the segments that remain. *)
Lemma normalize_absolute (all kept : list jsstring) (final : jsstring) :
  Forall noSlash all -> last all = Some final -> final <> [] ->
  normalizeSegments false [] all = kept ->
  kept <> [] -> Forall plainSegment kept ->
  normalize (47 :: joinWith 47 all) = 47 :: joinWith 47 kept.
Proof.
  intros Hall Hlast Hfinal Hkept Hne Hplain.
  assert (all <> []) as Hallne by (intros ->; discriminate).
  unfold normalize. rewrite N.eqb_refl. cbn [negb].
  change (JS.split 47 (47 :: joinWith 47 all)) with ([] :: JS.split 47 (joinWith 47 all)).
  rewrite split_joinWith_noSlash by assumption.
  cbn [normalizeSegments truthy negb orb]. rewrite Hkept.
  assert (truthy (joinWith 47 kept) = true) as ->.
  { destruct kept as [|a0 al]; [contradiction|].
    apply Forall_cons in Hplain as [(Ha & _) _]. rewrite joinWith_flat.
    destruct a0; [contradiction|reflexivity]. }
  cbn [negb].
  assert (default false (N.eqb 47 <$> last (47 :: joinWith 47 all)) = false) as ->;
    [|reflexivity].
  change (47 :: joinWith 47 all) with ([47] ++ joinWith 47 all).
  rewrite last_app, (joinWith_last all final Hlast Hfinal).
  destruct (last final) as [y|] eqn:Ey; [|apply last_None in Ey; contradiction].
  change (default false (N.eqb 47 <$> Some y)) with (47 =? y).
  assert (noSlash final) as Hslash.
  { rewrite Forall_forall in Hall. apply Hall.
    apply last_Some in Hlast as [l' ->]. apply elem_of_app. right. now left. }
  apply last_Some in Ey as [l' ->]. unfold noSlash in Hslash.
  rewrite forallb_app in Hslash. apply andb_true_iff in Hslash as [_ Hy].
  cbn [forallb] in Hy. rewrite andb_true_r in Hy.
  apply negb_true_iff in Hy. now rewrite N.eqb_sym.
Qed.

(** Joining an absolute root with further non-empty segments. *)
Lemma join_absolute (rootSegments segments : list jsstring) :
  rootSegments <> [] -> Forall (fun seg => seg <> []) segments ->
  join ((47 :: joinWith 47 rootSegments) :: segments)
  = normalize (47 :: joinWith 47 (rootSegments ++ segments)).
Proof.
  intros Hne Hsegs. set (root := 47 :: joinWith 47 rootSegments).
  assert (List.filter truthy (root :: segments) = root :: segments) as Hf.
  { apply forallb_filter_id. cbn [forallb]. subst root. cbn [truthy andb].
    rewrite forallb_forall. intros s Hs. rewrite Forall_forall in Hsegs.
    apply truthy_true. apply list_elem_of_In in Hs. now apply Hsegs. }
  unfold join. rewrite Hf. f_equal. rewrite joinWith_flat. subst root.
  cbn [app]. f_equal. destruct rootSegments as [|r0 rs]; [contradiction|].
  cbn [app]. rewrite !joinWith_flat, <- app_assoc. f_equal.
  now rewrite flat_map_app.
Qed.

(** With more [..] than the root has segments, what follows them is
    resolved from the root of the file system. *)
Lemma join_above_root (rootSegments target : list jsstring) (k : nat) :
  rootSegments <> [] -> Forall plainSegment rootSegments ->
  target <> [] -> Forall plainSegment target ->
  (length rootSegments <= k)%nat ->
  join ((47 :: joinWith 47 rootSegments) :: repeat (lit "..") k ++ target)
  = 47 :: joinWith 47 target.
Proof.
  intros Hne Hroot Htne Htarget Hk.
  rewrite join_absolute; [|exact Hne|].
  2:{ apply Forall_app. split.
      - apply Forall_forall. intros s Hs%list_elem_of_In%repeat_spec. now subst s.
      - eapply Forall_impl; [exact Htarget|]. now intros s (? & _). }
  destruct (last target) as [final|] eqn:Hlast;
    [|apply last_None in Hlast; contradiction].
  assert (plainSegment final) as (Hfinal & _).
  { rewrite Forall_forall in Htarget. apply Htarget.
    apply last_Some in Hlast as [l' ->]. apply elem_of_app. right. now left. }
  apply (normalize_absolute _ target final).
  - repeat (apply Forall_app; split).
    + eapply Forall_impl; [exact Hroot|]. apply plainSegment_noSlash.
    + apply Forall_forall. intros s Hs%list_elem_of_In%repeat_spec. now subst s.
    + eapply Forall_impl; [exact Htarget|]. apply plainSegment_noSlash.
  - rewrite !last_app, Hlast. reflexivity.
  - exact Hfinal.
  - rewrite normalizeSegments_push by exact Hroot. rewrite app_nil_r.
    rewrite normalizeSegments_pop by (now apply Forall_rev).
    rewrite drop_ge by (rewrite length_rev; lia).
    now rewrite normalizeSegments_plain.
  - exact Htne.
  - exact Htarget.
Qed.

End JoinFacts.

Import JoinFacts.

(** ** What the mapper can reach *)
Module MapperReach.
Import Sample JoinFacts.

(** X13. A match of the mapper is a candidate built from a sync root and
    a variant of the relative segments, and [stat] reports it as a
    regular file: nothing else is ever returned. *)
Theorem mapSharePointUrlToLocalPath_hit `{HostParser}
  (w : World) (urlValue hit : jsstring) :
  mapSharePointUrlToLocalPath w urlValue = Normal (Some hit) ->
  (exists stats, stat (fs w) hit = Normal stats /\ isFile stats = true)
  /\ exists parsed relativeSegments root variant,
       newURL urlValue = Normal parsed
       /\ relativeSegmentsOf (decodedSegments parsed) = Some relativeSegments
       /\ In root (syncRoots w)
       /\ In variant (relativeVariantsOf relativeSegments)
       /\ (hit = Path.join (root :: lit "Documents" :: variant)
           \/ hit = Path.join (root :: variant)).
Proof.
  rewrite mapSharePointUrlToLocalPath_stages.
  destruct (newURL urlValue) as [parsed|e]; [|discriminate].
  destruct (includes _ _); [|discriminate].
  destruct (relativeSegmentsOf _) as [relativeSegments|] eqn:Hrel; [|discriminate].
  intros [= Hfind]. apply find_some in Hfind as [Hin Hfile]. split.
  - unfold isRegularFile in Hfile. destruct (stat (fs w) hit) as [stats|]; [|discriminate].
    now exists stats.
  - exists parsed, relativeSegments. unfold candidatesOf in Hin.
    apply in_flat_map in Hin as (root & Hroot & Hin).
    apply in_flat_map in Hin as (variant & Hvariant & Hin).
    exists root, variant. repeat split; try assumption.
    destruct Hin as [<-|[<-|[]]]; auto.
Qed.

Lemma mapSharePointUrlToLocalPath_hit_witness :
  exists stats,
    stat syncedFS (lit "/Users/me/Library/CloudStorage/OneDrive-Contoso/Reports/Q1.docx")
    = Normal stats /\ isFile stats = true.
Proof.
  refine (proj1 (@mapSharePointUrlToLocalPath_hit plainHostParser
                   (mac syncedFS []) cloudUrl _ _)).
  vm_compute. reflexivity.
Defined.

(** X14. The mapper does not keep to the sync roots: relative segments
    that start with more [..] than the root is deep are resolved from the
    root of the file system, and a regular file found there is the match. *)
Theorem mapSharePointUrlToLocalPath_climbs `{HostParser}
  (w : World) (urlValue : jsstring) (parsed : URL)
  (rootSegments : list jsstring) (otherRoots : list jsstring)
  (target : list jsstring) (k : nat) :
  newURL urlValue = Normal parsed ->
  (exists a b, hostname parsed = a ++ lit "sharepoint.com" ++ b) ->
  relativeSegmentsOf (decodedSegments parsed) = Some (repeat (lit "..") k ++ target) ->
  syncRoots w = (47 :: Path.joinWith 47 rootSegments) :: otherRoots ->
  rootSegments <> [] -> Forall plainSegment rootSegments ->
  target <> [] -> Forall plainSegment target ->
  (length rootSegments < k)%nat ->
  isRegularFile w (47 :: Path.joinWith 47 target) = true ->
  mapSharePointUrlToLocalPath w urlValue
  = Normal (Some (47 :: Path.joinWith 47 target)).
Proof.
  intros Hu Hh%includes_spec Hrel Hroots Hne Hroot Htne Htarget Hk Hfile.
  rewrite mapSharePointUrlToLocalPath_stages, Hu, Hh, Hrel, Hroots. f_equal.
  assert (Path.join (((47 :: Path.joinWith 47 rootSegments) : jsstring)
                       :: lit "Documents" :: repeat (lit "..") k ++ target)
          = 47 :: Path.joinWith 47 target) as Hfirst.
  { assert (Forall (fun seg : jsstring => seg <> []) (repeat (lit "..") k ++ target))
      as Hnonempty.
    { apply Forall_app. split.
      - apply Forall_forall. intros s Hs%list_elem_of_In%repeat_spec. now subst s.
      - eapply Forall_impl; [exact Htarget|]. now intros s (? & _). }
    rewrite join_absolute; [|exact Hne|now apply Forall_cons_2].
    change (rootSegments ++ lit "Documents" :: repeat (lit "..") k ++ target)
      with (rootSegments ++ [lit "Documents"] ++ repeat (lit "..") k ++ target).
    rewrite app_assoc.
    rewrite <- join_absolute; [|now destruct rootSegments|exact Hnonempty].
    apply join_above_root; try assumption.
    - now destruct rootSegments.
    - apply Forall_app. split; [exact Hroot|].
      apply Forall_cons_2; [plain_segment|apply Forall_nil_2].
    - rewrite length_app. simpl. lia. }
  assert (exists more, relativeVariantsOf (repeat (lit "..") k ++ target)
                       = (repeat (lit "..") k ++ target) :: more) as [more ->]
      by (unfold relativeVariantsOf; eexists; reflexivity).
  rewrite candidatesOf_cons, candidatesOf_variant, <- !app_assoc, Hfirst.
  cbn [app List.find]. now rewrite Hfile.
Qed.

Lemma mapSharePointUrlToLocalPath_climbs_witness :
  @mapSharePointUrlToLocalPath plainHostParser (mac hostsFS []) climbingUrl
  = Normal (Some (lit "/etc/hosts")).
Proof.
  apply (@mapSharePointUrlToLocalPath_climbs plainHostParser (mac hostsFS []) climbingUrl
           {| scheme := lit "https"; host := Some (lit "contoso.sharepoint.com");
              path := Segments [lit "Documents"; lit "%252e%252e"; lit "%252e%252e";
                                lit "%252e%252e"; lit "%252e%252e"; lit "%252e%252e";
                                lit "%252e%252e"; lit "etc"; lit "hosts"] |}
           [lit "Users"; lit "me"; lit "Library"; lit "CloudStorage";
            lit "OneDrive-Contoso"]
           [] [lit "etc"; lit "hosts"] 6).
  - vm_compute. reflexivity.
  - exists (lit "contoso."), []. reflexivity.
  - vm_compute. reflexivity.
  - vm_compute. reflexivity.
  - discriminate.
  - repeat (apply Forall_cons_2; [plain_segment|]). apply Forall_nil_2.
  - discriminate.
  - repeat (apply Forall_cons_2; [plain_segment|]). apply Forall_nil_2.
  - simpl. lia.
  - vm_compute. reflexivity.
Defined.

End MapperReach.

(** ** The URL parser on the text of a cloud URL *)
Module HttpsUrlFacts.
Import Path.

Lemma plainAuthority_char (text : jsstring) (c : N) :
  plainAuthority text -> In c text ->
  isPathText c = true /\ c <> 47 /\ c <> 64 /\ c <> 58.
Proof.
  intros [_ Hall] Hc. rewrite forallb_forall in Hall. specialize (Hall c Hc).
  rewrite andb_true_iff, negb_true_iff, !orb_false_iff, !N.eqb_neq in Hall. tauto.
Qed.

(** The preprocessing of the parser leaves a text alone that has no
    surrogate and no control character and does not end in a space. *)
Lemma preprocess_text (x : N) (s : jsstring) :
  (forall c, In c (x :: s) -> isScalarUnit c = true /\ 32 <= c) ->
  x <> 32 -> (forall c, last (x :: s) = Some c -> c <> 32) ->
  removeTabNewline (stripC0 (scalarValues (x :: s))) = x :: s.
Proof.
  intros Hchars Hx Hlast.
  rewrite scalarValues_scalar
    by (rewrite forallb_forall; intros c Hc; now apply Hchars).
  rewrite stripC0_fixed.
  - unfold removeTabNewline. apply forallb_filter_id. rewrite forallb_forall.
    intros c [_ Hc]%Hchars. unfold isTabOrNewline.
    apply negb_true_iff, orb_false_iff.
    split; [apply orb_false_iff; split|]; apply N.eqb_neq; lia.
  - unfold isC0ControlOrSpace. apply N.leb_gt.
    destruct (Hchars x (or_introl eq_refl)) as [_ H32]. lia.
  - intros y Hy. unfold isC0ControlOrSpace. apply N.leb_gt.
    specialize (Hlast y Hy).
    assert (In y (x :: s)) as Hin.
    { apply last_Some in Hy as [l' E]. rewrite E. apply in_or_app. right. now left. }
    destruct (Hchars y Hin) as [_ H32]. lia.
Qed.

Lemma afterLastAt_none (text : list N) :
  Forall (fun c => c <> 64) text -> afterLastAt text = None.
Proof.
  induction 1 as [|c text Hc _ IH]; [reflexivity|].
  cbn [afterLastAt]. rewrite IH. apply N.eqb_neq in Hc. now rewrite Hc.
Qed.

Lemma hostSplit_none (text : list N) :
  Forall (fun c => c <> 58) text ->
  forall inside buffer, hostSplit inside buffer text = (buffer ++ text, None).
Proof.
  induction 1 as [|c text Hc _ IH]; intros inside buffer.
  - cbn [hostSplit]. now rewrite app_nil_r.
  - cbn [hostSplit]. apply N.eqb_neq in Hc. rewrite Hc. cbn [andb].
    rewrite IH, <- app_assoc. reflexivity.
Qed.

Section WithHostParser.
Context `{HostParser}.

(** The URL of [https://host] followed by an absolute path of text
    segments. *)
Lemma basicParse_https_path (hostText h : jsstring) (segments : list jsstring) :
  plainAuthority hostText -> parseHost false hostText = Some h ->
  segments <> [] -> Forall textSegment segments ->
  (forall c, last (pathOf segments) = Some c -> c <> 32) ->
  basicParse (lit "https://" ++ hostText ++ pathOf segments)
  = Some {| scheme := lit "https"; host := Some h;
            path := Segments (map pathEncode segments) |}.
Proof.
  intros Hhost Hh Hne Hall Hlast. unfold basicParse.
  destruct segments as [|seg segments]; [contradiction|].
  change (lit "https://" ++ hostText ++ pathOf (seg :: segments))
    with (104 :: lit "ttps://" ++ hostText ++ pathOf (seg :: segments)).
  rewrite preprocess_text.
  2:{ intros c [<-|Hc]; [split; [reflexivity|lia]|].
      apply in_app_or in Hc as [Hc|Hc].
      { vm_compute in Hc.
        repeat (destruct Hc as [<-|Hc]; [split; [reflexivity|lia]|]). contradiction. }
      apply in_app_or in Hc as [Hc|Hc].
      - destruct (plainAuthority_char _ _ Hhost Hc) as [Hc' _].
        apply isPathText_spec in Hc'. tauto.
      - apply (pathOf_chars _ c Hall), isPathText_spec in Hc. tauto. }
  2:{ discriminate. }
  2:{ intros c Hc. apply Hlast.
      change (104 :: lit "ttps://" ++ hostText ++ pathOf (seg :: segments))
        with ((lit "https://" ++ hostText) ++ pathOf (seg :: segments)) in Hc.
      rewrite last_app in Hc.
      destruct (last (pathOf (seg :: segments))) eqn:E; [exact Hc|].
      apply last_None in E. discriminate E. }
  rewrite pathOf_cons. set (body := joinWith 47 (seg :: segments)).
  change (splitScheme (104 :: lit "ttps://" ++ hostText ++ 47 :: body))
    with (Some (lit "https", 47 :: 47 :: hostText ++ 47 :: body)).
  change (streq (lit "https") (lit "file")) with false.
  change (isSpecial (lit "https")) with true. cbv iota beta.
  destruct Hhost as [Hhne Hhost']. pose proof (conj Hhne Hhost') as Hhost.
  destruct hostText as [|h0 ht]; [contradiction|].
  destruct (plainAuthority_char _ h0 Hhost (or_introl eq_refl)) as (Hh0 & H47 & _).
  apply isPathText_spec in Hh0 as (_ & _ & _ & _ & _ & H92).
  assert (isSlash true h0 = false) as Hslash.
  { unfold isSlash. apply orb_false_iff. split; [|cbn [andb]]; now apply N.eqb_neq. }
  cbn [dropWhile app]. change (isSlash true 47) with true. cbv iota.
  rewrite Hslash. change (h0 :: ht ++ 47 :: body) with ((h0 :: ht) ++ 47 :: body).
  unfold authorityState.
  rewrite span_all.
  2:{ rewrite forallb_forall. intros c Hc.
      destruct (plainAuthority_char _ c Hhost Hc) as (Hc' & Hc47 & _).
      apply isPathText_spec in Hc' as (_ & _ & _ & H35 & H63 & Hc92).
      apply negb_true_iff. unfold isAuthorityEnd.
      apply N.eqb_neq in Hc47, H35, H63, Hc92. now rewrite Hc47, H35, H63, Hc92. }
  2:{ reflexivity. }
  rewrite afterLastAt_none.
  2:{ apply Forall_forall. intros c Hc%list_elem_of_In.
      now destruct (plainAuthority_char _ c Hhost Hc) as (_ & _ & ? & _). }
  cbn [default]. rewrite bool_decide_eq_false_2 by discriminate.
  rewrite hostSplit_none.
  2:{ apply Forall_forall. intros c Hc%list_elem_of_In.
      now destruct (plainAuthority_char _ c Hhost Hc) as (_ & _ & _ & ?). }
  cbn [app truthy negb andb orb default].
  change (streq (lit "https") (lit "file")) with false.
  change (isSpecial (lit "https")) with true.
  change (portOk []) with true. cbn [negb]. cbv iota. rewrite Hh.
  unfold pathStartState. change (isSlash true 47) with true. cbv iota.
  subst body. rewrite pathState_segments; [reflexivity|exact Hall|discriminate].
Qed.

End WithHostParser.

Lemma pathEncode_avoids (x : N) (s : jsstring) :
  x < 48 -> x <> 37 ->
  Forall (fun c => c <> x /\ isScalarUnit c = true) s ->
  Forall (fun c => c <> x) (pathEncode s).
Proof.
  intros Hx Hp. induction 1 as [|c s [Hc Hs] _ IH]; [constructor|].
  unfold pathEncode in *. cbn [flat_map]. apply Forall_app. split; [|exact IH].
  unfold encodeWith.
  destruct (inPathSet c); [|apply Forall_cons_2; [exact Hc|apply Forall_nil_2]].
  pose proof (utf8_bytes c (isScalarUnit_bound c Hs)) as Hb.
  induction Hb as [|b bs Hb _ IHb]; [constructor|].
  cbn [flat_map]. apply Forall_app. split; [|exact IHb].
  unfold percentByte.
  pose proof (hexDigit_range (b / 16) ltac:(div_lia)).
  pose proof (hexDigit_range (b mod 16) ltac:(div_lia)).
  repeat (apply Forall_cons_2; [lia|]). apply Forall_nil_2.
Qed.

Lemma textSegment_chars (seg : jsstring) :
  textSegment seg ->
  Forall (fun c => c <> 37 /\ c <> 47 /\ isScalarUnit c = true) seg.
Proof.
  intros Hseg. apply Forall_forall. intros c Hc%list_elem_of_In.
  destruct (textSegment_char seg c Hseg Hc) as [Ht H47].
  apply isPathText_spec in Ht. tauto.
Qed.

Lemma pathEncode_noSlash (seg : jsstring) : textSegment seg -> noSlash (pathEncode seg).
Proof.
  intros Hseg. unfold noSlash. rewrite forallb_forall. intros c Hc.
  apply negb_true_iff, N.eqb_neq.
  assert (Forall (fun c => c <> 47) (pathEncode seg)) as Hav.
  { apply (pathEncode_avoids 47); [lia|discriminate|].
    eapply Forall_impl; [exact (textSegment_chars seg Hseg)|].
    intros d (? & ? & ?). auto. }
  rewrite Forall_forall in Hav. apply Hav. now apply list_elem_of_In.
Qed.

Lemma decode_encoded_segments (segments : list jsstring) :
  Forall textSegment segments -> Forall (Forall (fun c => c <> 43)) segments ->
  map decodeSegment (List.filter truthy (map pathEncode segments))
  = List.filter truthy segments.
Proof.
  induction segments as [|s segs IH]; [reflexivity|]. intros Hall Hplus.
  apply Forall_cons in Hall as [Hs Hall]. apply Forall_cons in Hplus as [Hp Hplus].
  cbn [map List.filter].
  assert (truthy (pathEncode s) = truthy s) as ->.
  { destruct s as [|c s]; [reflexivity|].
    destruct (pathEncode (c :: s)) eqn:E; [|reflexivity].
    now apply pathEncode_nil in E. }
  destruct (truthy s); [|now apply IH].
  cbn [map]. f_equal; [|now apply IH].
  apply decodeSegment_pathEncode.
  pose proof (textSegment_chars s Hs) as Hc.
  rewrite Forall_forall in *. intros c Hin.
  destruct (Hc c Hin) as (? & _ & ?). auto.
Qed.

(** The decoded segments of an encoded path are the non-empty segments
    of the text. *)
Lemma decodedSegments_text (parsed : URL) (segments : list jsstring) :
  path parsed = Segments (map pathEncode segments) ->
  segments <> [] -> Forall textSegment segments ->
  Forall (Forall (fun c => c <> 43)) segments ->
  decodedSegments parsed = List.filter truthy segments.
Proof.
  intros Hpath Hne Hall Hplus. unfold decodedSegments, pathname. rewrite Hpath.
  rewrite <- (decode_encoded_segments segments Hall Hplus). f_equal.
  destruct segments as [|seg segments]; [contradiction|].
  change (flat_map (fun seg => 47 :: seg) (map pathEncode (seg :: segments)))
    with (pathOf (map pathEncode (seg :: segments))).
  cbn [map]. rewrite pathOf_cons.
  change (JS.split 47 (47 :: joinWith 47 (pathEncode seg :: map pathEncode segments)))
    with ([] :: JS.split 47 (joinWith 47 (map pathEncode (seg :: segments)))).
  rewrite split_joinWith_noSlash; [reflexivity|discriminate|].
  apply Forall_map. eapply Forall_impl; [exact Hall|]. apply pathEncode_noSlash.
Qed.

End HttpsUrlFacts.

(** ** The mapper on the text of a cloud URL *)
Module MapperOnText.
Import Sample HttpsUrlFacts FileUrlRoundTrip.

(** X12. From the text of a cloud URL to the candidates: with a plain
    host that contains [sharepoint.com] and a path of text segments
    without [+], the relative segments are the non-empty segments of the
    path after the first [documents] (and a second one right after it),
    whatever the URL parser encoded on the way. *)
Theorem mapSharePointUrlToLocalPath_reads_text `{HostParser}
  (w : World) (hostText h : jsstring) (segments relativeSegments : list jsstring) :
  plainAuthority hostText -> parseHost false hostText = Some h ->
  (exists a b, h = a ++ lit "sharepoint.com" ++ b) ->
  segments <> [] -> Forall textSegment segments ->
  Forall (Forall (fun c => c <> 43)) segments ->
  (forall c, last (pathOf segments) = Some c -> c <> 32) ->
  relativeSegmentsOf (List.filter truthy segments) = Some relativeSegments ->
  mapSharePointUrlToLocalPath w (lit "https://" ++ hostText ++ pathOf segments)
  = Normal (List.find (isRegularFile w)
              (candidatesOf (syncRoots w) (relativeVariantsOf relativeSegments))).
Proof.
  intros Hhost Hh Hmarker%includes_spec Hne Hall Hplus Hlast Hrel.
  rewrite mapSharePointUrlToLocalPath_stages. unfold newURL.
  rewrite (basicParse_https_path hostText h segments) by assumption.
  cbv iota beta. change (hostname _) with h. rewrite Hmarker.
  rewrite (decodedSegments_text _ segments) by (assumption || reflexivity).
  now rewrite Hrel.
Qed.

Lemma mapSharePointUrlToLocalPath_reads_text_witness :
  @mapSharePointUrlToLocalPath plainHostParser (mac syncedFS [])
    (lit "https://contoso.sharepoint.com/sites/My Team/Documents//Reports/Q1.docx")
  = Normal (Some (lit "/Users/me/Library/CloudStorage/OneDrive-Contoso/Reports/Q1.docx")).
Proof.
  refine (eq_trans
            (@mapSharePointUrlToLocalPath_reads_text plainHostParser (mac syncedFS [])
               (lit "contoso.sharepoint.com") (lit "contoso.sharepoint.com")
               [lit "sites"; lit "My Team"; lit "Documents"; []; lit "Reports";
                lit "Q1.docx"]
               [lit "Reports"; lit "Q1.docx"] _ _ _ _ _ _ _ _) _).
  - split; [discriminate|reflexivity].
  - reflexivity.
  - exists (lit "contoso."), []. reflexivity.
  - discriminate.
  - repeat (apply Forall_cons_2; [text_segment|]). apply Forall_nil_2.
  - repeat (apply Forall_cons_2;
            [repeat (apply Forall_cons_2; [discriminate|]); apply Forall_nil_2|]).
    apply Forall_nil_2.
  - intros c E. vm_compute in E. injection E as <-. discriminate.
  - reflexivity.
  - vm_compute. reflexivity.
Defined.

End MapperOnText.

(** ** The families of applications *)
Module FamilyFacts.

Lemma arrayIncludes_spec (array : list jsstring) (value : jsstring) :
  arrayIncludes array value = true <-> In value array.
Proof.
  unfold arrayIncludes. rewrite existsb_exists. split.
  - intros (x & Hx & ->%streq_true). exact Hx.
  - intros Hv. exists value. split; [exact Hv|apply streq_refl].
Qed.

Lemma distinct_NoDup (l : list jsstring) : distinct l = true -> NoDup l.
Proof.
  induction l as [|x r IH]; [constructor|]. cbn [distinct].
  intros [Hx Hr]%andb_true_iff. constructor; [|now apply IH].
  intros Hin%list_elem_of_In%arrayIncludes_spec. now rewrite Hin in Hx.
Qed.

(** Case analysis on the members of a literal list. *)
Ltac members H :=
  repeat (destruct H as [<-|H]; [|]); [..|contradiction H].

Lemma fileManager_is_no_terminal (value : jsstring) :
  isFileManager value = true -> isTerminal value = false.
Proof. intros Hv%arrayIncludes_spec. cbn in Hv. members Hv; reflexivity. Qed.

(** X19. The families of sources do not overlap, ["Clipboard"] belongs
    to none of them, and every document target is also a document
    application: on a source, the order of the type guards decides
    nothing. *)
Theorem families_are_disjoint (value : jsstring) :
  (isFileManager value = true -> isTerminal value = false /\ isDocumentApp value = false)
  /\ (isTerminal value = true -> isDocumentApp value = false)
  /\ (isDocumentTarget value = true -> isDocumentApp value = true)
  /\ (value = lit "Clipboard" ->
      isFileManager value = false /\ isTerminal value = false
      /\ isDocumentApp value = false).
Proof.
  split; [|split; [|split]].
  - intros Hv%arrayIncludes_spec. cbn in Hv. members Hv; split; reflexivity.
  - intros Hv%arrayIncludes_spec. cbn in Hv. members Hv; reflexivity.
  - intros Hv%arrayIncludes_spec. cbn in Hv. members Hv; reflexivity.
  - intros ->. repeat split.
Qed.

End FamilyFacts.

(** ** The sources *)
Module SourceFacts.
Import FamilyFacts.

(** X20. Whatever the frontmost application is called, the source taken
    from it is one of the listed sources, and a listed source is taken as
    it is when the bundle identifier is not one of the two known ones. *)
Theorem normalizeFrontmostName_is_source :
  (forall (name : jsstring) (bundleId : option jsstring) (source : jsstring),
     normalizeFrontmostName name bundleId = Some source -> In source sources)
  /\ (forall (source : jsstring) (bundleId : option jsstring),
        In source sources ->
        bundleId <> Some (lit "com.adobe.Acrobat.Pro") ->
        bundleId <> Some (lit "net.sourceforge.skim-app.skim") ->
        normalizeFrontmostName source bundleId = Some source).
Proof.
  split.
  - intros name bundleId source. unfold normalizeFrontmostName.
    repeat match goal with
           | |- context [if ?b then _ else _] => destruct b eqn:?
           end;
      try discriminate;
      try (intros [= <-]; apply arrayIncludes_spec; vm_compute; reflexivity).
    intros [= <-]. now apply arrayIncludes_spec.
  - intros source bundleId Hs H1 H2. unfold normalizeFrontmostName.
    rewrite !bool_decide_eq_false_2 by assumption.
    cbn in Hs. members Hs; reflexivity.
Qed.

End SourceFacts.

(** ** The destinations of a source *)
Module TargetFacts.
Import FamilyFacts.

Lemma in_pushed (b : bool) (x target : jsstring) :
  In target (if b then [x] else []) <-> b = true /\ x = target.
Proof. destruct b; simpl; intuition discriminate. Qed.

(** The selection made from the preferences holds the destinations that
    the preferences show. *)
Lemma default_enabled (preferences : Preferences) (target : jsstring) :
  In target allTargets ->
  target ∈ buildDefaultEnabledTargets preferences
  <-> isTargetEnabled target preferences = true.
Proof.
  intros Ht. unfold buildDefaultEnabledTargets, defaultEnabledList.
  rewrite elem_of_list_to_set, list_elem_of_In, !in_app_iff, !in_pushed.
  vm_compute in Ht. members Ht; vm_compute; (split; [|intuition auto]); intros He;
    repeat (destruct He as [[Hb E]|He]; [try discriminate E; exact Hb|]);
    destruct He as [Hb E]; try discriminate E; exact Hb.
Qed.

(** The destinations listed before the preferences are applied. *)
Lemma targets_base (source : jsstring) (preferences : Preferences)
  (enabledTargets : option (gset jsstring)) (target : jsstring) :
  In target (targets source preferences enabledTargets) ->
  isTargetEnabled target preferences = true
  /\ (forall enabled, enabledTargets = Some enabled -> target ∈ enabled)
  /\ target <> source
  /\ if streq source (lit "Clipboard") || isDocumentApp source then In target allTargets
     else if isFileManager source then In target (fileManagers ++ terminals)
     else In target fileManagers.
Proof.
  intros Ht.
  assert (isTargetEnabled target preferences = true
          /\ (forall enabled, enabledTargets = Some enabled -> target ∈ enabled)
          /\ In target
               (let targetList :=
                  if streq source (lit "Clipboard") || isDocumentApp source then
                    fileManagers ++ terminals ++ documentTargets
                  else if isFileManager source then
                    List.filter (fun manager => negb (streq manager source)) fileManagers
                    ++ terminals
                  else fileManagers in
                if isDocumentApp source
                then List.filter (fun target => negb (streq target source)) targetList
                else targetList)) as (He & Hs & Hin).
  { unfold targets in Ht. destruct enabledTargets as [enabled|].
    - apply filter_In in Ht as [[Ht He]%filter_In Hs%bool_decide_eq_true].
      repeat split; [exact He| |exact Ht]. now intros ? [= <-].
    - apply filter_In in Ht as [Ht He]. repeat split; [exact He|discriminate|exact Ht]. }
  split; [exact He|]. split; [exact Hs|]. cbv zeta in Hin.
  destruct (isDocumentApp source) eqn:Hdoc.
  - rewrite orb_true_r in *. apply filter_In in Hin as [Hin Hne].
    split; [|exact Hin]. apply negb_true_iff, streq_false in Hne. exact Hne.
  - rewrite orb_false_r in *. destruct (streq source (lit "Clipboard")) eqn:Hc.
    + split; [|exact Hin]. apply streq_true in Hc. subst source.
      intros ->. vm_compute in Hin.
      repeat (destruct Hin as [Hin|Hin]; [discriminate Hin|]). contradiction.
    + destruct (isFileManager source) eqn:Hf.
      * apply in_app_or in Hin as [[Hin Hne]%filter_In|Hin].
        -- split; [|apply in_or_app; now left].
           now apply negb_true_iff, streq_false in Hne.
        -- split; [|apply in_or_app; now right].
           intros ->. pose proof (fileManager_is_no_terminal _ Hf) as Hterm.
           apply arrayIncludes_spec in Hin. unfold isTerminal in Hterm.
           fold terminals in Hterm. congruence.
      * split; [|exact Hin]. intros ->. apply arrayIncludes_spec in Hin.
        unfold isFileManager in Hf. fold fileManagers in Hf. congruence.
Qed.

Lemma NoDup_map_filter {A B} (f : A -> B) (p : A -> bool) (l : list A) :
  NoDup (map f l) -> NoDup (map f (List.filter p l)).
Proof.
  induction l as [|x l IH]; [constructor|]. cbn [map List.filter].
  intros [Hx Hl]%NoDup_cons. destruct (p x); [|now apply IH].
  cbn [map]. apply NoDup_cons. split; [|now apply IH].
  intros (y & Hy & [Hin _]%filter_In)%list_elem_of_In%in_map_iff.
  apply Hx, list_elem_of_In, in_map_iff. eauto.
Qed.

(** A function that tells the destinations apart tells the destinations
    listed for a source apart. *)
Lemma targets_apart {B} (f : jsstring -> B) (source : jsstring)
  (preferences : Preferences) (enabledTargets : option (gset jsstring)) :
  NoDup (map f allTargets) ->
  NoDup (map f (targets source preferences enabledTargets)).
Proof.
  intros Hall.
  pose proof Hall as Hparts. unfold allTargets in Hparts.
  rewrite !map_app in Hparts.
  apply NoDup_app in Hparts as (Hfm & Hdisj & Hrest).
  apply NoDup_app in Hrest as (Hterm & _ & _).
  assert (NoDup (map f (List.filter (fun manager => negb (streq manager source))
                          fileManagers ++ terminals))) as Hothers.
  { rewrite map_app. apply NoDup_app. split; [now apply NoDup_map_filter|].
    split; [|exact Hterm].
    intros y (x & Hy & [Hin _]%filter_In)%list_elem_of_In%in_map_iff Hyt.
    apply (Hdisj y).
    - apply list_elem_of_In, in_map_iff. eauto.
    - apply elem_of_app. now left. }
  unfold targets.
  destruct enabledTargets; repeat apply NoDup_map_filter;
    repeat match goal with
           | |- context [if ?b then _ else _] => destruct b
           end; try apply NoDup_map_filter; assumption.
Qed.

(** X21. The source itself is never among its destinations, and no
    destination is listed twice. *)
Theorem source_is_no_destination (source : jsstring) (preferences : Preferences)
  (enabledTargets : option (gset jsstring)) :
  ~ In source (targets source preferences enabledTargets)
  /\ NoDup (targets source preferences enabledTargets).
Proof.
  split.
  - intros Hin. now destruct (targets_base _ _ _ _ Hin) as (_ & _ & Hne & _).
  - rewrite <- (map_id (targets source preferences enabledTargets)).
    apply targets_apart. rewrite map_id.
    apply distinct_NoDup. vm_compute. reflexivity.
Qed.

Lemma targets_in_all (source : jsstring) (preferences : Preferences)
  (enabledTargets : option (gset jsstring)) (target : jsstring) :
  In target (targets source preferences enabledTargets) -> In target allTargets.
Proof.
  intros Ht. destruct (targets_base _ _ _ _ Ht) as (_ & _ & _ & Hbase).
  destruct (streq source (lit "Clipboard") || isDocumentApp source); [exact Hbase|].
  unfold allTargets.
  destruct (isFileManager source).
  - rewrite app_assoc. apply in_or_app. now left.
  - apply in_or_app. now left.
Qed.

(** The label of a destination is the title of neither of the two rows
    above the destinations. *)
Lemma target_label_is_no_heading (source : jsstring) (preferences : Preferences)
  (enabledTargets : option (gset jsstring)) (title : jsstring) :
  In title (map displayName (targets source preferences enabledTargets)) ->
  title <> lit "Source Path" /\ title <> lit "Mapped Local Path".
Proof.
  intros (target & <- & Ht%targets_in_all)%in_map_iff.
  vm_compute in Ht. members Ht; split; discriminate.
Qed.

(** The label of a source is not the title of the row of the active
    application. *)
Lemma source_label_is_no_active_title (hiddenSources : gset jsstring)
  (title rest : jsstring) :
  In title (map displayName (visibleSources hiddenSources)) ->
  title <> lit "Active App (" ++ rest.
Proof.
  intros (value & <- & [Hv _]%filter_In)%in_map_iff.
  cbn in Hv. members Hv; discriminate.
Qed.

(** X30. No two rows of a list carry the same title. In the list of the
    destinations these are the rows ["Source Path"] and
    ["Mapped Local Path"], where shown, and the rows of the destinations
    listed for the source. In the list of the sources these are the row of
    the active application, which is there whether that source is hidden or
    not, and the rows of the sources that are not hidden. *)
Theorem titles_are_distinct (source : jsstring) (preferences : Preferences)
  (enabledTargets : option (gset jsstring))
  (debugPath debugResolvedPath activeSource : option jsstring)
  (hiddenSources : gset jsstring) :
  NoDup (targetListTitles debugPath debugResolvedPath
           (targets source preferences enabledTargets))
  /\ NoDup (sourceListTitles activeSource hiddenSources).
Proof.
  assert (NoDup (map displayName (targets source preferences enabledTargets)))
    as Htargets.
  { apply targets_apart. apply distinct_NoDup. vm_compute. reflexivity. }
  assert (NoDup (map displayName (visibleSources hiddenSources))) as Hsources.
  { apply NoDup_map_filter. apply distinct_NoDup. vm_compute. reflexivity. }
  split.
  - unfold targetListTitles.
    assert (NoDup (lit "Mapped Local Path"
                   :: map displayName (targets source preferences enabledTargets)))
      as Hmapped.
    { apply NoDup_cons. split; [|exact Htargets].
      intros Hin%list_elem_of_In%target_label_is_no_heading. now destruct Hin. }
    destruct debugPath, debugResolvedPath; cbn [app]; try assumption.
    + apply NoDup_cons. split; [|exact Hmapped].
      intros [E|Hin%target_label_is_no_heading]%list_elem_of_In;
        [discriminate E|now destruct Hin].
    + apply NoDup_cons. split; [|exact Htargets].
      intros Hin%list_elem_of_In%target_label_is_no_heading. now destruct Hin.
  - unfold sourceListTitles.
    destruct activeSource as [active|]; [|exact Hsources].
    destruct (truthy active); [|exact Hsources].
    cbn [app]. apply NoDup_cons. split; [|exact Hsources].
    intros Hin%list_elem_of_In.
    now apply (source_label_is_no_active_title _ _ (displayName active ++ lit ")")) in Hin.
Qed.

(** X22. With the selection that [buildDefaultEnabledTargets] makes, the
    stored selection filters nothing out: the list is the one shown before
    any selection was loaded. *)
Theorem default_selection_changes_nothing (source : jsstring) (preferences : Preferences) :
  targets source preferences (Some (buildDefaultEnabledTargets preferences))
  = targets source preferences None.
Proof.
  unfold targets at 1. fold (targets source preferences None).
  apply forallb_filter_id, forallb_forall. intros target Ht.
  apply bool_decide_eq_true.
  destruct (targets_base _ _ _ _ Ht) as (He & _ & _ & Hbase).
  apply default_enabled; [|exact He].
  destruct (streq source (lit "Clipboard") || isDocumentApp source); [exact Hbase|].
  unfold allTargets.
  destruct (isFileManager source).
  - rewrite app_assoc. apply in_or_app. now left.
  - apply in_or_app. now left.
Qed.



End TargetFacts.

(** ** The actors, call by call *)
Module ActorFacts.
Import Sample.

Lemma resolveApplicationName_some (applications : list Application)
  (name appName : jsstring) :
  resolveApplicationName applications name = Some appName ->
  In appName (map Raycast.name applications)
  /\ (appName = name \/ (name = lit "iTerm" /\ appName = lit "iTerm2")).
Proof.
  unfold resolveApplicationName. destruct (streq name (lit "iTerm")) eqn:Hn.
  - apply streq_true in Hn. subst name.
    intros Hf. destruct (List.find _ applications) as [app|] eqn:E; [|discriminate].
    injection Hf as <-. apply find_some in E as [Hin Hm]. split; [now apply in_map|].
    apply orb_true_iff in Hm as [Hm%streq_true|Hm%streq_true]; auto.
  - intros Hf. destruct (List.find _ applications) as [app|] eqn:E; [|discriminate].
    injection Hf as <-. apply find_some in E as [Hin Hm%streq_true].
    split; [now apply in_map|auto].
Qed.



Lemma checkApplication_installed (api : Api) (name appName : jsstring) :
  checkApplication api name = Normal appName -> installedAs api name appName.
Proof.
  unfold checkApplication, installedAs.
  destruct (getApplications api) as [applications|e]; [|discriminate].
  cbn [mbind Completion_bind].
  destruct (resolveApplicationName applications name) as [found|] eqn:E; [|discriminate].
  destruct (truthy found) eqn:Ht; [|discriminate]. cbn [negb]. intros [= <-].
  exists applications. split; [reflexivity|].
  destruct (resolveApplicationName_some applications name found E) as [Hin Hname].
  split; [exact Hin|]. split; [now apply truthy_true|exact Hname].
Qed.

Lemma checkApplication_missing (api : Api) (name : jsstring) (applications : list Application) :
  getApplications api = Normal applications ->
  resolveApplicationName applications name = None ->
  checkApplication api name = Throw (Error (name ++ lit " not found")).
Proof. intros Ha Hr. unfold checkApplication. now rewrite Ha; cbn; rewrite Hr. Qed.

Lemma newCalls_app (before : Session) (env : Env) (more : list Call) :
  newCalls before {| processEnv := env; calls := calls before ++ more |} = more.
Proof. unfold newCalls. cbn [calls]. apply drop_app_length. Qed.


(** The ways an actor ends. *)
Lemma behaves_failure (api : Api) (name : option jsstring) (before : Session)
  (env : Env) (e : Exception) :
  behaves api name before
    (showFailureToast api e,
     {| processEnv := env; calls := calls before ++ [ShowFailureToast e] |}).
Proof.
  exists [ShowFailureToast e]. cbn [fst snd calls].
  split; [reflexivity|]. split; [eexists; split; reflexivity|].
  split; [cbn; lia|]. split; [|now intros ->].
  intros target application [Hc|[]]. discriminate Hc.
Qed.

Lemma behaves_toast (api : Api) (before : Session) (env : Env) (message : option jsstring)
  (u : unit) :
  behaves api None before
    (Normal u,
     {| processEnv := env; calls := calls before ++ [ShowToast Success (lit "Done") message] |}).
Proof.
  exists [ShowToast Success (lit "Done") message]. cbn [fst snd calls].
  split; [reflexivity|]. split; [eexists; split; reflexivity|].
  split; [cbn; lia|]. split; [|now destruct u].
  intros target application [Hc|[]]. discriminate Hc.
Qed.

Lemma behaves_toast_failure (api : Api) (before : Session) (env : Env)
  (message : option jsstring) (e : Exception) :
  behaves api None before
    (showFailureToast api e,
     {| processEnv := env;
        calls := (calls before ++ [ShowToast Success (lit "Done") message])
                 ++ [ShowFailureToast e] |}).
Proof.
  exists [ShowToast Success (lit "Done") message; ShowFailureToast e]. cbn [fst snd calls].
  split; [now rewrite <- app_assoc|]. split; [eexists; split; reflexivity|].
  split; [cbn; lia|]. split; [|now intros ->].
  intros target application [Hc|[Hc|[]]]; discriminate Hc.
Qed.

(** What the three actors that open a location do once the location is
    known: by cases on the outcome of each call. *)
Lemma behaves_launch (api : Api) (name directory : jsstring) (before : Session) (env : Env) :
  behaves api (Some name) before
    (tryCatchCommand
       (appName ← liftCompletion (checkApplication api name);
        _ ← perform (Open directory appName) (open api directory appName);
        perform (ShowToast Success (lit "Done") None)
          (showToast api Success (lit "Done") None))
       (fun err => perform (ShowFailureToast err) (showFailureToast api err))
       {| processEnv := env; calls := calls before |}).
Proof.
  unfold tryCatchCommand, mbind, Command_bind, liftCompletion, perform.
  cbn [processEnv calls].
  destruct (checkApplication api name) as [appName|e] eqn:Hcheck;
    [|apply (behaves_failure api _ before)].
  apply checkApplication_installed in Hcheck.
  destruct (open api directory appName) as [u|e].
  - destruct (showToast api Success (lit "Done") None) as [u'|e].
    + exists [Open directory appName; ShowToast Success (lit "Done") None].
      cbn [fst snd calls]. split; [now rewrite <- app_assoc|].
      split; [eexists; split; reflexivity|]. split; [cbn; lia|].
      split; [|now destruct u'].
      intros target application [[= <- <-]|[Hc|[]]]; [eauto|discriminate Hc].
    + exists [Open directory appName; ShowToast Success (lit "Done") None;
              ShowFailureToast e].
      cbn [fst snd calls]. split; [now rewrite <- !app_assoc|].
      split; [eexists; split; reflexivity|]. split; [cbn; lia|].
      split; [|now intros ->].
      intros target application [[= <- <-]|[Hc|[Hc|[]]]]; [eauto|discriminate Hc..].
  - exists [Open directory appName; ShowFailureToast e].
    cbn [fst snd calls]. split; [now rewrite <- app_assoc|].
    split; [eexists; split; reflexivity|]. split; [cbn; lia|].
    split; [|now intros ->].
    intros target application [[= <- <-]|[Hc|[]]]; [eauto|discriminate Hc].
Qed.

Lemma clipboardToApplication_behaves (api : Api) (name : jsstring) (session : Session) :
  behaves api (Some name) session (clipboardToApplication api name session).
Proof.
  destruct session as [env past].
  unfold clipboardToApplication.
  unfold tryCatchCommand at 1. unfold mbind at 1. unfold Command_bind at 1.
  unfold liftCompletion at 1.
  destruct (readText api) as [text|e]; [|apply (behaves_failure api _ {| processEnv := env; calls := past |})].
  apply (behaves_launch api name _ {| processEnv := env; calls := past |} env).
Qed.

Lemma applicationToFileManager_behaves (w : World) (api : Api)
  (name : Terminal) (fileManager : FileManager) (session : Session) :
  behaves api None session (applicationToFileManager w api name fileManager session).
Proof.
  unfold applicationToFileManager, tryCatchCommand, mbind, Command_bind, liftEnv, perform.
  destruct (runAppleScript w _ (processEnv session)) as [[result|e] env];
    cbn [processEnv calls]; [|apply (behaves_failure api _ session)].
  destruct (showToast api Success (lit "Done") (Some result)) as [u|e].
  - apply (behaves_toast api session).
  - apply (behaves_toast_failure api session).
Qed.

Section WithHostParser.
Context `{Url.HostParser}.

Lemma fileManagerToApplication_behaves (w : World) (api : Api)
  (fileManager : FileManager) (name : jsstring) (session : Session) :
  behaves api (Some name) session (fileManagerToApplication w api fileManager name session).
Proof.
  unfold fileManagerToApplication.
  unfold tryCatchCommand at 1. unfold mbind at 1 2. unfold Command_bind at 1 2.
  unfold liftEnv at 1. unfold liftCompletion at 1.
  destruct (getFileManagerPath w fileManager (processEnv session)) as [[located|e] env];
    cbn [processEnv calls]; [|apply (behaves_failure api _ session)].
  destruct (resolveOpenPath w located) as [directory|e]; [|apply (behaves_failure api _ session)].
  apply (behaves_launch api name (trim directory) session env).
Qed.

Lemma documentAppToApplication_behaves (w : World) (api : Api)
  (app : DocumentApp) (name : jsstring) (session : Session) :
  behaves api (Some name) session (documentAppToApplication w api app name session).
Proof.
  unfold documentAppToApplication.
  unfold tryCatchCommand at 1. unfold mbind at 1. unfold Command_bind at 1.
  unfold liftEnv at 1.
  destruct (resolveDocumentAppPathForOpen w app (processEnv session))
    as [[resolved|e] env]; cbn [processEnv calls]; [|apply (behaves_failure api _ session)].
  destruct (negb (truthy (resolvedPath resolved))).
  { unfold liftCompletion. apply (behaves_failure api _ session). }
  unfold mbind at 1. unfold Command_bind at 1. unfold liftCompletion at 1.
  destruct (resolveOpenPath w (resolvedPath resolved)) as [directory|e];
    [|apply (behaves_failure api _ session)].
  apply (behaves_launch api name (trim directory) session env).
Qed.

End WithHostParser.

End ActorFacts.

(** ** The actors *)
Module ActorSpec.
Import Sample ActorFacts.

Lemma behaves_newCalls (api : Api) (name : option jsstring) (before : Session)
  (result : Completion unit * Session) :
  behaves api name before result ->
  (exists final,
     last (newCalls before (snd result)) = Some final /\ isClosingToast final = true)
  /\ (length (List.filter isOpen (newCalls before (snd result))) <= 1)%nat
  /\ (forall target application,
        In (Open target application) (newCalls before (snd result)) ->
        exists n, name = Some n /\ installedAs api n application)
  /\ ((forall e, showFailureToast api e = Normal tt) -> fst result = Normal tt).
Proof.
  intros (more & Hcalls & Hrest). unfold newCalls. rewrite Hcalls, drop_app_length.
  exact Hrest.
Qed.

(** X25. Every run of an actor ends by telling the user: the last call
    it makes is the success toast or the failure toast. No actor throws,
    as long as the failure toast itself can be shown. *)
Theorem actors_close_with_a_toast `{Url.HostParser}
  (w : World) (api : Api) (session : Session) :
  (forall name, closesWithToast api session (clipboardToApplication api name session))
  /\ (forall fileManager name,
        closesWithToast api session
          (fileManagerToApplication w api fileManager name session))
  /\ (forall app name,
        closesWithToast api session (documentAppToApplication w api app name session))
  /\ (forall name fileManager,
        closesWithToast api session
          (applicationToFileManager w api name fileManager session))
  /\ (forall name,
        closesWithToast api session (finderToApplication w api name session)
        /\ closesWithToast api session (applicationToFinder w api name session)).
Proof.
  unfold closesWithToast, finderToApplication, applicationToFinder.
  repeat split;
    match goal with
    | |- context [clipboardToApplication ?a ?n ?s] =>
        pose proof (behaves_newCalls _ _ _ _ (clipboardToApplication_behaves a n s))
          as (Hlast & _ & _ & Hnormal)
    | |- context [fileManagerToApplication ?w ?a ?f ?n ?s] =>
        pose proof (behaves_newCalls _ _ _ _ (fileManagerToApplication_behaves w a f n s))
          as (Hlast & _ & _ & Hnormal)
    | |- context [documentAppToApplication ?w ?a ?d ?n ?s] =>
        pose proof (behaves_newCalls _ _ _ _ (documentAppToApplication_behaves w a d n s))
          as (Hlast & _ & _ & Hnormal)
    | |- context [applicationToFileManager ?w ?a ?n ?f ?s] =>
        pose proof (behaves_newCalls _ _ _ _ (applicationToFileManager_behaves w a n f s))
          as (Hlast & _ & _ & Hnormal)
    end; assumption.
Qed.

(** X26. An actor opens at most one location, and only in an
    application that is installed and that the chosen destination stands
    for (the name itself, or ["iTerm2"] for ["iTerm"]); the actor that
    drives a terminal opens nothing itself. *)
Theorem open_only_in_installed_application `{Url.HostParser}
  (w : World) (api : Api) (session : Session) :
  (forall name, opensOnlyFor api name session (clipboardToApplication api name session))
  /\ (forall fileManager name,
        opensOnlyFor api name session
          (fileManagerToApplication w api fileManager name session))
  /\ (forall app name,
        opensOnlyFor api name session (documentAppToApplication w api app name session))
  /\ (forall name fileManager target application,
        ~ In (Open target application)
            (newCalls session
               (snd (applicationToFileManager w api name fileManager session)))).
Proof.
  unfold opensOnlyFor. split; [|split; [|split]].
  - intros name.
    pose proof (behaves_newCalls _ _ _ _ (clipboardToApplication_behaves api name session))
      as (_ & Hone & Hopen & _).
    split; [exact Hone|]. intros target application Hin.
    now destruct (Hopen target application Hin) as (n & [= <-] & Hn).
  - intros fileManager name.
    pose proof (behaves_newCalls _ _ _ _
                  (fileManagerToApplication_behaves w api fileManager name session))
      as (_ & Hone & Hopen & _).
    split; [exact Hone|]. intros target application Hin.
    now destruct (Hopen target application Hin) as (n & [= <-] & Hn).
  - intros app name.
    pose proof (behaves_newCalls _ _ _ _
                  (documentAppToApplication_behaves w api app name session))
      as (_ & Hone & Hopen & _).
    split; [exact Hone|]. intros target application Hin.
    now destruct (Hopen target application Hin) as (n & [= <-] & Hn).
  - intros name fileManager target application Hin.
    pose proof (behaves_newCalls _ _ _ _
                  (applicationToFileManager_behaves w api name fileManager session))
      as (_ & _ & Hopen & _).
    now destruct (Hopen target application Hin) as (n & Hn & _).
Qed.

Section WithHostParser.
Context `{Url.HostParser}.

Lemma getFileManagerPath_value (w : World) (fileManager : FileManager) (env env' : Env)
  (raw located : jsstring) :
  runAppleScript w (buildFileManagerPathScript fileManager) env = (Normal raw, env') ->
  normalizeFileManagerResult raw = Normal located ->
  located <> [] ->
  getFileManagerPath w fileManager env = (Normal located, env').
Proof.
  intros Hr Hn Hp%truthy_true.
  unfold getFileManagerPath, mbind, Action_bind, liftAction.
  now rewrite Hr, Hn, Hp.
Qed.

Lemma getFileManagerPath_nonempty (w : World) (fileManager : FileManager) (env env' : Env)
  (located : jsstring) :
  getFileManagerPath w fileManager env = (Normal located, env') -> truthy located = true.
Proof.
  unfold getFileManagerPath, mbind, Action_bind, liftAction.
  destruct (runAppleScript w _ env) as [[raw|e] env1]; [|discriminate].
  destruct (normalizeFileManagerResult raw) as [normalized|e]; [|discriminate].
  destruct (truthy normalized) eqn:E; [|discriminate]. cbn [negb]. now intros [= <- _].
Qed.

(** X27. A document without a local path is not opened: the failure toast
    says that the document is cloud-only, whatever applications are
    installed. *)
Theorem unmapped_document_is_not_opened
  (w : World) (api : Api) (app : DocumentApp) (name : jsstring) (session : Session)
  (env' : Env) (located : jsstring) :
  resolveDocumentAppPathForOpen w app (processEnv session)
  = (Normal {| documentPath := located; resolvedPath := [] |}, env') ->
  documentAppToApplication w api app name session
  = (showFailureToast api (Error cloudOnlyMessage),
     {| processEnv := env';
        calls := calls session ++ [ShowFailureToast (Error cloudOnlyMessage)] |}).
Proof.
  intros Hr. unfold documentAppToApplication, tryCatchCommand, mbind, Command_bind, liftEnv.
  rewrite Hr. reflexivity.
Qed.

(** X28. The location a file manager reports is opened in the chosen
    application: the directory of a regular file, the location itself
    otherwise, trimmed; the success toast follows. *)
Theorem file_manager_location_is_opened
  (w : World) (api : Api) (fileManager : FileManager) (name : jsstring)
  (session : Session) (env' : Env) (located appName : jsstring) :
  getFileManagerPath w fileManager (processEnv session) = (Normal located, env') ->
  checkApplication api name = Normal appName ->
  open api (openTarget w located) appName = Normal tt ->
  showToast api Success (lit "Done") None = Normal tt ->
  fileManagerToApplication w api fileManager name session
  = (Normal tt,
     {| processEnv := env';
        calls := calls session
                 ++ [Open (openTarget w located) appName;
                     ShowToast Success (lit "Done") None] |}).
Proof.
  unfold openTarget. intros Hp Hc Ho Ht.
  pose proof (getFileManagerPath_nonempty _ _ _ _ _ Hp) as Hne.
  unfold fileManagerToApplication, tryCatchCommand, mbind, Command_bind, liftEnv,
    liftCompletion, perform.
  rewrite Hp. cbn [processEnv calls].
  rewrite OpenPathFacts.resolveOpenPath_value, Hne, Hc. cbn [andb].
  rewrite Ho, Ht. cbn [processEnv calls]. now rewrite <- app_assoc.
Qed.

End WithHostParser.

(** X29. The text on the clipboard is opened as it is, neither trimmed nor
    replaced by a directory; an empty clipboard opens the empty string. *)
Theorem clipboard_text_is_opened_unchanged
  (api : Api) (name : jsstring) (session : Session)
  (text : option jsstring) (appName : jsstring) :
  readText api = Normal text ->
  checkApplication api name = Normal appName ->
  exists later,
    newCalls session (snd (clipboardToApplication api name session))
    = Open (default [] text) appName :: later.
Proof.
  intros Hr Hc.
  assert (match text with
          | Some value => if truthy value then value else []
          | None => []
          end = default [] text) as Hd by (now destruct text as [[|? ?]|]).
  unfold clipboardToApplication, tryCatchCommand, mbind, Command_bind, liftCompletion,
    perform, newCalls.
  rewrite Hr, Hc, Hd. cbn [processEnv calls].
  destruct (open api (default [] text) appName) as [u|e]; cbn [processEnv calls snd].
  - destruct (showToast api Success (lit "Done") None) as [u'|e];
      cbn [processEnv calls snd]; rewrite <- ?app_assoc, drop_app_length;
      eexists; reflexivity.
  - rewrite <- ?app_assoc, drop_app_length. eexists. reflexivity.
Qed.

Lemma clipboard_text_is_opened_unchanged_witness :
  exists later,
    newCalls fresh
      (snd (clipboardToApplication
              (raycast [lit "Finder"; lit "iTerm2"] (Some (lit " ~/Downloads/a.txt ")))
              (lit "iTerm") fresh))
    = Open (lit " ~/Downloads/a.txt ") (lit "iTerm2") :: later.
Proof.
  apply (clipboard_text_is_opened_unchanged
           (raycast [lit "Finder"; lit "iTerm2"] (Some (lit " ~/Downloads/a.txt ")))
           (lit "iTerm") fresh (Some (lit " ~/Downloads/a.txt ")) (lit "iTerm2")).
  - reflexivity.
  - vm_compute. reflexivity.
Defined.

Lemma unmapped_document_is_not_opened_witness :
  exists env',
    @documentAppToApplication plainHostParser (mac emptySyncFS (cloudUrl ++ [10]))
      (raycast [lit "Finder"] None) MicrosoftWord (lit "Finder") fresh
    = (Normal tt,
       {| processEnv := env'; calls := [ShowFailureToast (Error cloudOnlyMessage)] |}).
Proof.
  eexists.
  apply (@unmapped_document_is_not_opened plainHostParser
           (mac emptySyncFS (cloudUrl ++ [10])) (raycast [lit "Finder"] None)
           MicrosoftWord (lit "Finder") fresh _ cloudUrl).
  unfold resolveDocumentAppPathForOpen, mbind, Action_bind.
  rewrite (@OrchestratorSpec.getDocumentAppPath_value plainHostParser
             (mac emptySyncFS (cloudUrl ++ [10])) MicrosoftWord _ _
             (cloudUrl ++ [10]) cloudUrl
             (OrchestratorSpec.runAppleScript_mac _ _ _ _)
             ltac:(vm_compute; reflexivity) ltac:(discriminate)).
  change (isProbablyUrlPath cloudUrl) with true. cbv iota.
  unfold liftAction.
  assert (@mapSharePointUrlToLocalPath plainHostParser
            (mac emptySyncFS (cloudUrl ++ [10])) cloudUrl = Normal None) as ->
      by (vm_compute; reflexivity).
  reflexivity.
Defined.

Lemma file_manager_location_is_opened_witness :
  exists env',
    @fileManagerToApplication plainHostParser
      (mac syncedFS
         (lit "file:///Users/me/Library/CloudStorage/OneDrive-Contoso/Reports/Q1.docx"
            ++ [10]))
      (raycast [lit "Finder"; lit "iTerm2"] None) QSpacePro (lit "iTerm") fresh
    = (Normal tt,
       {| processEnv := env';
          calls := [Open (lit "/Users/me/Library/CloudStorage/OneDrive-Contoso/Reports")
                      (lit "iTerm2");
                    ShowToast Success (lit "Done") None] |}).
Proof.
  eexists.
  refine (eq_trans
            (@file_manager_location_is_opened plainHostParser _ _ QSpacePro (lit "iTerm")
               fresh _
               (lit "/Users/me/Library/CloudStorage/OneDrive-Contoso/Reports/Q1.docx")
               (lit "iTerm2") _ _ _ _) _).
  - apply (@getFileManagerPath_value plainHostParser _ QSpacePro _ _
             (lit "file:///Users/me/Library/CloudStorage/OneDrive-Contoso/Reports/Q1.docx"
                ++ [10])).
    + apply OrchestratorSpec.runAppleScript_mac.
    + vm_compute. reflexivity.
    + discriminate.
  - vm_compute. reflexivity.
  - reflexivity.
  - reflexivity.
  - reflexivity.
Defined.

End ActorSpec.
